(** * Real-time voice pipeline: RealtimeStreamingAgent and VoiceActivityDetector

    A shallow embedding of
      - src/agents/voice/arabic-voice-config.ts  (processArabicText and the
        RealtimeStreamingAgent class, in its latest revision), and
      - src/agents/framework/enhanced-agent.ts   (VoiceActivityDetector,
        calibration part),
    together with the properties stated about them.

    Conventions.
      - A JavaScript string is the list of its UTF-16 code units ([N]); the
        regular expressions of the source have no [u] flag and only mention
        BMP ranges, so they work code unit by code unit.
      - [this.emit] and the outbound calls to the speech-to-text, chat and
        text-to-speech services are recorded, in program order, in a trace of
        effects.  Listeners are passive observers, and one is registered
        for ['error'] (an [EventEmitter] throws on an unheard ['error']).
      - An [async] method is cut at the [await]s of outbound calls: the part
        that runs up to the call returns a [pending] continuation, and
        [resume] runs the part that follows once the call settles with a
        [reply].  Between the two any other entry point of the agent may
        run, as on the JavaScript event loop.
      - Numbers that the code only compares and scales (speeds, energies) are
        exact rationals.  Where the code multiplies and stores the product
        (the thresholds of calibration), a number is the exact value of a
        double and the product is rounded as the double multiplication
        rounds it ([Double.round]). *)

From Stdlib Require Import List NArith ZArith QArith Qminmax Bool Lia.
From Stdlib Require Import Qpower Qround Qabs Lqa.
From Stdlib Require Import Sorting.Sorted Sorting.Permutation.
From Stdlib Require Ascii String.
Import ListNotations.

Set Implicit Arguments.
Local Open Scope N_scope.

(* ================================================================== *)
(** ** Strings and the regular expressions of the source *)

Module Text.

Definition jsstring := list N.

Definition in_range (lo hi c : N) : bool := (lo <=? c) && (c <=? hi).

(** [\s], which is also the set that [String.prototype.trim] strips. *)
Definition is_space (c : N) : bool :=
  in_range 0x09 0x0D c || (c =? 0x20) || (c =? 0xA0) || (c =? 0x1680)
  || in_range 0x2000 0x200A c || in_range 0x2028 0x2029 c
  || (c =? 0x202F) || (c =? 0x205F) || (c =? 0x3000) || (c =? 0xFEFF).

(** [/[\u0600-\u06FF\u0750-\u077F\u08A0-\u08FF\uFB50-\uFDFF\uFE70-\uFEFF]/] *)
Definition arabicPattern (c : N) : bool :=
  in_range 0x0600 0x06FF c || in_range 0x0750 0x077F c
  || in_range 0x08A0 0x08FF c || in_range 0xFB50 0xFDFF c
  || in_range 0xFE70 0xFEFF c.

(** [/[\u202A-\u202E]/] *)
Definition is_directional_mark (c : N) : bool := in_range 0x202A 0x202E c.

(** [/[.!?]/] *)
Definition is_sentence_end (c : N) : bool :=
  (c =? 0x2E) || (c =? 0x21) || (c =? 0x3F).

(** [/[.!?\u060C\u061F]/], the class tested by streamTTS *)
Definition is_terminal_tts (c : N) : bool :=
  is_sentence_end c || (c =? 0x060C) || (c =? 0x061F).

(** [/[.!?\u060C\u061B\u061F]/], the class tested by processArabicText *)
Definition is_terminal_arabic (c : N) : bool :=
  is_terminal_tts c || (c =? 0x061B).

Definition LRE : N := 0x202A.
Definition RLE : N := 0x202B.
Definition PDF : N := 0x202C.
Definition FULL_STOP : N := 0x2E.
Definition SPACE : N := 0x20.

(** [pattern.test(s)] for a one-character class *)
Definition test (cls : N -> bool) (s : jsstring) : bool := existsb cls s.

Fixpoint trimStart (s : jsstring) : jsstring :=
  match s with
  | [] => []
  | c :: r => if is_space c then trimStart r else s
  end.

Definition trimEnd (s : jsstring) : jsstring := rev (trimStart (rev s)).

Definition trim (s : jsstring) : jsstring := trimEnd (trimStart s).

(** [s.replace(/[\u202A-\u202E]/g, '')] *)
Definition remove_directional_marks (s : jsstring) : jsstring :=
  filter (fun c => negb (is_directional_mark c)) s.

(** [s.replace(/\s+/g, ' ')]: [in_run] says that the previous code unit was
    white space, already replaced. *)
Fixpoint collapse (in_run : bool) (s : jsstring) : jsstring :=
  match s with
  | [] => []
  | c :: r =>
      if is_space c
      then (if in_run then collapse true r else SPACE :: collapse true r)
      else c :: collapse false r
  end.

Definition normalize_whitespace (s : jsstring) : jsstring := collapse false s.

(** [s.match(/[...]$/)] is non-null: the last code unit is in the class. *)
Definition ends_with (cls : N -> bool) (s : jsstring) : bool :=
  match rev s with
  | [] => false
  | c :: _ => cls c
  end.

(** [buffer.match(/[.!?]\s/)] is non-null. *)
Fixpoint has_sentence_break (s : jsstring) : bool :=
  match s with
  | [] => false
  | c :: r =>
      match r with
      | [] => false
      | d :: _ => (is_sentence_end c && is_space d) || has_sentence_break r
      end
  end.

(** Truthiness of a string. *)
Definition truthy (s : jsstring) : bool :=
  match s with [] => false | _ :: _ => true end.

(** The two normalisation steps shared by processArabicText and streamTTS:
    [text.trim().replace(/[\u202A-\u202E]/g, '').replace(/\s+/g, ' ')]. *)
Definition normalize (text : jsstring) : jsstring :=
  normalize_whitespace (remove_directional_marks (trim text)).

(** processArabicText, default dialect ['arabic'] (the Egyptian branch only
    runs for the other dialect). *)
Definition processArabicText (text : jsstring) : jsstring :=
  let processed := normalize text in
  let processed := RLE :: processed ++ [PDF] in
  if negb (ends_with is_terminal_arabic processed)
  then processed ++ [FULL_STOP]
  else processed.

(** The text part of streamTTS: the string given as [input] to the speech
    service. *)
Definition tts_input (text : jsstring) : jsstring :=
  if test arabicPattern text then
    let processedText := normalize text in
    let processedText := RLE :: processedText ++ [PDF] in
    if negb (ends_with is_terminal_tts processedText)
    then processedText ++ [FULL_STOP]
    else processedText
  else text.

(** detectLanguage.  [text.match(p)] with a pattern that has neither the [g]
    flag nor groups is [null] or a one-element array, so [arabicChars] is 0
    or 1.  The quotient is compared exactly: [1 / n > 0.3] in double
    arithmetic iff [10 > 3 n]. *)
Inductive lang := ar | en | auto.

Definition detectLanguage (text : jsstring) : lang :=
  let arabicChars := if test arabicPattern text then 1 else 0 in
  let totalChars := N.of_nat (length text) in
  if (0 <? arabicChars) && (3 * totalChars <? 10 * arabicChars) then ar else en.

End Text.

(* ================================================================== *)
(** ** Audio buffers *)

Module Audio.

(** An [ArrayBuffer] / [Uint8Array]: the list of its bytes. *)
Definition bytes := list N.

(** A [Float32Array]: the list of its samples. *)
Definition samples := list Q.

Definition u16le (n : N) : bytes := [n mod 256; (n / 256) mod 256].

Definition u32le (n : N) : bytes :=
  [n mod 256; (n / 256) mod 256; (n / 65536) mod 256; (n / 16777216) mod 256].

Definition RIFF : bytes := [0x52; 0x49; 0x46; 0x46].
Definition WAVE : bytes := [0x57; 0x41; 0x56; 0x45].
Definition fmt_ : bytes := [0x66; 0x6D; 0x74; 0x20].
Definition data_ : bytes := [0x64; 0x61; 0x74; 0x61].

(** The 44-byte header that float32ToWav and convertToWav both write:
    PCM, one channel, 16000 Hz, 16 bits per sample. *)
Definition wav_header (riffLength dataLength : N) : bytes :=
  RIFF ++ u32le riffLength ++ WAVE
  ++ fmt_ ++ u32le 16 ++ u16le 1 ++ u16le 1
  ++ u32le 16000 ++ u32le 32000 ++ u16le 2 ++ u16le 16
  ++ data_ ++ u32le dataLength.

(** convertToWav *)
Definition convertToWav (audioData : bytes) : bytes :=
  let dataLength := N.of_nat (length audioData) in
  let headerLength := 44 in
  let fileLength := dataLength + headerLength - 8 in
  wav_header fileLength dataLength ++ audioData.

Definition Qmax2 (a b : Q) : Q := if Qle_bool a b then b else a.
Definition Qmin2 (a b : Q) : Q := if Qle_bool a b then a else b.

(** [view.setInt16(offset, x, true)]: truncate towards zero, wrap to 16
    bits, little endian. *)
Definition int16le (x : Q) : bytes :=
  u16le (Z.to_N (Z.modulo (Z.quot (Qnum x) (Zpos (Qden x))) 65536)).

(** float32ToWav *)
Definition float32ToWav (buffer : samples) : bytes :=
  let length := N.of_nat (length buffer) in
  wav_header (36 + length * 2) (length * 2)
  ++ flat_map (fun s => int16le (Qmax2 (-1) (Qmin2 1 s) * 32767)) buffer.

(** mergeAudioBuffers *)
Definition mergeAudioBuffers (buffers : list samples) : samples :=
  concat buffers.

(** The square of calculateEnergy, [sum / buffer.length]; [None] for the
    empty buffer, where the source computes [NaN]. *)
Definition energy_squared (buffer : samples) : option Q :=
  match buffer with
  | [] => None
  | _ :: _ =>
      Some (fold_left (fun sum x => sum + x * x) buffer 0
            / inject_Z (Z.of_nat (length buffer)))%Q
  end.

(** [this.calculateEnergy(audioChunk) > 0.01]: both sides are non-negative,
    so the squares are compared; [NaN > 0.01] is false. *)
Definition is_speaking (audioChunk : samples) : bool :=
  match energy_squared audioChunk with
  | None => false
  | Some e => negb (Qle_bool e (1 # 10000))
  end.

(** The WebM signature test of openaiSTT and groqSTT. *)
Definition isWebM (uint8Array : bytes) : bool :=
  (4 <? N.of_nat (length uint8Array))
  && match uint8Array with
     | b0 :: b1 :: b2 :: b3 :: _ =>
         (b0 =? 0x1A) && (b1 =? 0x45) && (b2 =? 0xDF) && (b3 =? 0xA3)
     | _ => false
     end.

Inductive file :=
| WavFile (content : bytes)      (* 'audio.wav',  type 'audio/wav'  *)
| WebmFile (content : bytes).    (* 'audio.webm', type 'audio/webm' *)

(** The file both transcription adapters build from the audio data. *)
Definition transcription_file (audioData : bytes) : file :=
  if isWebM audioData then WebmFile audioData
  else WavFile (convertToWav audioData).

End Audio.

(* ================================================================== *)
(** ** RealtimeStreamingAgent *)

Module Agent.

Import Text Audio.

Inductive provider := openai | groq.

Inductive voice := alloy | echo | fable | onyx | nova | shimmer.

Record StreamingVoiceConfig := {
  llmProvider : provider;
  llmModel : jsstring;
  sttProvider : provider;
  sttModel : jsstring;
  ttsVoice : voice;
  ttsSpeed : Q;
  streamResponse : bool;
  temperature : Q;
  systemPrompt : option jsstring
}.

Inductive role := user | assistant.

(** An entry of [conversationHistory]: [{ role, content }]. *)
Record turn := { turn_role : role; content : jsstring }.

(** A rejection value of an outbound call; the code never inspects it. *)
Definition failure := N.

Inductive error_payload :=
| NoSpeechDetected          (* { message: 'No speech detected. Please speak clearly.' } *)
| SpeechRecognitionFailed   (* { message: 'Speech recognition failed. Please try again.' } *)
| Thrown (e : failure).     (* the caught error itself *)

(** What the agent emits.  The [time] and [times] fields, read from the
    clock, are left out. *)
Inductive event :=
| transcript_ (text : jsstring)
| partial_ (content : jsstring)
| response_ (text : jsstring)
| audio_ (audioData : bytes) (text : jsstring)
| complete_ (transcript response : jsstring)
| error_ (e : error_payload)
| interrupted_.

(** The outbound calls. *)
Inductive request :=
| GroqTranscription (f : file)        (* groq.audio.transcriptions.create, whisper-large-v3 *)
| OpenAITranscription (f : file)      (* openai.audio.transcriptions.create, whisper-1 *)
| ChatCompletion (p : provider) (model : jsstring) (system : option jsstring)
    (messages : list turn) (temperature : Q) (stream : bool)
| Speech (v : voice) (input : jsstring) (speed : Q).  (* tts-1-hd, opus *)

Inductive effect := Emit (e : event) | Call (r : request).

(** [silenceTimer]: [null] is [None]; a handle is either still counting down
    (milliseconds left) or has fired.  The callback never resets the field,
    so a fired handle stays truthy. *)
Inductive timer := Armed (remaining : N) | Fired.

Record agent := {
  config : StreamingVoiceConfig;
  conversationHistory : list turn;
  isProcessing : bool;
  audioBuffer : list samples;
  silenceTimer : option timer;
  detectedLanguage : lang
}.

Definition set_config (c : StreamingVoiceConfig) (st : agent) : agent :=
  {| config := c; conversationHistory := conversationHistory st;
     isProcessing := isProcessing st; audioBuffer := audioBuffer st;
     silenceTimer := silenceTimer st; detectedLanguage := detectedLanguage st |}.

Definition set_conversationHistory (h : list turn) (st : agent) : agent :=
  {| config := config st; conversationHistory := h;
     isProcessing := isProcessing st; audioBuffer := audioBuffer st;
     silenceTimer := silenceTimer st; detectedLanguage := detectedLanguage st |}.

Definition set_isProcessing (b : bool) (st : agent) : agent :=
  {| config := config st; conversationHistory := conversationHistory st;
     isProcessing := b; audioBuffer := audioBuffer st;
     silenceTimer := silenceTimer st; detectedLanguage := detectedLanguage st |}.

Definition set_audioBuffer (b : list samples) (st : agent) : agent :=
  {| config := config st; conversationHistory := conversationHistory st;
     isProcessing := isProcessing st; audioBuffer := b;
     silenceTimer := silenceTimer st; detectedLanguage := detectedLanguage st |}.

Definition set_silenceTimer (t : option timer) (st : agent) : agent :=
  {| config := config st; conversationHistory := conversationHistory st;
     isProcessing := isProcessing st; audioBuffer := audioBuffer st;
     silenceTimer := t; detectedLanguage := detectedLanguage st |}.

Definition set_detectedLanguage (l : lang) (st : agent) : agent :=
  {| config := config st; conversationHistory := conversationHistory st;
     isProcessing := isProcessing st; audioBuffer := audioBuffer st;
     silenceTimer := silenceTimer st; detectedLanguage := l |}.

(** The constructor, applied to the configuration it ends up with. *)
Definition new_agent (c : StreamingVoiceConfig) : agent :=
  {| config := c; conversationHistory := []; isProcessing := false;
     audioBuffer := []; silenceTimer := None; detectedLanguage := auto |}.

(** *** The monad of the methods: the fields of [this] and the effect trace *)

Definition M (A : Type) : Type := agent -> A * agent * list effect.

Definition ret {A : Type} (a : A) : M A := fun st => (a, st, []).

Definition bind {A B : Type} (m : M A) (k : A -> M B) : M B :=
  fun st =>
    let r1 := m st in
    let r2 := k (fst (fst r1)) (snd (fst r1)) in
    (fst (fst r2), snd (fst r2), snd r1 ++ snd r2).

Definition get : M agent := fun st => (st, st, []).

Definition modify (f : agent -> agent) : M unit := fun st => (tt, f st, []).

Definition emit (e : event) : M unit := fun st => (tt, st, [Emit e]).

Definition call (r : request) : M unit := fun st => (tt, st, [Call r]).

Declare Scope agent_scope.
Delimit Scope agent_scope with agent.
Notation "x <- m ;; k" := (bind m (fun x => k))
  (at level 61, m at next level, right associativity) : agent_scope.
Notation "m ;; k" := (bind m (fun _ => k))
  (at level 61, right associativity) : agent_scope.
Local Open Scope agent_scope.

(** [this.conversationHistory.push({ role, content })] *)
Definition push_turn (r : role) (c : jsstring) : M unit :=
  modify (fun st =>
    set_conversationHistory
      (conversationHistory st ++ [{| turn_role := r; content := c |}]) st).

(** [a.slice(-n)] *)
Definition slice_last {A : Type} (n : nat) (a : list A) : list A :=
  skipn (length a - n) a.

(** *** Where a run can be suspended *)

(** The two methods that start a run. *)
Inductive caller := fromAudioFile | fromBufferedAudio.

(** What follows a call of streamTTS. *)
Inductive after_tts :=
| EmitComplete (transcript response : jsstring)  (* processAudioFile *)
| EndOfTry                                       (* processBufferedAudio, not streaming *)
| NextChunk (fullResponse : jsstring)            (* inside the [for await] loop *)
| FinishStream (fullResponse : jsstring).        (* the remaining buffer, after the loop *)

Inductive pending :=
| AwaitGroqSTT (c : caller) (audioData : bytes)
| AwaitOpenAISTT (c : caller)
| AwaitCompletion (c : caller) (transcript : jsstring)
| AwaitStream
| AwaitChunk (fullResponse buffer : jsstring)
| AwaitSpeech (text : jsstring) (k : after_tts).

(** How an outbound call settles. *)
Inductive reply :=
| Transcribed (text : jsstring)            (* [response.text] *)
| Completed (content : option jsstring)    (* [choices[0].message.content] *)
| Stream                                   (* the stream object *)
| Chunk (content : option jsstring)        (* [chunk.choices[0]?.delta?.content] *)
| StreamEnd
| AudioData (audioData : bytes)            (* [response.arrayBuffer()] *)
| Rejected (e : failure).

(** [content || ''] *)
Definition or_empty (content : option jsstring) : jsstring :=
  match content with Some s => s | None => [] end.

(** The [finally] blocks; the run is over. *)
Definition finally_ : M (option pending) :=
  modify (set_isProcessing false) ;; ret None.

(** The [catch] blocks of processAudioFile and processBufferedAudio. *)
Definition catch_ (e : failure) : M (option pending) :=
  emit (error_ (Thrown e)) ;; finally_.

Definition after_streamTTS (k : after_tts) : M (option pending) :=
  match k with
  | EmitComplete transcript response =>
      emit (complete_ transcript response) ;; finally_
  | EndOfTry => finally_
  | NextChunk fullResponse => ret (Some (AwaitChunk fullResponse []))
  | FinishStream fullResponse =>
      push_turn assistant fullResponse ;;
      emit (response_ fullResponse) ;;
      finally_
  end.

(** streamTTS, up to the call of the speech service. *)
Definition streamTTS (text : jsstring) (k : after_tts) : M (option pending) :=
  if negb (truthy (trim text)) then after_streamTTS k
  else
    st <- get ;;
    let hasArabic := test arabicPattern text in
    let voice := if hasArabic then nova else ttsVoice (config st) in
    let speed := if hasArabic then (85 # 100)%Q else ttsSpeed (config st) in
    call (Speech voice (tts_input text) speed) ;;
    ret (Some (AwaitSpeech text k)).

Definition chat (stream : bool) : M unit :=
  st <- get ;;
  call (ChatCompletion (llmProvider (config st)) (llmModel (config st))
          (systemPrompt (config st)) (conversationHistory st)
          (temperature (config st)) stream).

(** getLLMResponse, up to the call of the chat service. *)
Definition getLLMResponse (c : caller) (input : jsstring) : M (option pending) :=
  push_turn user input ;;
  chat false ;;
  ret (Some (AwaitCompletion c input)).

(** getLLMResponse after the call, and what its caller does with the
    response. *)
Definition getLLMResponse_return (c : caller) (transcript : jsstring)
    (content : option jsstring) : M (option pending) :=
  let response := or_empty content in
  push_turn assistant response ;;
  modify (fun st =>
    if (20 <? length (conversationHistory st))%nat
    then set_conversationHistory (slice_last 20 (conversationHistory st)) st
    else st) ;;
  emit (response_ response) ;;
  match c with
  | fromAudioFile => streamTTS response (EmitComplete transcript response)
  | fromBufferedAudio => streamTTS response EndOfTry
  end.

(** streamLLMResponse, up to the creation of the stream; streamGroqResponse
    and streamOpenAIResponse differ only in the client they call. *)
Definition streamLLMResponse (input : jsstring) : M (option pending) :=
  push_turn user input ;;
  chat true ;;
  ret (Some AwaitStream).

(** One turn of the [for await] loop. *)
Definition stream_chunk (fullResponse buffer : jsstring)
    (delta : option jsstring) : M (option pending) :=
  let content := or_empty delta in
  let fullResponse := fullResponse ++ content in
  let buffer := buffer ++ content in
  emit (partial_ content) ;;
  if has_sentence_break buffer
  then streamTTS buffer (NextChunk fullResponse)
  else ret (Some (AwaitChunk fullResponse buffer)).

(** After the loop. *)
Definition stream_end (fullResponse buffer : jsstring) : M (option pending) :=
  if truthy buffer
  then streamTTS buffer (FinishStream fullResponse)
  else after_streamTTS (FinishStream fullResponse).

(** What the two callers do with the result of speechToText. *)
Definition after_speechToText (c : caller) (transcript : option jsstring)
  : M (option pending) :=
  match c with
  | fromAudioFile =>
      match transcript with
      | Some t =>
          if negb (truthy t) || negb (truthy (trim t))
          then emit (error_ NoSpeechDetected) ;;
               modify (set_isProcessing false) ;;
               finally_
          else emit (transcript_ t) ;; getLLMResponse fromAudioFile t
      | None =>
          emit (error_ NoSpeechDetected) ;;
          modify (set_isProcessing false) ;;
          finally_
      end
  | fromBufferedAudio =>
      match transcript with
      | Some t =>
          if negb (truthy t)
          then modify (set_isProcessing false) ;; finally_
          else
            emit (transcript_ t) ;;
            st <- get ;;
            if streamResponse (config st)
            then streamLLMResponse t
            else getLLMResponse fromBufferedAudio t
      | None => modify (set_isProcessing false) ;; finally_
      end
  end.

(** speechToText once a transcript is there. *)
Definition speechToText_return (c : caller) (transcript : jsstring)
  : M (option pending) :=
  (if truthy transcript
   then modify (set_detectedLanguage (detectLanguage transcript))
   else ret tt) ;;
  after_speechToText c (Some transcript).

(** The [catch] block of speechToText. *)
Definition speechToText_catch (c : caller) : M (option pending) :=
  emit (error_ SpeechRecognitionFailed) ;;
  after_speechToText c None.

(** openaiSTT, up to the call. *)
Definition openaiSTT (c : caller) (audioData : bytes) : M (option pending) :=
  call (OpenAITranscription (transcription_file audioData)) ;;
  ret (Some (AwaitOpenAISTT c)).

(** groqSTT, up to the call. *)
Definition groqSTT (c : caller) (audioData : bytes) : M (option pending) :=
  call (GroqTranscription (transcription_file audioData)) ;;
  ret (Some (AwaitGroqSTT c audioData)).

(** speechToText, up to the call. *)
Definition speechToText (c : caller) (audioData : bytes) : M (option pending) :=
  st <- get ;;
  match sttProvider (config st) with
  | groq => groqSTT c audioData
  | openai => openaiSTT c audioData
  end.

(** The code that runs when the call a run waits for settles; [None] when
    the reply is not one that call can give. *)
Definition resume (p : pending) (r : reply) : option (M (option pending)) :=
  match p, r with
  | AwaitGroqSTT c _, Transcribed text => Some (speechToText_return c (trim text))
  | AwaitGroqSTT c audioData, Rejected _ => Some (openaiSTT c audioData)
  | AwaitOpenAISTT c, Transcribed text => Some (speechToText_return c (trim text))
  | AwaitOpenAISTT c, Rejected _ => Some (speechToText_catch c)
  | AwaitCompletion c transcript, Completed content =>
      Some (getLLMResponse_return c transcript content)
  | AwaitCompletion _ _, Rejected e => Some (catch_ e)
  | AwaitStream, Stream => Some (ret (Some (AwaitChunk [] [])))
  | AwaitStream, Rejected e => Some (catch_ e)
  | AwaitChunk fullResponse buffer, Chunk delta =>
      Some (stream_chunk fullResponse buffer delta)
  | AwaitChunk fullResponse buffer, StreamEnd =>
      Some (stream_end fullResponse buffer)
  | AwaitChunk _ _, Rejected e => Some (catch_ e)
  | AwaitSpeech text k, AudioData audioData =>
      Some (emit (audio_ audioData text) ;; after_streamTTS k)
  | AwaitSpeech _ k, Rejected _ => Some (after_streamTTS k)
  | _, _ => None
  end.

(** *** The public methods *)

Definition processAudioFile (audioData : bytes) : M (option pending) :=
  st <- get ;;
  if isProcessing st then ret None
  else
    modify (set_isProcessing true) ;;
    speechToText fromAudioFile audioData.

Definition processBufferedAudio : M (option pending) :=
  st <- get ;;
  if isProcessing st || (length (audioBuffer st) =? 0)%nat then ret None
  else
    modify (set_isProcessing true) ;;
    let audio := mergeAudioBuffers (audioBuffer st) in
    modify (set_audioBuffer []) ;;
    let audioData := float32ToWav audio in
    speechToText fromBufferedAudio audioData.

Definition processContinuousAudio (audioChunk : samples) : M unit :=
  modify (fun st => set_audioBuffer (audioBuffer st ++ [audioChunk]) st) ;;
  st <- get ;;
  if is_speaking audioChunk then
    match silenceTimer st with
    | Some _ => modify (set_silenceTimer None)
    | None => ret tt
    end
  else
    match silenceTimer st with
    | None =>
        if (0 <? length (audioBuffer st))%nat
        then modify (set_silenceTimer (Some (Armed 1000)))
        else ret tt
    | Some _ => ret tt
    end.

Definition interrupt : M unit :=
  st <- get ;;
  if isProcessing st then
    modify (set_isProcessing false) ;;
    modify (set_audioBuffer []) ;;
    emit interrupted_
  else ret tt.

Definition clearHistory : M unit :=
  modify (set_conversationHistory []) ;;
  modify (set_audioBuffer []).

(** updateConfig, applied to the merged configuration
    [{ ...this.config, ...config }]. *)
Definition updateConfig (merged : StreamingVoiceConfig) : M unit :=
  modify (set_config merged).

(** *** The agent on the event loop *)

(** The agent, its runs (a finished run is [None]) and everything it has
    emitted and called so far, oldest first. *)
Record system := {
  this : agent;
  runs : list (option pending);
  trace : list effect
}.

Inductive action :=
| CallProcessAudioFile (audioData : bytes)
| CallProcessContinuousAudio (audioChunk : samples)
| Elapse (ms : N)                       (* time passes *)
| CallInterrupt
| CallClearHistory
| CallUpdateConfig (merged : StreamingVoiceConfig)
| Settle (run : nat) (r : reply).       (* the call run [run] waits for settles *)

Definition boot (c : StreamingVoiceConfig) : system :=
  {| this := new_agent c; runs := []; trace := [] |}.

(** Run a method that may start a run. *)
Definition start (m : M (option pending)) (s : system) : system :=
  let r := m (this s) in
  {| this := snd (fst r);
     runs := match fst (fst r) with
             | Some p => runs s ++ [Some p]
             | None => runs s
             end;
     trace := trace s ++ snd r |}.

(** Run a method that starts none. *)
Definition exec (m : M unit) (s : system) : system :=
  let r := m (this s) in
  {| this := snd (fst r); runs := runs s; trace := trace s ++ snd r |}.

Fixpoint replace_nth {A : Type} (n : nat) (a : A) (l : list A) : list A :=
  match l, n with
  | [], _ => []
  | _ :: t, O => a :: t
  | h :: t, S n' => h :: replace_nth n' a t
  end.

Definition step (s : system) (a : action) : option system :=
  match a with
  | CallProcessAudioFile audioData => Some (start (processAudioFile audioData) s)
  | CallProcessContinuousAudio audioChunk =>
      Some (exec (processContinuousAudio audioChunk) s)
  | Elapse ms =>
      match silenceTimer (this s) with
      | Some (Armed remaining) =>
          if remaining <=? ms
          then Some (start (modify (set_silenceTimer (Some Fired)) ;;
                            processBufferedAudio) s)
          else Some (exec (modify (set_silenceTimer
                                     (Some (Armed (remaining - ms))))) s)
      | _ => Some s
      end
  | CallInterrupt => Some (exec interrupt s)
  | CallClearHistory => Some (exec clearHistory s)
  | CallUpdateConfig merged => Some (exec (updateConfig merged) s)
  | Settle i r =>
      match nth_error (runs s) i with
      | Some (Some p) =>
          match resume p r with
          | Some m =>
              let res := m (this s) in
              Some {| this := snd (fst res);
                      runs := replace_nth i (fst (fst res)) (runs s);
                      trace := trace s ++ snd res |}
          | None => None
          end
      | _ => None
      end
  end.

Fixpoint steps (s : system) (l : list action) : option system :=
  match l with
  | [] => Some s
  | a :: l' =>
      match step s a with
      | Some s' => steps s' l'
      | None => None
      end
  end.

(** *** One run on its own *)

(** Give a suspended run the replies of its successive calls, nothing else
    happening in between.  [None] when a reply does not fit the call, or
    when replies are left after the run is over. *)
Fixpoint drive (p : option pending) (rs : list reply) (st : agent)
  : option (option pending * agent * list effect) :=
  match rs with
  | [] => Some (p, st, [])
  | r :: rs' =>
      match p with
      | Some p0 =>
          match resume p0 r with
          | Some m =>
              let x := m st in
              match drive (fst (fst x)) rs' (snd (fst x)) with
              | Some (p', st', t) => Some (p', st', snd x ++ t)
              | None => None
              end
          | None => None
          end
      | None => None
      end
  end.

(** Call a method and give the run it starts its replies. *)
Definition run (m : M (option pending)) (rs : list reply) (st : agent)
  : option (option pending * agent * list effect) :=
  let x := m st in
  match drive (fst (fst x)) rs (snd (fst x)) with
  | Some (p', st', t) => Some (p', st', snd x ++ t)
  | None => None
  end.

(** *** Reading a trace *)

Definition events (t : list effect) : list event :=
  flat_map (fun x => match x with Emit e => [e] | Call _ => [] end) t.

Definition requests (t : list effect) : list request :=
  flat_map (fun x => match x with Call r => [r] | Emit _ => [] end) t.

(** The runs that are not over. *)
Definition is_active (r : option pending) : bool :=
  match r with Some _ => true | None => false end.

Definition active (s : system) : nat := length (filter is_active (runs s)).

(** The flag [isProcessing] tells whether a run is under way, and there is
    at most one. *)
Definition single_flight (s : system) : Prop :=
  active s = if isProcessing (this s) then 1%nat else 0%nat.

Definition is_interrupt (a : action) : bool :=
  match a with CallInterrupt => true | _ => false end.

(** The request speechToText starts with, by configured backend. *)
Definition first_transcription (c : StreamingVoiceConfig) (audioData : bytes)
  : request :=
  match sttProvider c with
  | groq => GroqTranscription (transcription_file audioData)
  | openai => OpenAITranscription (transcription_file audioData)
  end.

(** Two agents that differ at most in the fields a suspended run never
    reads: [isProcessing], [audioBuffer], [silenceTimer] and
    [detectedLanguage]. *)
Definition same_inputs (a b : agent) : Prop :=
  config a = config b /\ conversationHistory a = conversationHistory b.

(** *** The texts of a streamed response *)

(** The successive values of [buffer] that the [for await] loop and the
    test after it pass to streamTTS, when the loop starts an iteration with
    [buffer] and the stream still delivers [deltas]. *)
Fixpoint flushes (buffer : jsstring) (deltas : list (option jsstring))
  : list jsstring :=
  match deltas with
  | [] => if truthy buffer then [buffer] else []
  | d :: rest =>
      let buffer := buffer ++ or_empty d in
      if has_sentence_break buffer then buffer :: flushes [] rest
      else flushes buffer rest
  end.

(** The response text once the stream has delivered [deltas]. *)
Definition streamed_text (deltas : list (option jsstring)) : jsstring :=
  concat (map or_empty deltas).

Definition chunk_contents (rs : list reply) : list (option jsstring) :=
  flat_map (fun r => match r with Chunk d => [d] | _ => [] end) rs.

Definition audio_texts (es : list event) : list jsstring :=
  flat_map (fun e => match e with audio_ _ text => [text] | _ => [] end) es.

Definition is_partial_or_audio (e : event) : bool :=
  match e with partial_ _ | audio_ _ _ => true | _ => false end.

(** [l1] is [l2] with some elements left out, the order kept. *)
Inductive subsequence {A : Type} : list A -> list A -> Prop :=
| sub_nil : forall l, subsequence [] l
| sub_take : forall x l1 l2, subsequence l1 l2 -> subsequence (x :: l1) (x :: l2)
| sub_skip : forall x l1 l2, subsequence l1 l2 -> subsequence l1 (x :: l2).

(** No audio event comes before the first response event. *)
Fixpoint audio_after_response (es : list event) : bool :=
  match es with
  | [] => true
  | response_ _ :: _ => true
  | audio_ _ _ :: _ => false
  | _ :: rest => audio_after_response rest
  end.

(** *** Microphone input *)

(** Frames given to processContinuousAudio, each followed by the time that
    passes before the next one. *)
Definition feed (input : list (samples * N)) : list action :=
  flat_map (fun x => [CallProcessContinuousAudio (fst x); Elapse (snd x)])
    input.




End Agent.

(* ================================================================== *)
(** ** Double-precision arithmetic *)

(** A finite double is modelled by its exact value, a rational; an
    operation of the code is the exact operation followed by rounding to
    the nearest double (53 bits of precision, ties to even, gradual
    underflow below 2^-1022).  Overflow is left out: the energies of
    calculateEnergy lie between 0 and 1. *)
Module Double.

Local Open Scope Q_scope.

(** 2^z *)
Definition pow2 (z : Z) : Q := 2 ^ z.

(** The binade of a rational other than 0: the [k] with
    [2^k <= |x| < 2^(k+1)]. *)
Definition binade (x : Q) : Z :=
  let d := (Z.log2 (Z.abs (Qnum x)) - Z.log2 (Z.pos (Qden x)))%Z in
  if Qle_bool (pow2 d) (Qabs x) then d else (d - 1)%Z.

(** The exponent of the last place of the double nearest to [x]: 53 bits
    of precision, and no spacing finer than 2^-1074. *)
Definition exponent (x : Q) : Z := (Z.max (binade x) (-1022) - 52)%Z.

(** The integer nearest to [t], the even one of two that are equally near. *)
Definition nearest_even (t : Q) : Z :=
  let f := Qfloor t in
  match Qcompare (t - inject_Z f) (1 # 2) with
  | Lt => f
  | Gt => (f + 1)%Z
  | Eq => if Z.even f then f else (f + 1)%Z
  end.

(** The double nearest to [x]; a decimal literal of the source denotes the
    double nearest to it. *)
Definition round (x : Q) : Q :=
  inject_Z (nearest_even (x / pow2 (exponent x))) * pow2 (exponent x).

(** [a * b] on doubles. *)
Definition mul (a b : Q) : Q := round (a * b).

(** The values of the finite doubles: an integer of at most 53 bits times
    a power of two that is at least 2^-1074. *)
Definition is_double (x : Q) : Prop :=
  exists m e : Z,
    (Z.abs m <= 2 ^ 53)%Z /\ (-1074 <= e)%Z /\ x == inject_Z m * pow2 e.

End Double.

(* ================================================================== *)
(** ** VoiceActivityDetector: calibration *)

Module Vad.

Import Audio.

(** The fields calibration reads and writes. *)
Record VoiceActivityDetector := {
  energyThreshold : Q;
  silenceThreshold : Q;
  noiseFloor : Q;
  calibrationSamples : list Q;
  isCalibrating : bool
}.

(** The payload of the ['calibrated'] event. *)
Record calibrated := {
  ev_noiseFloor : Q;
  ev_energyThreshold : Q;
  ev_silenceThreshold : Q
}.

Fixpoint insert (x : Q) (l : list Q) : list Q :=
  match l with
  | [] => [x]
  | y :: t => if Qle_bool x y then x :: l else y :: insert x t
  end.

(** [[...a].sort((a, b) => a - b)]: ascending and stable. *)
Fixpoint sort (a : list Q) : list Q :=
  match a with
  | [] => []
  | x :: t => insert x (sort t)
  end.

(** [Math.floor(length * 0.75)] *)
Definition percentile_index (length : nat) : nat := (length * 3) / 4.

(** calculateNoiseFloor: the new fields and the event, if any. *)
Definition calculateNoiseFloor (v : VoiceActivityDetector)
  : VoiceActivityDetector * option calibrated :=
  match calibrationSamples v with
  | [] => (v, None)
  | _ :: _ =>
      let sorted := sort (calibrationSamples v) in
      let index := percentile_index (length sorted) in
      let noiseFloor := nth index sorted 0%Q in
      let energyThreshold :=
        Qmax2 (Double.mul noiseFloor 2) (Double.round (2 # 100)) in
      let silenceThreshold :=
        Qmax2 (Double.mul noiseFloor (15 # 10)) (Double.round (1 # 100)) in
      ({| energyThreshold := energyThreshold;
          silenceThreshold := silenceThreshold;
          noiseFloor := noiseFloor;
          calibrationSamples := calibrationSamples v;
          isCalibrating := isCalibrating v |},
       Some {| ev_noiseFloor := noiseFloor;
               ev_energyThreshold := energyThreshold;
               ev_silenceThreshold := silenceThreshold |})
  end.

(** calibrate, first part: the window opens. *)
Definition calibrate_begin (v : VoiceActivityDetector) : VoiceActivityDetector :=
  {| energyThreshold := energyThreshold v;
     silenceThreshold := silenceThreshold v;
     noiseFloor := noiseFloor v;
     calibrationSamples := [];
     isCalibrating := true |}.

(** calibrate, the interval callback, with the energy it measured. *)
Definition calibrate_sample (energy : Q) (v : VoiceActivityDetector)
  : VoiceActivityDetector :=
  {| energyThreshold := energyThreshold v;
     silenceThreshold := silenceThreshold v;
     noiseFloor := noiseFloor v;
     calibrationSamples := calibrationSamples v ++ [energy];
     isCalibrating := isCalibrating v |}.

(** calibrate, the timeout callback: the window closes. *)
Definition calibrate_end (v : VoiceActivityDetector)
  : VoiceActivityDetector * option calibrated :=
  let r := calculateNoiseFloor v in
  ({| energyThreshold := energyThreshold (fst r);
      silenceThreshold := silenceThreshold (fst r);
      noiseFloor := noiseFloor (fst r);
      calibrationSamples := calibrationSamples (fst r);
      isCalibrating := false |},
   snd r).

(** A whole calibration window in which the interval callback measured
    [energies], in this order. *)
Definition calibrate (energies : list Q) (v : VoiceActivityDetector)
  : VoiceActivityDetector * option calibrated :=
  calibrate_end
    (fold_left (fun v e => calibrate_sample e v) energies (calibrate_begin v)).

(** The constructor with an empty configuration. *)
Definition new_detector : VoiceActivityDetector :=
  {| energyThreshold := Double.round (2 # 100);
     silenceThreshold := Double.round (1 # 100);
     noiseFloor := 0; calibrationSamples := []; isCalibrating := false |}.

End Vad.

(* ================================================================== *)
(** ** Notions the claims are worded with *)

Module Claimed.

Import Text Agent.

(** The number of Arabic-script code units of a text. *)
Definition arabic_count (text : jsstring) : nat :=
  length (filter arabicPattern text).

(** "The proportion of Arabic-script characters in the text exceeds 30%":
    [arabic_count / length > 3 / 10]. *)
Definition arabic_ratio_exceeds_30 (text : jsstring) : bool :=
  (3 * length text <? 10 * arabic_count text)%nat.

End Claimed.

(* ================================================================== *)
(** ** Concrete configurations and inputs *)

Module Scenario.

Import Text Audio Agent.

(** The code units of an ASCII literal. *)
Definition lit (s : String.string) : jsstring :=
  map Ascii.N_of_ascii (String.list_ascii_of_string s).

Import String.
Local Open Scope string_scope.

(** A configuration with the defaults of the constructor (streaming on,
    OpenAI speech-to-text, Groq chat) and the voice set to alloy. *)
Definition cfg_streaming : StreamingVoiceConfig :=
  {| llmProvider := groq; llmModel := lit "llama3-8b-8192";
     sttProvider := openai; sttModel := lit "whisper-1";
     ttsVoice := alloy; ttsSpeed := 1; streamResponse := true;
     temperature := 7 # 10; systemPrompt := Some (lit "Be brief.") |}.

Definition cfg_buffered : StreamingVoiceConfig :=
  {| llmProvider := groq; llmModel := lit "llama3-8b-8192";
     sttProvider := openai; sttModel := lit "whisper-1";
     ttsVoice := alloy; ttsSpeed := 1; streamResponse := false;
     temperature := 7 # 10; systemPrompt := Some (lit "Be brief.") |}.

Definition cfg_groq_stt : StreamingVoiceConfig :=
  {| llmProvider := groq; llmModel := lit "llama3-8b-8192";
     sttProvider := groq; sttModel := lit "whisper-large-v3";
     ttsVoice := alloy; ttsSpeed := 1; streamResponse := false;
     temperature := 7 # 10; systemPrompt := Some (lit "Be brief.") |}.

(** U+0645 U+0631 U+062D U+0628 U+0627: an Arabic word. *)
Definition marhaban : jsstring := [0x0645; 0x0631; 0x062D; 0x0628; 0x0627].

(** The same word followed by a full stop. *)
Definition marhaban_stop : jsstring := (marhaban ++ lit ".")%list.

(** Eleven Latin letters, a space and one Arabic letter: 1 code unit in 13
    is Arabic. *)
Definition mostly_latin : jsstring := (lit "hello world " ++ [0x0627])%list.

Definition hi : jsstring := lit "Hi".
Definition hello : jsstring := lit "Hello.".

(** Some audio that does not start with the WebM signature. *)
Definition pcm : bytes := [0; 1; 0; 2; 0; 3].

Definition opus1 : bytes := [0x4F; 0x01].
Definition opus2 : bytes := [0x4F; 0x02].

(** 160 samples of digital silence, and a frame with signal. *)
Definition silent_frame : samples := repeat 0%Q 160.
Definition loud_frame : samples := repeat (1 # 2)%Q 160.

Definition after (c : StreamingVoiceConfig) (l : list action) : system :=
  match steps (boot c) l with
  | Some s => s
  | None => boot c
  end.

(** processAudioFile has been called, the transcript "Hi" has arrived and
    the chat completion is awaited. *)
Definition generating : system :=
  after cfg_buffered
    [CallProcessAudioFile pcm; Settle 0 (Transcribed hi)].


(** Speech, then silence for a second; the run this starts is run [k]: the
    transcript is "Hi", the streamed response is "Hello." in one chunk. *)
Definition utterance (k : nat) : list action :=
  [CallProcessContinuousAudio loud_frame;
   CallProcessContinuousAudio silent_frame;
   Elapse 1000;
   Settle k (Transcribed hi);
   Settle k Stream;
   Settle k (Chunk (Some hello));
   Settle k StreamEnd;
   Settle k (AudioData opus1)].

(** Two sentences streamed in three chunks. *)
Definition two_sentences : list reply :=
  [Stream;
   Chunk (Some (lit "Hello there. "));
   AudioData opus1;
   Chunk (Some (lit "How can "));
   Chunk (Some (lit "I help?"));
   StreamEnd;
   AudioData opus2].

End Scenario.

(* ================================================================== *)
(** ** Reading a WAV buffer back *)

Module Wav.

Import Audio.

(** The number a little-endian byte sequence stands for. *)
Definition le_decode (bs : bytes) : N :=
  fold_right (fun b acc => b + 256 * acc) 0 bs.

(** [len] bytes at offset [off]. *)
Definition field (off len : nat) (buf : bytes) : bytes :=
  firstn len (skipn off buf).

(** [view.getInt16(off, true)] for the two bytes [bs]. *)
Definition int16_decode (bs : bytes) : Z :=
  let u := Z.of_N (le_decode bs) in
  if (u <? 32768)%Z then u else (u - 65536)%Z.

(** The clamped sample of float32ToWav,
    [Math.max(-1, Math.min(1, buffer[i]))]. *)
Definition clamp (s : Q) : Q := Qmax2 (-1) (Qmin2 1 s).

(** [Math.trunc] on a rational. *)
Definition trunc (x : Q) : Z := Z.quot (Qnum x) (Zpos (Qden x)).

Definition is_byte (b : N) : Prop := b < 256.

End Wav.

(* ================================================================== *)
(** ** processArabicText with its dialects, and getVoiceSettings *)

Module ArabicText.

Import Text Agent.

(** [s] begins with [pat]. *)
Fixpoint starts_with (pat s : jsstring) : bool :=
  match pat, s with
  | [], _ => true
  | _ :: _, [] => false
  | p :: pat', c :: s' => (p =? c) && starts_with pat' s'
  end.

(** [/pat/.test(s)] for a literal pattern. *)
Fixpoint includes (pat s : jsstring) : bool :=
  match s with
  | [] => starts_with pat []
  | _ :: s' => starts_with pat s || includes pat s'
  end.

(** [s.replace(/pat/g, rep)] for a non-empty literal pattern: matches are
    taken from the left and do not overlap; [skip] counts the code units of
    the current match still to be passed over. *)
Fixpoint replace_all (pat rep : jsstring) (skip : nat) (s : jsstring)
  : jsstring :=
  match s with
  | [] => []
  | c :: s' =>
      match skip with
      | S k => replace_all pat rep k s'
      | O =>
          if starts_with pat s
          then rep ++ replace_all pat rep (length pat - 1) s'
          else c :: replace_all pat rep 0 s'
      end
  end.

(** The formal phrases and their Egyptian replacements. *)
Definition kayfa_haluk : jsstring :=
  [0x0643; 0x064A; 0x0641; 0x0020; 0x062D; 0x0627; 0x0644; 0x0643].
Definition izzayak : jsstring := [0x0625; 0x0632; 0x064A; 0x0643].
Definition madha_tafal : jsstring :=
  [0x0645; 0x0627; 0x0630; 0x0627; 0x0020; 0x062A; 0x0641; 0x0639; 0x0644].
Definition amil_eh : jsstring :=
  [0x0639; 0x0627; 0x0645; 0x0644; 0x0020; 0x0625; 0x064A; 0x0647].
Definition shukran : jsstring := [0x0634; 0x0643; 0x0631; 0x0627].
Definition mutashakkir : jsstring := [0x0645; 0x062A; 0x0634; 0x0643; 0x0631].

(** The other phrases of [egyptianPattern]. *)
Definition tamam : jsstring := [0x062A; 0x0645; 0x0627; 0x0645].
Definition khalas : jsstring := [0x062E; 0x0644; 0x0627; 0x0635].
Definition yalla : jsstring := [0x064A; 0x0644; 0x0627].

Inductive dialect := arabic | egyptian.

(** processArabicText with its second argument. *)
Definition processArabicText_dialect (text : jsstring) (d : dialect)
  : jsstring :=
  let processed := processArabicText text in
  match d with
  | egyptian =>
      replace_all shukran mutashakkir 0
        (replace_all madha_tafal amil_eh 0
           (replace_all kayfa_haluk izzayak 0 processed))
  | arabic => processed
  end.

(** [/(izzayak|amil eh|tamam|khalas|yalla)/.test(text)] *)
Definition egyptianPattern (text : jsstring) : bool :=
  includes izzayak text || includes amil_eh text || includes tamam text
  || includes khalas text || includes yalla text.

(** The [arabicPattern] of getVoiceSettings,
    [/[\u0600-\u06FF\u0750-\u077F]/], narrower than the agent's. *)
Definition arabicLetter (c : N) : bool :=
  in_range 0x0600 0x06FF c || in_range 0x0750 0x077F c.

Inductive tts_model := tts_1 | tts_1_hd.

Record voice_settings := {
  vs_voice : voice;
  vs_speed : Q;
  vs_model : tts_model
}.

(** The entries of ARABIC_VOICE_CONFIG that getVoiceSettings reads. *)
Definition voices_primary : voice := nova.
Definition speed_arabic : Q := 85 # 100.
Definition speed_english : Q := 1.
Definition quality_model : tts_model := tts_1_hd.
Definition egyptian_voice : voice := nova.
Definition egyptian_speed : Q := 12 # 10.

Definition getVoiceSettings (text : jsstring) : voice_settings :=
  if egyptianPattern text then
    {| vs_voice := egyptian_voice; vs_speed := egyptian_speed;
       vs_model := quality_model |}
  else if test arabicLetter text then
    {| vs_voice := voices_primary; vs_speed := speed_arabic;
       vs_model := quality_model |}
  else
    {| vs_voice := nova; vs_speed := speed_english; vs_model := tts_1_hd |}.

End ArabicText.

(* ================================================================== *)
(** ** Words for the outcome of a run *)

Module Outcome.

Import Text Audio Agent.

(** The speech request of streamTTS for a text that is not blank. *)
Definition spoken (c : StreamingVoiceConfig) (text : jsstring) : effect :=
  Call (Speech (if test arabicPattern text then nova else ttsVoice c)
          (tts_input text)
          (if test arabicPattern text then 85 # 100 else ttsSpeed c)%Q).

(** The chat request for a history. *)
Definition asked (c : StreamingVoiceConfig) (h : list turn) (stream : bool)
  : effect :=
  Call (ChatCompletion (llmProvider c) (llmModel c) (systemPrompt c) h
          (temperature c) stream).

(** "Keep history limited": the last 20 turns. *)
Definition limited (h : list turn) : list turn :=
  if (20 <? length h)%nat then slice_last 20 h else h.

Definition said (r : role) (c : jsstring) : turn :=
  {| turn_role := r; content := c |}.

End Outcome.

(* ================================================================== *)
(** ** Kinds of actions *)

Module Quiet.

Import Audio Agent.


End Quiet.

(* ================================================================== *)
(** ** Small microphone scenarios *)

Module MicScenario.

Import Audio Agent.

(** One sample of digital silence. *)
Definition hush : samples := [0%Q].

(** A fresh agent that has heard one silent frame and a second of nothing:
    the silence timer has fired and the run it started waits for its
    transcription. *)
Definition quiet_room : system :=
  Scenario.after Scenario.cfg_streaming (feed [(hush, 1000)]).


(** A run started by processAudioFile is under way when a silent frame
    arms the timer. *)
Definition busy_and_armed : system :=
  Scenario.after Scenario.cfg_streaming
    [CallProcessAudioFile Scenario.pcm; CallProcessContinuousAudio hush].

End MicScenario.

(* ================================================================== *)
(** ** VoiceActivityDetector: monitoring and speech detection *)

Module Detector.

Import Audio.

(** A pending [setTimeout]: the milliseconds left and the rank of its
    creation (timers due at the same time fire in the order they were
    set). *)
Record timeout := { remaining : N; rank : nat }.

(** The fields monitoring reads and writes. *)
Record VoiceActivityDetector := {
  energyThreshold : Q;
  silenceThreshold : Q;
  silenceTimeout : N;
  speechTimeout : N;
  silenceTimer : option timeout;
  speechTimer : option timeout;
  isSpeaking : bool;
  smoothingFactor : Q;
  previousEnergy : Q;
  noiseFloor : Q;
  isCalibrating : bool;
  timers_set : nat            (* how many timers were set so far *)
}.

Record VadConfig := {
  cfg_energyThreshold : option Q;
  cfg_silenceThreshold : option Q;
  cfg_silenceTimeout : option N;
  cfg_speechTimeout : option N;
  cfg_noiseFloor : option Q
}.

Inductive event :=
| speechStart
| speechEnd
| energy_ (raw smoothed threshold : Q) (isSpeaking : bool)
| configUpdated (c : VadConfig)
| reset_.

Definition set_timers (silence speech : option timeout) (n : nat)
    (v : VoiceActivityDetector) : VoiceActivityDetector :=
  {| energyThreshold := energyThreshold v;
     silenceThreshold := silenceThreshold v;
     silenceTimeout := silenceTimeout v;
     speechTimeout := speechTimeout v;
     silenceTimer := silence;
     speechTimer := speech;
     isSpeaking := isSpeaking v;
     smoothingFactor := smoothingFactor v;
     previousEnergy := previousEnergy v;
     noiseFloor := noiseFloor v;
     isCalibrating := isCalibrating v;
     timers_set := n |}.

Definition set_isSpeaking (b : bool) (v : VoiceActivityDetector)
  : VoiceActivityDetector :=
  {| energyThreshold := energyThreshold v;
     silenceThreshold := silenceThreshold v;
     silenceTimeout := silenceTimeout v;
     speechTimeout := speechTimeout v;
     silenceTimer := silenceTimer v;
     speechTimer := speechTimer v;
     isSpeaking := b;
     smoothingFactor := smoothingFactor v;
     previousEnergy := previousEnergy v;
     noiseFloor := noiseFloor v;
     isCalibrating := isCalibrating v;
     timers_set := timers_set v |}.

Definition set_previousEnergy (e : Q) (v : VoiceActivityDetector)
  : VoiceActivityDetector :=
  {| energyThreshold := energyThreshold v;
     silenceThreshold := silenceThreshold v;
     silenceTimeout := silenceTimeout v;
     speechTimeout := speechTimeout v;
     silenceTimer := silenceTimer v;
     speechTimer := speechTimer v;
     isSpeaking := isSpeaking v;
     smoothingFactor := smoothingFactor v;
     previousEnergy := e;
     noiseFloor := noiseFloor v;
     isCalibrating := isCalibrating v;
     timers_set := timers_set v |}.

(** [config.x || d] for a number: [undefined] and [0] give the default. *)
Definition or_default_Q (x : option Q) (d : Q) : Q :=
  match x with
  | Some q => if Qeq_bool q 0 then d else q
  | None => d
  end.

Definition or_default_N (x : option N) (d : N) : N :=
  match x with
  | Some 0 => d
  | Some n => n
  | None => d
  end.

(** The constructor. *)
Definition new_detector (config : VadConfig) : VoiceActivityDetector :=
  {| energyThreshold := or_default_Q (cfg_energyThreshold config) (2 # 100);
     silenceThreshold := or_default_Q (cfg_silenceThreshold config) (1 # 100);
     silenceTimeout := or_default_N (cfg_silenceTimeout config) 1500;
     speechTimeout := or_default_N (cfg_speechTimeout config) 300;
     silenceTimer := None;
     speechTimer := None;
     isSpeaking := false;
     smoothingFactor := 8 # 10;
     previousEnergy := 0;
     noiseFloor := 0;
     isCalibrating := false;
     timers_set := 0 |}.

Definition no_config : VadConfig :=
  {| cfg_energyThreshold := None; cfg_silenceThreshold := None;
     cfg_silenceTimeout := None; cfg_speechTimeout := None;
     cfg_noiseFloor := None |}.

Definition Qgt_bool (a b : Q) : bool := negb (Qle_bool a b).

(** detectSpeech *)
Definition detectSpeech (energy : Q) (v : VoiceActivityDetector)
  : VoiceActivityDetector :=
  if Qgt_bool energy (energyThreshold v) then
    if negb (isSpeaking v) then
      (* clear the silence timer, start the speech timer if there is none *)
      match speechTimer v with
      | None =>
          set_timers None
            (Some {| remaining := speechTimeout v; rank := timers_set v |})
            (S (timers_set v)) v
      | Some t => set_timers None (Some t) (timers_set v) v
      end
    else v
  else if Qgt_bool (silenceThreshold v) energy then
    if isSpeaking v then
      (* clear the speech timer, start the silence timer if there is none *)
      match silenceTimer v with
      | None =>
          set_timers
            (Some {| remaining := silenceTimeout v; rank := timers_set v |})
            None (S (timers_set v)) v
      | Some t => set_timers (Some t) None (timers_set v) v
      end
    else set_timers (silenceTimer v) None (timers_set v) v
  else v.

(** One turn of [monitor], with the energy calculateSpeechEnergy found. *)
Definition monitor (energy : Q) (v : VoiceActivityDetector)
  : VoiceActivityDetector * list event :=
  if isCalibrating v then (v, [])
  else
    let smoothedEnergy :=
      (smoothingFactor v * previousEnergy v
       + (1 - smoothingFactor v) * energy)%Q in
    let v1 := set_previousEnergy smoothedEnergy v in
    (detectSpeech smoothedEnergy v1,
     [energy_ energy smoothedEnergy (energyThreshold v1) (isSpeaking v1)]).

(** The callback of the speech timer. *)
Definition speech_fires (v : VoiceActivityDetector)
  : VoiceActivityDetector * list event :=
  (set_timers (silenceTimer v) None (timers_set v) (set_isSpeaking true v),
   [speechStart]).

(** The callback of the silence timer. *)
Definition silence_fires (v : VoiceActivityDetector)
  : VoiceActivityDetector * list event :=
  (set_timers None (speechTimer v) (timers_set v) (set_isSpeaking false v),
   [speechEnd]).

Definition tick (ms : N) (t : timeout) : timeout :=
  {| remaining := remaining t - ms; rank := rank t |}.

Definition due (ms : N) (t : option timeout) : bool :=
  match t with Some x => remaining x <=? ms | None => false end.

(** The speech timer fires before the silence timer. *)
Definition speech_first (speech silence : timeout) : bool :=
  (remaining speech <? remaining silence)
  || ((remaining speech =? remaining silence)
      && (rank speech <? rank silence)%nat).

(** [ms] milliseconds pass: the timers that come due fire, in order. *)
Definition elapse (ms : N) (v : VoiceActivityDetector)
  : VoiceActivityDetector * list event :=
  match due ms (speechTimer v), due ms (silenceTimer v) with
  | false, false =>
      (set_timers (option_map (tick ms) (silenceTimer v))
         (option_map (tick ms) (speechTimer v)) (timers_set v) v, [])
  | true, false =>
      let r := speech_fires v in
      (set_timers (option_map (tick ms) (silenceTimer (fst r)))
         (speechTimer (fst r)) (timers_set v) (fst r), snd r)
  | false, true =>
      let r := silence_fires v in
      (set_timers (silenceTimer (fst r))
         (option_map (tick ms) (speechTimer (fst r))) (timers_set v) (fst r),
       snd r)
  | true, true =>
      match speechTimer v, silenceTimer v with
      | Some sp, Some si =>
          if speech_first sp si then
            let r1 := speech_fires v in
            let r2 := silence_fires (fst r1) in
            (fst r2, snd r1 ++ snd r2)
          else
            let r1 := silence_fires v in
            let r2 := speech_fires (fst r1) in
            (fst r2, snd r1 ++ snd r2)
      | _, _ => (v, [])
      end
  end.

(** reset *)
Definition reset (v : VoiceActivityDetector)
  : VoiceActivityDetector * list event :=
  (set_timers None None (timers_set v)
     (set_previousEnergy 0 (set_isSpeaking false v)),
   [reset_]).

(** forceStart and forceStop *)
Definition forceStart (v : VoiceActivityDetector)
  : VoiceActivityDetector * list event :=
  (set_isSpeaking true v, [speechStart]).

Definition forceStop (v : VoiceActivityDetector)
  : VoiceActivityDetector * list event :=
  (set_isSpeaking false v, [speechEnd]).

(** getConfig *)
Definition getConfig (v : VoiceActivityDetector) : VadConfig :=
  {| cfg_energyThreshold := Some (energyThreshold v);
     cfg_silenceThreshold := Some (silenceThreshold v);
     cfg_silenceTimeout := Some (silenceTimeout v);
     cfg_speechTimeout := Some (speechTimeout v);
     cfg_noiseFloor := Some (noiseFloor v) |}.

(** updateConfig: only the fields that are defined are written. *)
Definition updateConfig (config : VadConfig) (v : VoiceActivityDetector)
  : VoiceActivityDetector * list event :=
  let v' :=
    {| energyThreshold :=
         match cfg_energyThreshold config with
         | Some x => x | None => energyThreshold v end;
       silenceThreshold :=
         match cfg_silenceThreshold config with
         | Some x => x | None => silenceThreshold v end;
       silenceTimeout :=
         match cfg_silenceTimeout config with
         | Some x => x | None => silenceTimeout v end;
       speechTimeout :=
         match cfg_speechTimeout config with
         | Some x => x | None => speechTimeout v end;
       silenceTimer := silenceTimer v;
       speechTimer := speechTimer v;
       isSpeaking := isSpeaking v;
       smoothingFactor := smoothingFactor v;
       previousEnergy := previousEnergy v;
       noiseFloor := noiseFloor v;
       isCalibrating := isCalibrating v;
       timers_set := timers_set v |} in
  (v', [configUpdated (getConfig v')]).

(** What happens to a detector. *)
Inductive input :=
| Frame (energy : Q)        (* detectSpeech on an energy *)
| Monitor (energy : Q)      (* a turn of monitor on a raw energy *)
| Wait (ms : N).            (* time passes *)

Definition react (v : VoiceActivityDetector) (i : input)
  : VoiceActivityDetector * list event :=
  match i with
  | Frame energy => (detectSpeech energy v, [])
  | Monitor energy => monitor energy v
  | Wait ms => elapse ms v
  end.

(** The time a list of inputs takes. *)
Definition total_wait (l : list input) : N :=
  fold_right (fun i total => match i with Wait ms => ms + total | _ => total end)
    0 l.

(** At most one timer is pending, and it is the one that fits the state. *)
Definition one_timer (v : VoiceActivityDetector) : Prop :=
  (speechTimer v <> None -> isSpeaking v = false /\ silenceTimer v = None)
  /\ (silenceTimer v <> None -> isSpeaking v = true /\ speechTimer v = None).

(** Inputs that do not report an energy below [threshold]. *)
Definition not_quiet (threshold : Q) (i : input) : Prop :=
  match i with
  | Frame e => (threshold <= e)%Q
  | Monitor _ => False
  | Wait _ => True
  end.

(** Inputs whose energy does not exceed [threshold]. *)
Definition calm (threshold : Q) (i : input) : Prop :=
  match i with
  | Frame e | Monitor e => (e <= threshold)%Q
  | Wait _ => True
  end.

(** Energies given straight to detectSpeech, and waiting. *)
Definition direct (i : input) : Prop :=
  match i with Monitor _ => False | _ => True end.

Definition is_speech_event (e : event) : bool :=
  match e with speechStart | speechEnd => true | _ => false end.

Fixpoint reacts (v : VoiceActivityDetector) (l : list input)
  : VoiceActivityDetector * list event :=
  match l with
  | [] => (v, [])
  | i :: l' =>
      let r := react v i in
      let r' := reacts (fst r) l' in
      (fst r', snd r ++ snd r')
  end.

(** speechStart and speechEnd take turns, and the last one agrees with
    [speaking]. *)
Fixpoint alternates (speaking : bool) (es : list event) : bool :=
  match es with
  | [] => true
  | speechStart :: rest => negb speaking && alternates true rest
  | speechEnd :: rest => speaking && alternates false rest
  | _ :: rest => alternates speaking rest
  end.

(** The state [alternates] ends in. *)
Fixpoint speaking_after (speaking : bool) (es : list event) : bool :=
  match es with
  | [] => speaking
  | speechStart :: rest => speaking_after true rest
  | speechEnd :: rest => speaking_after false rest
  | _ :: rest => speaking_after speaking rest
  end.

End Detector.

Module DetectorScenario.

Import Detector.

(** A detector with the default thresholds that has confirmed speech and
    then seen one frame of silence: it is speaking, and the silence timer
    runs with 1500 ms left. *)
Definition dipped : VoiceActivityDetector :=
  fst (reacts (new_detector no_config)
         [Frame (1 # 2); Wait 300; Frame 0]).

(** Speech goes on after the dip, for a second and a half. *)
Definition speech_goes_on : list input :=
  [Frame (1 # 2); Wait 500; Frame (1 # 2); Wait 500; Frame (1 # 2); Wait 500].

(** A burst of 200 ms. *)
Definition burst : list input :=
  [Frame (1 # 2); Wait 100; Frame (1 # 2); Wait 100].

(** Speech held for 300 ms, with energies in the band between the two
    thresholds in between. *)
Definition held : list input :=
  [Wait 100; Frame (15 # 1000); Wait 100; Frame (1 # 2); Wait 100].

End DetectorScenario.

(* ================================================================== *)
(** ** RealtimeVoiceAgent: the choice of the chat model *)

Module ModelName.

Import Text String.
Local Open Scope string_scope.

Definition gpt_4o : jsstring := Scenario.lit "gpt-4o".
Definition gpt_4_turbo : jsstring := Scenario.lit "gpt-4-turbo".
Definition gpt_4 : jsstring := Scenario.lit "gpt-4".
Definition gpt_3_5_turbo : jsstring := Scenario.lit "gpt-3.5-turbo".
Definition llama3_8b_8192 : jsstring := Scenario.lit "llama3-8b-8192".
Definition llama3_70b_8192 : jsstring := Scenario.lit "llama3-70b-8192".
Definition llama_3_1_8b_instant : jsstring := Scenario.lit "llama-3.1-8b-instant".
Definition gemma2_9b_it : jsstring := Scenario.lit "gemma2-9b-it".

(** A model that is on neither list. *)
Definition mixtral_8x7b_32768 : jsstring := Scenario.lit "mixtral-8x7b-32768".

End ModelName.

Module VoiceAgent.

Import Text ModelName.

(** [config.llmProvider] *)
Inductive llmProvider := openai | groq | mixed.

(** The two chat clients. *)
Inductive client := OpenAI | Groq.

(** The fields of the configuration that decide where a chat request goes;
    [model] is optional. *)
Record VoiceAgentConfig := {
  config_llmProvider : llmProvider;
  model : option jsstring
}.

Definition set_model (m : option jsstring) (c : VoiceAgentConfig)
  : VoiceAgentConfig :=
  {| config_llmProvider := config_llmProvider c; model := m |}.

(** WORKING_MODELS *)
Definition WORKING_MODELS (provider : client) : list jsstring :=
  match provider with
  | OpenAI => [gpt_4o; gpt_4_turbo; gpt_4; gpt_3_5_turbo]
  | Groq => [llama3_8b_8192; llama3_70b_8192; llama_3_1_8b_instant;
             gemma2_9b_it]
  end.

(** [a === b] on strings. *)
Fixpoint same (a b : jsstring) : bool :=
  match a, b with
  | [], [] => true
  | x :: a', y :: b' => (x =? y)%N && same a' b'
  | _, _ => false
  end.

(** [Array.prototype.includes] *)
Definition includes (l : list jsstring) (x : jsstring) : bool :=
  existsb (same x) l.

(** [config.model || ''] *)
Definition model_or_empty (c : VoiceAgentConfig) : jsstring :=
  match model c with
  | Some m => m
  | None => []
  end.

(** The constructor: "Set default models". *)
Definition new_agent (config : VoiceAgentConfig) : VoiceAgentConfig :=
  if truthy (model_or_empty config) then config
  else
    match config_llmProvider config with
    | openai => set_model (Some gpt_3_5_turbo) config
    | _ => set_model (Some llama3_70b_8192) config
    end.

(** The [model] of the request of generateOpenAIResponse. *)
Definition openaiModel (c : VoiceAgentConfig) : option jsstring :=
  if includes (WORKING_MODELS OpenAI) (model_or_empty c) then model c
  else Some gpt_3_5_turbo.

(** The [model] of the request of generateGroqResponse. *)
Definition groqModel (c : VoiceAgentConfig) : option jsstring :=
  if includes (WORKING_MODELS Groq) (model_or_empty c) then model c
  else Some llama3_70b_8192.

Definition is_groq (p : llmProvider) : bool :=
  match p with groq => true | _ => false end.

Definition is_mixed (p : llmProvider) : bool :=
  match p with mixed => true | _ => false end.

(** generateResponse: the client the request goes to and its [model]. *)
Definition generateResponse (c : VoiceAgentConfig) (input : jsstring)
  : client * option jsstring :=
  if is_groq (config_llmProvider c)
     || (is_mixed (config_llmProvider c) && (length input <? 50)%nat)
  then (Groq, groqModel c)
  else (OpenAI, openaiModel c).

(** The properties of [updates] that are present. *)
Record updates := {
  updates_llmProvider : option llmProvider;
  updates_model : option jsstring
}.

(** [{ ...this.config, ...updates }] *)
Definition merge (u : updates) (c : VoiceAgentConfig) : VoiceAgentConfig :=
  {| config_llmProvider :=
       match updates_llmProvider u with
       | Some p => p
       | None => config_llmProvider c
       end;
     model :=
       match updates_model u with
       | Some m => Some m
       | None => model c
       end |}.

(** The list updateConfig validates against. *)
Definition provider (c : VoiceAgentConfig) : client :=
  match config_llmProvider c with
  | mixed => OpenAI
  | openai => OpenAI
  | groq => Groq
  end.

(** updateConfig *)
Definition updateConfig (u : updates) (c : VoiceAgentConfig)
  : VoiceAgentConfig :=
  let c' := merge u c in
  match updates_model u with
  | Some m =>
      if truthy m then
        if includes (WORKING_MODELS (provider c')) m then c'
        else set_model (nth_error (WORKING_MODELS (provider c')) 0) c'
      else c'
  | None => c'
  end.

End VoiceAgent.

Module ModelScenario.

Import VoiceAgent.

(** The configuration of createMultilingualAgent: mixed, no model given. *)
Definition multilingual : VoiceAgentConfig :=
  new_agent {| config_llmProvider := mixed; model := None |}.

(** A model that is on no list. *)
Definition unknown : updates :=
  {| updates_llmProvider := None;
     updates_model := Some ModelName.mixtral_8x7b_32768 |}.

End ModelScenario.

(* ================================================================== *)
(** * Properties *)

Import Text Audio Agent.
Local Open Scope agent_scope.

Unset Implicit Arguments.

(** ** Text preparation for synthesis *)

Section TextFacts.

Lemma ends_with_snoc (cls : N -> bool) (s : jsstring) (c : N) :
  ends_with cls (s ++ [c]) = cls c.
Proof. unfold ends_with. rewrite rev_app_distr. reflexivity. Qed.

Lemma pdf_not_terminal : is_terminal_arabic PDF = false.
Proof. reflexivity. Qed.

Lemma wrapped_never_terminal (cls : N -> bool) (s : jsstring) :
  cls PDF = false -> ends_with cls (RLE :: s ++ [PDF]) = false.
Proof.
  intro H. change (RLE :: s ++ [PDF]) with ((RLE :: s) ++ [PDF]).
  rewrite ends_with_snoc. exact H.
Qed.

(** Whatever the text ends in, streamTTS adds a full stop after the closing
    mark of an Arabic text. *)
Lemma tts_input_arabic (text : jsstring) :
  test arabicPattern text = true ->
  tts_input text = RLE :: normalize text ++ [PDF; FULL_STOP].
Proof.
  intro H. unfold tts_input. rewrite H. cbv zeta.
  rewrite wrapped_never_terminal by reflexivity. cbn [negb].
  cbn [app]. rewrite <- app_assoc. reflexivity.
Qed.

Lemma tts_input_latin (text : jsstring) :
  test arabicPattern text = false -> tts_input text = text.
Proof. intro H. unfold tts_input. rewrite H. reflexivity. Qed.

(** processArabicText has the same shape. *)
Lemma processArabicText_shape (text : jsstring) :
  processArabicText text = RLE :: normalize text ++ [PDF; FULL_STOP].
Proof.
  unfold processArabicText. cbv zeta.
  rewrite wrapped_never_terminal by reflexivity. cbn [negb app].
  rewrite <- app_assoc. reflexivity.
Qed.

(** The model on small inputs. *)

Example trim_example :
  trim ([0x20; 0x09] ++ Scenario.hi ++ [0x20; 0x0A]) = Scenario.hi.
Proof. reflexivity. Qed.

Example normalize_example :
  normalize ([0x20; 0x61; 0x20; 0x09; 0x20; 0x202B; 0x62; 0x0A])
  = [0x61; 0x20; 0x62].
Proof. reflexivity. Qed.

Example sentence_break_example :
  has_sentence_break (Scenario.hello ++ [0x20]) = true
  /\ has_sentence_break Scenario.hello = false.
Proof. split; reflexivity. Qed.

(** detectLanguage counts at most one Arabic code unit: a word of five
    Arabic letters is not detected as Arabic, a word of three is. *)
Example detectLanguage_example :
  detectLanguage Scenario.marhaban = en
  /\ detectLanguage (firstn 3 Scenario.marhaban) = ar.
Proof. split; reflexivity. Qed.

Example energy_example :
  is_speaking Scenario.silent_frame = false
  /\ is_speaking Scenario.loud_frame = true
  /\ is_speaking [] = false.
Proof. repeat split; vm_compute; reflexivity. Qed.

Example convertToWav_example :
  length (convertToWav Scenario.pcm) = 50%nat
  /\ firstn 8 (convertToWav Scenario.pcm)
     = [0x52; 0x49; 0x46; 0x46; 42; 0; 0; 0]
  /\ isWebM [0x1A; 0x45; 0xDF; 0xA3; 0x01] = true
  /\ isWebM [0x1A; 0x45; 0xDF; 0xA3] = false.
Proof. repeat split; vm_compute; reflexivity. Qed.

End TextFacts.

(** C8 (the code departs from the claim).  The text U+0645 U+0631 U+062D
    U+0628 U+0627 followed by a full stop already ends in terminal
    punctuation, yet the string streamTTS hands to the speech service, and
    the one processArabicText returns, is the text between U+202B and U+202C
    followed by a second full stop: the test for terminal punctuation looks
    at the string after the closing mark has been appended. *)
Theorem C8_full_stop_added_after_closing_mark :
  ends_with is_terminal_tts Scenario.marhaban_stop = true
  /\ normalize Scenario.marhaban_stop = Scenario.marhaban_stop
  /\ tts_input Scenario.marhaban_stop
     = [RLE] ++ Scenario.marhaban_stop ++ [PDF] ++ [FULL_STOP]
  /\ processArabicText Scenario.marhaban_stop
     = [RLE] ++ Scenario.marhaban_stop ++ [PDF] ++ [FULL_STOP]
  /\ requests (snd (streamTTS Scenario.marhaban_stop EndOfTry
                      (new_agent Scenario.cfg_buffered)))
     = [Speech nova ([RLE] ++ Scenario.marhaban_stop ++ [PDF; FULL_STOP])
          (85 # 100)].
Proof. repeat split; vm_compute; reflexivity. Qed.

(** ** Voice and speed selection *)

Section VoiceSelection.

Lemma test_arabic_count (text : jsstring) :
  test arabicPattern text = (0 <? Claimed.arabic_count text)%nat.
Proof.
  unfold test, Claimed.arabic_count.
  induction text as [|c r IH]; [reflexivity|].
  cbn [existsb filter]. destruct (arabicPattern c); [reflexivity|exact IH].
Qed.

Lemma after_streamTTS_no_request (k : after_tts) (st : agent) :
  requests (snd (after_streamTTS k st)) = [].
Proof. destruct k; reflexivity. Qed.

End VoiceSelection.

(** C4, as stated, fails: in "hello world " followed by one Arabic letter,
    1 code unit in 13 is Arabic, which is below 30%, and the configured voice
    is alloy at speed 1; streamTTS nevertheless asks for nova at 0.85. *)
Lemma C4_override_below_30_percent :
  Claimed.arabic_count Scenario.mostly_latin = 1%nat
  /\ length Scenario.mostly_latin = 13%nat
  /\ Claimed.arabic_ratio_exceeds_30 Scenario.mostly_latin = false
  /\ ttsVoice Scenario.cfg_buffered = alloy
  /\ ttsSpeed Scenario.cfg_buffered = 1%Q
  /\ requests (snd (streamTTS Scenario.mostly_latin EndOfTry
                      (new_agent Scenario.cfg_buffered)))
     = [Speech nova (tts_input Scenario.mostly_latin) (85 # 100)].
Proof. repeat split; vm_compute; reflexivity. Qed.

(** The speech request of streamTTS. *)
Lemma streamTTS_request (st : agent) (text : jsstring) (k : after_tts) :
  requests (snd (streamTTS text k st)) =
    if truthy (trim text) then
      if (0 <? Claimed.arabic_count text)%nat
      then [Speech nova (tts_input text) (85 # 100)]
      else [Speech (ttsVoice (config st)) text (ttsSpeed (config st))]
    else [].
Proof.
  unfold streamTTS. destruct (truthy (trim text)); cbn [negb].
  - rewrite <- test_arabic_count.
    destruct (test arabicPattern text) eqn:E.
    + reflexivity.
    + cbn. rewrite (tts_input_latin _ E). reflexivity.
  - apply after_streamTTS_no_request.
Qed.

(** C4, amended.  For every text that is not blank, streamTTS sends exactly
    one speech request.  When the text contains at least one Arabic-script
    code unit, whatever their proportion, the request asks for the voice
    nova at speed 0.85, with the wrapped text, whatever voice and speed are
    configured; otherwise it asks for the configured voice and speed, with
    the text unchanged.  So the request is nova at 0.85 under every
    configuration if and only if the text contains an Arabic-script code
    unit.  A blank text is not sent at all. *)
Theorem C4_override_iff_some_arabic (text : jsstring) (k : after_tts) :
  (forall st : agent,
     requests (snd (streamTTS text k st)) =
       if truthy (trim text) then
         if (0 <? Claimed.arabic_count text)%nat
         then [Speech nova (tts_input text) (85 # 100)]
         else [Speech (ttsVoice (config st)) text (ttsSpeed (config st))]
       else [])
  /\ (truthy (trim text) = true ->
      ((0 < Claimed.arabic_count text)%nat
       <-> forall st : agent,
             exists input,
               requests (snd (streamTTS text k st))
               = [Speech nova input (85 # 100)])).
Proof.
  split; [intro st; apply streamTTS_request|].
  intro Ht. split.
  - intros Hpos st. exists (tts_input text). rewrite streamTTS_request, Ht.
    apply Nat.ltb_lt in Hpos. rewrite Hpos. reflexivity.
  - intro H. destruct (H (new_agent Scenario.cfg_buffered)) as [input Hi].
    rewrite streamTTS_request, Ht in Hi.
    destruct (0 <? Claimed.arabic_count text)%nat eqn:E.
    + apply Nat.ltb_lt, E.
    + discriminate Hi.
Qed.

(** A Latin text under a configuration that asks for nova at 0.85 itself:
    the request names nova at 0.85 although nothing is overridden, and the
    text is sent as it is. *)
Example configured_nova_example :
  requests (snd (streamTTS Scenario.hello EndOfTry
                   (new_agent
                      {| llmProvider := groq;
                         llmModel := llmModel Scenario.cfg_buffered;
                         sttProvider := openai;
                         sttModel := sttModel Scenario.cfg_buffered;
                         ttsVoice := nova; ttsSpeed := 85 # 100;
                         streamResponse := false;
                         temperature := 7 # 10;
                         systemPrompt := None |})))
  = [Speech nova Scenario.hello (85 # 100)].
Proof. vm_compute. reflexivity. Qed.

(** ** Calibration of the voice activity detector *)

(** Writes the powers of two of the error bounds as numerals. *)
Ltac numerals :=
  let e := eval vm_compute in (Double.pow2 (-53)) in
  change (Double.pow2 (-53)) with e in *;
  let d := eval vm_compute in (Double.pow2 (-1075)) in
  change (Double.pow2 (-1075)) with d in *;
  let m := eval vm_compute in (Double.pow2 (-1022)) in
  change (Double.pow2 (-1022)) with m in *.

Section DoubleFacts.

Import Double.

Local Open Scope Q_scope.

Lemma pow2_pos (z : Z) : 0 < pow2 z.
Proof. apply Qpower_0_lt. reflexivity. Qed.

Lemma pow2_plus (a b : Z) : pow2 (a + b) == pow2 a * pow2 b.
Proof. apply Qpower_plus. discriminate. Qed.

Lemma pow2_le (a b : Z) : (a <= b)%Z -> pow2 a <= pow2 b.
Proof. intro H. apply Qpower_le_compat_l; [exact H|discriminate]. Qed.

Lemma pow2_lt_inv (a b : Z) : pow2 a < pow2 b -> (a < b)%Z.
Proof. intro H. apply (Qpower_lt_compat_l_inv 2); [exact H|reflexivity]. Qed.

Lemma pow2_inject (n : Z) : (0 <= n)%Z -> inject_Z (2 ^ n) == pow2 n.
Proof. intro H. apply (Zpower_Qpower 2 n H). Qed.

(** The integer chosen is within one half of [t]. *)
Lemma nearest_even_close (t : Q) :
  t - (1 # 2) <= inject_Z (nearest_even t) <= t + (1 # 2).
Proof.
  unfold nearest_even.
  pose proof (Qfloor_le t) as Hlo. pose proof (Qlt_floor t) as Hhi.
  rewrite inject_Z_plus in Hhi. change (inject_Z 1) with 1 in Hhi.
  destruct (Qcompare (t - inject_Z (Qfloor t)) (1 # 2)) eqn:E.
  - apply Qeq_alt in E.
    destruct (Z.even (Qfloor t)); rewrite ?inject_Z_plus;
      change (inject_Z 1) with 1; split; lra.
  - apply Qlt_alt in E. split; lra.
  - apply Qgt_alt in E. rewrite inject_Z_plus.
    change (inject_Z 1) with 1. split; lra.
Qed.

(** [round x] is a multiple of the last place, and the nearest one. *)
Lemma round_grid (x : Q) :
  x - pow2 (exponent x) * (1 # 2) <= round x
  /\ round x <= x + pow2 (exponent x) * (1 # 2).
Proof.
  unfold round.
  pose proof (pow2_pos (exponent x)) as Hp.
  pose proof (nearest_even_close (x / pow2 (exponent x))) as [H1 H2].
  assert (Hx : x == x / pow2 (exponent x) * pow2 (exponent x)).
  { field. intro H. rewrite H in Hp. discriminate. }
  set (n := inject_Z (nearest_even (x / pow2 (exponent x)))) in *.
  set (t := x / pow2 (exponent x)) in *.
  set (p := pow2 (exponent x)) in *.
  split.
  - assert (H : (t - (1 # 2)) * p <= n * p)
      by (apply Qmult_le_compat_r; [exact H1|apply Qlt_le_weak, Hp]).
    lra.
  - assert (H : n * p <= (t + (1 # 2)) * p)
      by (apply Qmult_le_compat_r; [exact H2|apply Qlt_le_weak, Hp]).
    lra.
Qed.

Lemma pow2_succ (a : Z) : pow2 (a + 1) == 2 * pow2 a.
Proof. rewrite pow2_plus. change (pow2 1) with 2. ring. Qed.

Lemma log2_bounds (n : Z) :
  (0 < n)%Z ->
  pow2 (Z.log2 n) <= inject_Z n /\ inject_Z n < 2 * pow2 (Z.log2 n).
Proof.
  intro H. destruct (Z.log2_spec n H) as [H1 H2].
  pose proof (Z.log2_nonneg n) as H0.
  rewrite <- pow2_succ, <- !pow2_inject by lia.
  split; [rewrite <- Zle_Qle; exact H1|rewrite <- Zlt_Qlt].
  replace (Z.log2 n + 1)%Z with (Z.succ (Z.log2 n)) by lia. exact H2.
Qed.

(** [binade] finds the power of two at or below [|x|]. *)
Lemma binade_spec (x : Q) :
  ~ x == 0 ->
  pow2 (binade x) <= Qabs x /\ Qabs x < pow2 (binade x + 1).
Proof.
  intro Hx. unfold binade.
  destruct x as [a b]. cbn [Qnum Qden].
  assert (Ha : (0 < Z.abs a)%Z).
  { assert (a <> 0%Z) by (intro E; apply Hx; subst; reflexivity). lia. }
  destruct (log2_bounds (Z.abs a) Ha) as [P1 P2].
  destruct (log2_bounds (Z.pos b) eq_refl) as [B1 B2].
  assert (HX : Qabs (a # b) * inject_Z (Z.pos b) == inject_Z (Z.abs a)).
  { unfold Qeq. cbn. lia. }
  assert (HD : pow2 (Z.log2 (Z.abs a) - Z.log2 (Z.pos b))
               * pow2 (Z.log2 (Z.pos b)) == pow2 (Z.log2 (Z.abs a))).
  { rewrite <- pow2_plus. apply Qpower_comp; [reflexivity|lia]. }
  pose proof (pow2_pos (Z.log2 (Z.abs a) - Z.log2 (Z.pos b))) as D0.
  pose proof (pow2_pos (Z.log2 (Z.pos b))) as Q0.
  pose proof (Qabs_nonneg (a # b)) as X0.
  set (d := (Z.log2 (Z.abs a) - Z.log2 (Z.pos b))%Z) in *.
  destruct (Qle_bool (pow2 d) (Qabs (a # b))) eqn:E.
  - apply Qle_bool_iff in E. split; [exact E|].
    rewrite pow2_succ.
    generalize dependent (pow2 d). generalize dependent (Qabs (a # b)).
    generalize dependent (pow2 (Z.log2 (Z.pos b))).
    generalize dependent (pow2 (Z.log2 (Z.abs a))).
    generalize dependent (inject_Z (Z.pos b)).
    generalize dependent (inject_Z (Z.abs a)).
    intros. nra.
  - assert (E' : Qabs (a # b) < pow2 d).
    { apply Qnot_le_lt. intro L. apply Qle_bool_iff in L. congruence. }
    replace (d - 1 + 1)%Z with d by lia. split; [|exact E'].
    assert (H2 : pow2 (d - 1) * 2 == pow2 d).
    { pose proof (pow2_succ (d - 1)) as S.
      assert (R : pow2 (d - 1 + 1) == pow2 d)
        by (apply Qpower_comp; [reflexivity|lia]).
      rewrite R in S. rewrite S. ring. }
    pose proof (pow2_pos (d - 1)) as D1.
    generalize dependent (pow2 (d - 1)).
    generalize dependent (pow2 d). generalize dependent (Qabs (a # b)).
    generalize dependent (pow2 (Z.log2 (Z.pos b))).
    generalize dependent (pow2 (Z.log2 (Z.abs a))).
    generalize dependent (inject_Z (Z.pos b)).
    generalize dependent (inject_Z (Z.abs a)).
    intros. nra.
Qed.

Lemma nearest_even_sign (t : Q) :
  (0 <= t -> (0 <= nearest_even t)%Z)
  /\ (t <= 0 -> (nearest_even t <= 0)%Z).
Proof.
  destruct (nearest_even_close t) as [H1 H2]. split; intro H.
  - assert (L : inject_Z (-1) < inject_Z (nearest_even t))
      by (change (inject_Z (-1)) with (-1); lra).
    rewrite <- Zlt_Qlt in L. lia.
  - assert (L : inject_Z (nearest_even t) < inject_Z 1)
      by (change (inject_Z 1) with 1; lra).
    rewrite <- Zlt_Qlt in L. lia.
Qed.

(** Rounding keeps the sign. *)
Lemma round_sign (x : Q) :
  (0 <= x -> 0 <= round x) /\ (x <= 0 -> round x <= 0).
Proof.
  unfold round. pose proof (pow2_pos (exponent x)) as Hp.
  destruct (nearest_even_sign (x / pow2 (exponent x))) as [H1 H2].
  split; intro H.
  - apply Qmult_le_0_compat; [|apply Qlt_le_weak, Hp].
    change 0 with (inject_Z 0). rewrite <- Zle_Qle. apply H1.
    apply Qle_shift_div_l; [exact Hp|lra].
  - assert (L : inject_Z (nearest_even (x / pow2 (exponent x))) <= 0).
    { change 0 with (inject_Z 0). rewrite <- Zle_Qle. apply H2.
      apply Qle_shift_div_r; [exact Hp|lra]. }
    assert (M := Qmult_le_compat_r _ _ _ L (Qlt_le_weak _ _ Hp)). lra.
Qed.

(** From 2^-1022 on, the relative error is at most 2^-53. *)
Lemma round_normal (x : Q) :
  pow2 (-1022) <= Qabs x ->
  x - Qabs x * pow2 (-53) <= round x
  /\ round x <= x + Qabs x * pow2 (-53).
Proof.
  intro H.
  assert (Hx : ~ x == 0).
  { intro E. rewrite E in H. pose proof (pow2_pos (-1022)). cbn in H. lra. }
  destruct (binade_spec x Hx) as [K1 K2].
  assert (Hk : (-1022 < binade x + 1)%Z).
  { apply pow2_lt_inv. eapply Qle_lt_trans; eassumption. }
  destruct (round_grid x) as [G1 G2]. unfold exponent in *.
  rewrite Z.max_l in G1, G2 by lia.
  assert (E : pow2 (binade x - 52) * (1 # 2)
              == pow2 (binade x) * pow2 (-53)).
  { unfold Z.sub. rewrite pow2_plus.
    assert (R : pow2 (- (52)) * (1 # 2) == pow2 (-53)) by reflexivity.
    rewrite <- R. ring. }
  rewrite E in G1, G2.
  assert (M := Qmult_le_compat_r _ _ (pow2 (-53)) K1
                 (Qlt_le_weak _ _ (pow2_pos (-53)))).
  split; lra.
Qed.

(** Below 2^-1022 the spacing is 2^-1074. *)
Lemma round_small (x : Q) :
  Qabs x < pow2 (-1022) ->
  x - pow2 (-1075) <= round x /\ round x <= x + pow2 (-1075).
Proof.
  intro H. pose proof (pow2_pos (-1075)) as Hd.
  destruct (Qeq_dec x 0) as [E|Hx].
  - destruct (round_sign x) as [S1 S2].
    assert (0 <= round x) by (apply S1; lra).
    assert (round x <= 0) by (apply S2; lra).
    split; lra.
  - destruct (binade_spec x Hx) as [K1 _].
    assert (Hk : (binade x < -1022)%Z).
    { apply pow2_lt_inv. eapply Qle_lt_trans; eassumption. }
    destruct (round_grid x) as [G1 G2]. unfold exponent in *.
    rewrite Z.max_r in G1, G2 by lia.
    assert (E : pow2 (-1022 - 52) * (1 # 2) == pow2 (-1075)) by reflexivity.
    rewrite E in G1, G2. split; assumption.
Qed.

(** What rounding can do to a number, by its size. *)
Lemma round_cases (x : Q) :
  (x <= 0 /\ round x <= 0)
  \/ (0 < x /\ x < pow2 (-1022) /\ round x <= x + pow2 (-1075))
  \/ (pow2 (-1022) <= x
      /\ x - x * pow2 (-53) <= round x <= x + x * pow2 (-53)).
Proof.
  destruct (Qlt_le_dec 0 x) as [P|N].
  - right. assert (A : Qabs x == x) by (apply Qabs_pos; lra).
    destruct (Qlt_le_dec x (pow2 (-1022))) as [S|L].
    + left. split; [exact P|]. split; [exact S|].
      apply round_small. rewrite A. exact S.
    + right. split; [exact L|].
      destruct (round_normal x) as [H1 H2]; [rewrite A; exact L|].
      rewrite A in H1, H2. split; assumption.
  - left. split; [exact N|]. apply round_sign, N.
Qed.

(** What [round] returns is a double. *)
Lemma round_is_double (x : Q) : is_double (round x).
Proof.
  exists (nearest_even (x / pow2 (exponent x))), (exponent x).
  split; [|split; [unfold exponent; lia|reflexivity]].
  pose proof (pow2_pos (exponent x)) as Hp.
  destruct (nearest_even_close (x / pow2 (exponent x))) as [N1 N2].
  assert (T : - inject_Z (2 ^ 53) < x / pow2 (exponent x)
              /\ x / pow2 (exponent x) < inject_Z (2 ^ 53)).
  { destruct (Qeq_dec x 0) as [E|Hx].
    - assert (Z0 : x / pow2 (exponent x) == 0).
      { revert Hp. generalize (pow2 (exponent x)). intros p Hp.
        rewrite E. field. lra. }
      rewrite Z0. split; reflexivity.
    - destruct (binade_spec x Hx) as [_ K].
      apply Qabs_Qlt_condition in K. destruct K as [K1 K2].
      assert (L : pow2 (binade x - 52) <= pow2 (exponent x))
        by (apply pow2_le; unfold exponent; lia).
      assert (S : pow2 (binade x + 1)
                  == pow2 (binade x - 52) * inject_Z (2 ^ 53)).
      { rewrite pow2_inject by lia. rewrite <- pow2_plus.
        apply Qpower_comp; [reflexivity|lia]. }
      rewrite S in K1, K2.
      assert (M := Qmult_le_compat_r _ _ (inject_Z (2 ^ 53)) L
                     ltac:(discriminate)).
      split.
      + apply Qlt_shift_div_l; [exact Hp|]. lra.
      + apply Qlt_shift_div_r; [exact Hp|]. lra. }
  destruct T as [T1 T2].
  assert (U : inject_Z (nearest_even (x / pow2 (exponent x)))
              < inject_Z (2 ^ 53 + 1)).
  { rewrite inject_Z_plus. change (inject_Z 1) with 1. lra. }
  assert (V : inject_Z (- (2 ^ 53 + 1))
              < inject_Z (nearest_even (x / pow2 (exponent x)))).
  { rewrite inject_Z_opp, inject_Z_plus. change (inject_Z 1) with 1. lra. }
  rewrite <- Zlt_Qlt in U, V. lia.
Qed.

Lemma Qmax2_is_double (a b : Q) :
  is_double a -> is_double b -> is_double (Qmax2 a b).
Proof. intros Ha Hb. unfold Qmax2. destruct (Qle_bool a b); assumption. Qed.

(** Math.max on two rounded numbers is within a relative 2^-53 of the
    maximum of the exact ones, when the second is not tiny. *)
Lemma max_of_rounded (a b : Q) :
  pow2 (-1022) <= b ->
  Qabs (Qmax2 (round a) (round b) - Qmax a b) <= Qmax a b * pow2 (-53).
Proof.
  intro Hb. apply Qabs_Qle_condition. unfold Qmax2.
  destruct (Qle_bool (round a) (round b)) eqn:E.
  - apply Qle_bool_iff in E.
    destruct (Qlt_le_dec b a) as [L|L].
    + rewrite (Q.max_l a b) by lra.
      destruct (round_cases a) as [[A1 A2]|[(A1 & A2 & A3)|[A1 A2]]];
        destruct (round_cases b) as [[B1 B2]|[(B1 & B2 & B3)|[B1 B2]]];
        numerals; split; lra.
    + rewrite (Q.max_r a b) by lra.
      destruct (round_cases b) as [[B1 B2]|[(B1 & B2 & B3)|[B1 B2]]];
        numerals; split; lra.
  - assert (E' : round b < round a).
    { apply Qnot_le_lt. intro L. apply Qle_bool_iff in L. congruence. }
    destruct (Qlt_le_dec b a) as [L|L].
    + rewrite (Q.max_l a b) by lra.
      destruct (round_cases a) as [[A1 A2]|[(A1 & A2 & A3)|[A1 A2]]];
        numerals; split; lra.
    + rewrite (Q.max_r a b) by lra.
      destruct (round_cases a) as [[A1 A2]|[(A1 & A2 & A3)|[A1 A2]]];
        destruct (round_cases b) as [[B1 B2]|[(B1 & B2 & B3)|[B1 B2]]];
        numerals; split; lra.
Qed.

(** The products the thresholds are made of: 0.05 * 2 is exact, 0.05 * 1.5
    is not, and is stored as 0.07500000000000001. *)
Example mul_example :
  mul (round (5 # 100)) 2 == round (1 # 10)
  /\ mul (round (5 # 100)) (15 # 10) == 1351079888211149 # 18014398509481984
  /\ round (75 # 1000) == 5404319552844595 # 72057594037927936
  /\ ~ mul (round (5 # 100)) (15 # 10) == round (75 # 1000).
Proof. repeat split; vm_compute; congruence. Qed.

End DoubleFacts.

Section Calibration.

Import Vad.
Local Open Scope Q_scope.

Lemma Qle_bool_false (x y : Q) : Qle_bool x y = false -> y <= x.
Proof.
  intro H. destruct (Qlt_le_dec y x) as [L|L].
  - apply Qlt_le_weak, L.
  - apply Qle_bool_iff in L. congruence.
Qed.

Lemma insert_perm (x : Q) (l : list Q) : Permutation (insert x l) (x :: l).
Proof.
  induction l as [|y t IH]; cbn [insert].
  - apply Permutation_refl.
  - destruct (Qle_bool x y).
    + apply Permutation_refl.
    + eapply perm_trans; [apply perm_skip, IH | apply perm_swap].
Qed.

Lemma sort_perm (l : list Q) : Permutation (sort l) l.
Proof.
  induction l as [|x t IH]; cbn [sort].
  - constructor.
  - eapply perm_trans; [apply insert_perm | apply perm_skip, IH].
Qed.

Lemma insert_sorted (x : Q) (l : list Q) :
  StronglySorted Qle l -> StronglySorted Qle (insert x l).
Proof.
  induction 1 as [|y t Ht IH Hy]; cbn [insert].
  - repeat constructor.
  - destruct (Qle_bool x y) eqn:E.
    + apply Qle_bool_iff in E. constructor.
      * constructor; assumption.
      * constructor; [exact E|].
        eapply Forall_impl; [|exact Hy].
        intros z Hz. eapply Qle_trans; eassumption.
    + apply Qle_bool_false in E. constructor; [exact IH|].
      eapply Permutation_Forall.
      * apply Permutation_sym, insert_perm.
      * constructor; assumption.
Qed.

Lemma sort_sorted (l : list Q) : StronglySorted Qle (sort l).
Proof.
  induction l as [|x t IH]; cbn [sort].
  - constructor.
  - apply insert_sorted, IH.
Qed.

Lemma sort_length (l : list Q) : length (sort l) = length l.
Proof. apply Permutation_length, sort_perm. Qed.

Lemma percentile_index_in_range (n : nat) :
  (0 < n)%nat -> (percentile_index n < n)%nat.
Proof.
  intro H. unfold percentile_index.
  apply Nat.Div0.div_lt_upper_bound. lia.
Qed.

(** In a sorted list, an earlier position holds a smaller sample. *)
Lemma sorted_nth_le (l : list Q) :
  StronglySorted Qle l ->
  forall i j, (i <= j)%nat -> (j < length l)%nat -> nth i l 0 <= nth j l 0.
Proof.
  induction 1 as [|x t Ht IH Hx]; intros i j Hij Hj; cbn [length] in Hj.
  - lia.
  - destruct i as [|i], j as [|j]; cbn [nth]; try lia.
    + apply Qle_refl.
    + rewrite Forall_forall in Hx. apply Hx, nth_In. lia.
    + apply IH; lia.
Qed.

Lemma filter_length_perm (p : Q -> bool) (l l' : list Q) :
  Permutation l l' -> length (filter p l) = length (filter p l').
Proof.
  induction 1 as [|x l l' _ IH|x y l|l l' l'' _ IH1 _ IH2]; cbn [filter].
  - reflexivity.
  - destruct (p x); cbn [length]; congruence.
  - destruct (p x), (p y); reflexivity.
  - congruence.
Qed.

Lemma filter_length_prefix (p : Q -> bool) (l : list Q) (k : nat) :
  (k <= length l)%nat ->
  (forall i, (i < k)%nat -> p (nth i l 0) = true) ->
  (k <= length (filter p l))%nat.
Proof.
  revert k. induction l as [|x t IH]; intros k Hk Hp; cbn [length] in Hk.
  - lia.
  - destruct k as [|k]; [lia|]. cbn [filter].
    pose proof (Hp 0%nat ltac:(lia)) as H0. cbn [nth] in H0.
    rewrite H0. cbn [length].
    apply le_n_S, IH; [lia|]. intros i Hi. apply (Hp (S i)). lia.
Qed.

Lemma filter_length_suffix (p : Q -> bool) (l : list Q) (k : nat) :
  (forall i, (k <= i)%nat -> (i < length l)%nat -> p (nth i l 0) = true) ->
  (length l - k <= length (filter p l))%nat.
Proof.
  revert k. induction l as [|x t IH]; intros k Hp; cbn [length].
  - lia.
  - destruct k as [|k].
    + cbn [filter].
      pose proof (Hp 0%nat ltac:(lia) ltac:(cbn [length]; lia)) as H0.
      cbn [nth] in H0. rewrite H0. cbn [length].
      specialize (IH 0%nat). rewrite Nat.sub_0_r in *.
      apply le_n_S, IH. intros i _ Hi. apply (Hp (S i)); cbn [length]; lia.
    + cbn [filter]. specialize (IH k).
      assert (length t - k <= length (filter p t))%nat as H.
      { apply IH. intros i H1 H2. apply (Hp (S i)); cbn [length]; lia. }
      destruct (p x); cbn [length]; lia.
Qed.

Lemma calibrate_samples (es : list Q) (v : VoiceActivityDetector) :
  let w := fold_left (fun v e => calibrate_sample e v) es v in
  calibrationSamples w = calibrationSamples v ++ es
  /\ energyThreshold w = energyThreshold v
  /\ silenceThreshold w = silenceThreshold v
  /\ noiseFloor w = noiseFloor v
  /\ isCalibrating w = isCalibrating v.
Proof.
  revert v. induction es as [|e es IH]; intro v; cbn [fold_left].
  - cbv zeta. rewrite app_nil_r. repeat split; reflexivity.
  - destruct (IH (calibrate_sample e v)) as (H1 & H2 & H3 & H4 & H5).
    cbv zeta. rewrite H1, H2, H3, H4, H5. cbn.
    rewrite <- app_assoc. repeat split; reflexivity.
Qed.

Lemma Qmax2_is_max (a b : Q) : Qmax2 a b == Qmax a b.
Proof.
  unfold Qmax2. destruct (Qle_bool a b) eqn:E.
  - apply Qle_bool_iff in E. symmetry. apply Q.max_r, E.
  - apply Qle_bool_false in E. symmetry. apply Q.max_l, E.
Qed.

(** Four samples, written as the doubles nearest to 0.05, 0.01, 0.03 and
    0.02: the noise floor is the largest, and the silence threshold is the
    rounded product 0.07500000000000001. *)
Example calibrate_example :
  let samples := map Double.round [5 # 100; 1 # 100; 3 # 100; 2 # 100] in
  let r := calibrate samples new_detector in
  sort samples = map Double.round [1 # 100; 2 # 100; 3 # 100; 5 # 100]
  /\ percentile_index 4 = 3%nat
  /\ noiseFloor (fst r) = Double.round (5 # 100)
  /\ energyThreshold (fst r) == Double.round (1 # 10)
  /\ silenceThreshold (fst r) == 1351079888211149 # 18014398509481984
  /\ ~ silenceThreshold (fst r) == Double.round (75 # 1000).
Proof. repeat split; vm_compute; congruence. Qed.

(** A quiet room: the thresholds stay at their floors. *)
Example calibrate_quiet_example :
  let r := calibrate (map Double.round [1 # 1000; 2 # 1000]) new_detector in
  noiseFloor (fst r) = Double.round (2 # 1000)
  /\ energyThreshold (fst r) = Double.round (2 # 100)
  /\ silenceThreshold (fst r) = Double.round (1 # 100).
Proof. repeat split; vm_compute; reflexivity. Qed.

(** Without samples nothing changes and nothing is emitted. *)
Example calibrate_empty_example (v : VoiceActivityDetector) :
  snd (calibrate [] v) = None
  /\ noiseFloor (fst (calibrate [] v)) = noiseFloor v
  /\ energyThreshold (fst (calibrate [] v)) = energyThreshold v
  /\ silenceThreshold (fst (calibrate [] v)) = silenceThreshold v.
Proof. repeat split; reflexivity. Qed.

End Calibration.

(** C10.  After a calibration window in which at least one energy sample
    was collected, the noise floor is the sample at position
    floor(0.75 * n) of the samples sorted in ascending order, so more than
    three quarters of the n samples are at most the noise floor and at
    least a quarter of them are at least the noise floor.  The energy
    threshold is Math.max(noiseFloor * 2, 0.02) and the silence threshold
    Math.max(noiseFloor * 1.5, 0.01), with the products and the literals
    as double arithmetic has them: each threshold is a double within a
    relative 2^-53 of the exact max(2 * noiseFloor, 0.02) and
    max(1.5 * noiseFloor, 0.01).  The calibrated event carries the three
    values. *)
Theorem C10_calibration_thresholds
    (v : Vad.VoiceActivityDetector) (e : Q) (es : list Q) :
  let samples := e :: es in
  let n := length samples in
  let v' := fst (Vad.calibrate samples v) in
  let sorted := Vad.sort samples in
  let nf := Vad.noiseFloor v' in
  let at_most := length (filter (fun x => Qle_bool x nf) samples) in
  let at_least := length (filter (fun x => Qle_bool nf x) samples) in
  StronglySorted Qle sorted
  /\ Permutation sorted samples
  /\ (4 * Vad.percentile_index n <= 3 * n < 4 * (Vad.percentile_index n + 1))%nat
  /\ (Vad.percentile_index n < n)%nat
  /\ nf = nth (Vad.percentile_index n) sorted 0%Q
  /\ In nf samples
  /\ (Vad.percentile_index n + 1 <= at_most)%nat
  /\ (n - Vad.percentile_index n <= at_least)%nat
  /\ (3 * n < 4 * at_most)%nat
  /\ (n <= 4 * at_least)%nat
  /\ Vad.energyThreshold v'
     = Qmax2 (Double.mul nf 2) (Double.round (2 # 100))
  /\ Vad.silenceThreshold v'
     = Qmax2 (Double.mul nf (15 # 10)) (Double.round (1 # 100))
  /\ Double.is_double (Vad.energyThreshold v')
  /\ Double.is_double (Vad.silenceThreshold v')
  /\ (Qabs (Vad.energyThreshold v' - Qmax (2 * nf) (2 # 100))
      <= Qmax (2 * nf) (2 # 100) * Double.pow2 (-53))%Q
  /\ (Qabs (Vad.silenceThreshold v' - Qmax ((3 # 2) * nf) (1 # 100))
      <= Qmax ((3 # 2) * nf) (1 # 100) * Double.pow2 (-53))%Q
  /\ Vad.isCalibrating v' = false
  /\ snd (Vad.calibrate samples v)
     = Some {| Vad.ev_noiseFloor := nf;
               Vad.ev_energyThreshold := Vad.energyThreshold v';
               Vad.ev_silenceThreshold := Vad.silenceThreshold v' |}.
Proof.
  intros samples n v' sorted nf at_most at_least.
  assert (Hpin : (4 * Vad.percentile_index n <= 3 * n
                  < 4 * (Vad.percentile_index n + 1))%nat).
  { unfold Vad.percentile_index.
    pose proof (Nat.div_mod_eq (n * 3) 4) as D.
    pose proof (Nat.mod_upper_bound (n * 3) 4) as M. lia. }
  assert (Hidx : (Vad.percentile_index n < n)%nat).
  { apply percentile_index_in_range. subst n samples. cbn [length]. lia. }
  assert (Hlen : length sorted = n) by apply sort_length.
  assert (Hsorted : StronglySorted Qle sorted) by apply sort_sorted.
  assert (Hperm : Permutation sorted samples) by apply sort_perm.
  assert (Hnf : nf = nth (Vad.percentile_index n) sorted 0%Q).
  { subst nf v'. unfold Vad.calibrate, Vad.calibrate_end, Vad.calculateNoiseFloor.
    destruct (calibrate_samples samples (Vad.calibrate_begin v)) as (H1 & _).
    cbv zeta in H1. rewrite H1. cbn [Vad.calibrate_begin Vad.calibrationSamples app].
    subst samples. cbn [fst Vad.noiseFloor]. fold sorted. rewrite Hlen. reflexivity. }
  assert (Hthr : Vad.energyThreshold v'
                 = Qmax2 (Double.mul nf 2) (Double.round (2 # 100))
                 /\ Vad.silenceThreshold v'
                    = Qmax2 (Double.mul nf (15 # 10)) (Double.round (1 # 100))
                 /\ Vad.isCalibrating v' = false
                 /\ snd (Vad.calibrate samples v)
                    = Some {| Vad.ev_noiseFloor := nf;
                              Vad.ev_energyThreshold := Vad.energyThreshold v';
                              Vad.ev_silenceThreshold := Vad.silenceThreshold v' |}).
  { subst nf v'. unfold Vad.calibrate, Vad.calibrate_end, Vad.calculateNoiseFloor.
    destruct (calibrate_samples samples (Vad.calibrate_begin v)) as (H1 & _).
    cbv zeta in H1. rewrite H1. cbn [Vad.calibrate_begin Vad.calibrationSamples app].
    subst samples.
    cbn [fst snd Vad.energyThreshold Vad.silenceThreshold Vad.noiseFloor
         Vad.isCalibrating].
    repeat split; reflexivity. }
  destruct Hthr as (He & Hs & Hc & Hev).
  assert (Hmost : (Vad.percentile_index n + 1 <= at_most)%nat).
  { subst at_most. rewrite <- (filter_length_perm _ _ _ Hperm).
    apply filter_length_prefix; [lia|].
    intros i Hi. apply Qle_bool_iff. rewrite Hnf.
    apply sorted_nth_le; [exact Hsorted|lia|lia]. }
  assert (Hleast : (n - Vad.percentile_index n <= at_least)%nat).
  { subst at_least. rewrite <- (filter_length_perm _ _ _ Hperm).
    rewrite <- Hlen. apply filter_length_suffix.
    intros i H1 H2. rewrite Hlen in H1. apply Qle_bool_iff. rewrite Hnf.
    apply sorted_nth_le; [exact Hsorted|lia|lia]. }
  split; [exact Hsorted|]. split; [exact Hperm|]. split; [exact Hpin|].
  split; [exact Hidx|]. split; [exact Hnf|].
  split; [rewrite Hnf; eapply Permutation_in; [exact Hperm|];
          apply nth_In; lia|].
  split; [exact Hmost|]. split; [exact Hleast|].
  split; [lia|]. split; [lia|].
  split; [exact He|]. split; [exact Hs|].
  split; [rewrite He; apply Qmax2_is_double; apply round_is_double|].
  split; [rewrite Hs; apply Qmax2_is_double; apply round_is_double|].
  split.
  { rewrite He. unfold Double.mul.
    assert (R : (Qmax (2 * nf) (2 # 100) == Qmax (nf * 2) (2 # 100))%Q).
    { apply Q.max_compat; [ring|reflexivity]. }
    rewrite R. apply max_of_rounded. vm_compute. discriminate. }
  split.
  { rewrite Hs. unfold Double.mul.
    assert (R : (Qmax ((3 # 2) * nf) (1 # 100)
                 == Qmax (nf * (15 # 10)) (1 # 100))%Q).
    { apply Q.max_compat; [ring|reflexivity]. }
    rewrite R. apply max_of_rounded. vm_compute. discriminate. }
  split; [exact Hc|exact Hev].
Qed.

(** ** Speech to text *)

Section SpeechToText.

Variables (st : agent) (c : caller) (audioData : bytes).

Let f := transcription_file audioData.

Lemma after_speechToText_None :
  after_speechToText c None st
  = (None, set_isProcessing false (set_isProcessing false st),
     match c with
     | fromAudioFile => [Emit (error_ NoSpeechDetected)]
     | fromBufferedAudio => []
     end).
Proof. destruct c; reflexivity. Qed.

Lemma speechToText_groq :
  sttProvider (config st) = groq ->
  speechToText c audioData st
  = (Some (AwaitGroqSTT c audioData), st, [Call (GroqTranscription f)]).
Proof. intro H. unfold speechToText, bind, get. cbn. rewrite H. reflexivity. Qed.

Lemma speechToText_openai :
  sttProvider (config st) = openai ->
  speechToText c audioData st
  = (Some (AwaitOpenAISTT c), st, [Call (OpenAITranscription f)]).
Proof. intro H. unfold speechToText, bind, get. cbn. rewrite H. reflexivity. Qed.

End SpeechToText.

(** C7, as stated, fails: with OpenAI configured as the speech-to-text
    backend, a failed transcription is not retried anywhere.  One
    transcription request is made, and the failure is reported. *)
Lemma C7_openai_failure_has_no_fallback :
  sttProvider Scenario.cfg_buffered = openai
  /\ option_map (fun s => (requests (trace s), events (trace s), active s))
       (steps (boot Scenario.cfg_buffered)
          [CallProcessAudioFile Scenario.pcm; Settle 0 (Rejected 503)])
     = Some ([OpenAITranscription (WavFile (convertToWav Scenario.pcm))],
             [error_ SpeechRecognitionFailed; error_ NoSpeechDetected],
             0%nat).
Proof. split; vm_compute; reflexivity. Qed.

(** C7, amended.  When Groq is the configured speech-to-text backend and its
    call fails, the same audio is sent exactly once to OpenAI; if that call
    fails too the failure is reported and nothing more is requested.  When
    OpenAI is the configured backend and its call fails, the failure is
    reported at once: there is no fallback and no retry. *)
Theorem C7_single_fallback_from_groq_only
    (st : agent) (c : caller) (audioData : bytes) (e1 e2 : failure) :
  let f := transcription_file audioData in
  let surfaced :=
    Emit (error_ SpeechRecognitionFailed)
    :: match c with
       | fromAudioFile => [Emit (error_ NoSpeechDetected)]
       | fromBufferedAudio => []
       end in
  (sttProvider (config st) = groq ->
     run (speechToText c audioData) [Rejected e1] st
     = Some (Some (AwaitOpenAISTT c), st,
             [Call (GroqTranscription f); Call (OpenAITranscription f)])
     /\ exists st',
          run (speechToText c audioData) [Rejected e1; Rejected e2] st
          = Some (None, st',
                  [Call (GroqTranscription f); Call (OpenAITranscription f)]
                  ++ surfaced))
  /\ (sttProvider (config st) = openai ->
        exists st',
          run (speechToText c audioData) [Rejected e1] st
          = Some (None, st', Call (OpenAITranscription f) :: surfaced)).
Proof.
  intros f surfaced. split; intro H.
  - unfold run. rewrite (speechToText_groq _ _ _ H). split.
    + reflexivity.
    + eexists. cbn. rewrite after_speechToText_None. cbn.
      destruct c; reflexivity.
  - unfold run. rewrite (speechToText_openai _ _ _ H).
    eexists. cbn. rewrite after_speechToText_None. cbn.
    destruct c; reflexivity.
Qed.

(** Both branches of C7 on concrete agents. *)
Lemma C7_single_fallback_witness :
  sttProvider (config (new_agent Scenario.cfg_groq_stt)) = groq
  /\ sttProvider (config (new_agent Scenario.cfg_buffered)) = openai
  /\ run (speechToText fromAudioFile Scenario.pcm) [Rejected 1]
       (new_agent Scenario.cfg_groq_stt)
     = Some (Some (AwaitOpenAISTT fromAudioFile),
             new_agent Scenario.cfg_groq_stt,
             [Call (GroqTranscription (transcription_file Scenario.pcm));
              Call (OpenAITranscription (transcription_file Scenario.pcm))])
  /\ (exists st',
        run (speechToText fromAudioFile Scenario.pcm) [Rejected 1]
          (new_agent Scenario.cfg_buffered)
        = Some (None, st',
                [Call (OpenAITranscription (transcription_file Scenario.pcm));
                 Emit (error_ SpeechRecognitionFailed);
                 Emit (error_ NoSpeechDetected)])).
Proof.
  pose proof (C7_single_fallback_from_groq_only
                (new_agent Scenario.cfg_groq_stt) fromAudioFile Scenario.pcm 1 2) as Hg.
  pose proof (C7_single_fallback_from_groq_only
                (new_agent Scenario.cfg_buffered) fromAudioFile Scenario.pcm 1 2) as Ho.
  cbv zeta in Hg, Ho.
  destruct Hg as [Hg _]. destruct Ho as [_ Ho].
  split; [reflexivity|]. split; [reflexivity|].
  split.
  - exact (proj1 (Hg eq_refl)).
  - exact (Ho eq_refl).
Defined.

(** ** An empty transcript *)

(** For comparison, the run processBufferedAudio starts ends silently on an
    empty transcript: no notification is emitted on that path. *)
Lemma processBufferedAudio_empty_transcript_is_silent
    (st : agent) (text : jsstring) :
  trim text = [] ->
  exists st',
    drive (Some (AwaitOpenAISTT fromBufferedAudio)) [Transcribed text] st
    = Some (None, st', [])
    /\ isProcessing st' = false
    /\ conversationHistory st' = conversationHistory st.
Proof.
  intro H. cbn. rewrite H. cbn. eexists. repeat split.
Qed.

(** C6, as stated, fails for the runs the microphone starts: a silent
    frame, a second of silence and a transcription that answers with blank
    text.  The run is over and the agent idle again, but no notification
    was emitted; the transcription request is all there is in the trace. *)
Lemma C6_microphone_run_ends_silently :
  exists s',
    steps MicScenario.quiet_room [Settle 0 (Transcribed [0x20; 0x0A])]
    = Some s'
    /\ length (requests (trace MicScenario.quiet_room)) = 1%nat
    /\ events (trace s') = []
    /\ requests (trace s') = requests (trace MicScenario.quiet_room)
    /\ active s' = 0%nat
    /\ isProcessing (this s') = false.
Proof. eexists. vm_compute. repeat split. Qed.

(** C6, amended.  When the transcription call answers with an empty or
    blank text, what the run does depends on where it was started.  A run
    of processAudioFile emits exactly one event, the error "No speech
    detected"; a run of processBufferedAudio, started from the microphone
    frames, emits nothing at all.  Either way the run is over: the agent is
    idle again, the conversation history is untouched, no chat or speech
    request was made, and no transcript, response, audio or complete event
    was emitted. *)
Theorem C6_empty_transcript_by_entry_point
    (st : agent) (audioData : bytes) (text : jsstring) :
  isProcessing st = false ->
  trim text = [] ->
  (exists st',
     run (processAudioFile audioData) [Transcribed text] st
     = Some (None, st',
             [Call (first_transcription (config st) audioData);
              Emit (error_ NoSpeechDetected)])
     /\ isProcessing st' = false
     /\ conversationHistory st' = conversationHistory st
     /\ audioBuffer st' = audioBuffer st
     /\ config st' = config st)
  /\ (audioBuffer st <> [] ->
      exists st',
        run processBufferedAudio [Transcribed text] st
        = Some (None, st',
                [Call (first_transcription (config st)
                         (float32ToWav
                            (mergeAudioBuffers (audioBuffer st))))])
        /\ isProcessing st' = false
        /\ conversationHistory st' = conversationHistory st
        /\ audioBuffer st' = []
        /\ config st' = config st).
Proof.
  intros Hidle Hblank. split.
  - unfold run, processAudioFile, first_transcription, bind, get. cbn.
    rewrite Hidle. cbn. unfold speechToText, bind, get. cbn.
    destruct (sttProvider (config st)); cbn; rewrite Hblank; cbn;
      eexists; (split; [reflexivity|]); cbn; repeat split; reflexivity.
  - intro Hbuf.
    unfold run, processBufferedAudio, speechToText, first_transcription,
      bind, get. cbn. rewrite Hidle.
    destruct (audioBuffer st) as [|x t] eqn:E; [congruence|]. cbn.
    destruct (sttProvider (config st)); cbn; rewrite Hblank; cbn;
      eexists; (split; [reflexivity|]); cbn; repeat split; reflexivity.
Qed.

(** Both entry points on an agent that holds one frame of silence, with a
    transcription that answers with two spaces and a line feed. *)
Lemma C6_empty_transcript_by_entry_point_witness :
  (exists st',
     run (processAudioFile Scenario.pcm) [Transcribed [0x20; 0x20; 0x0A]]
       (set_audioBuffer [MicScenario.hush] (new_agent Scenario.cfg_buffered))
     = Some (None, st',
             [Call (first_transcription Scenario.cfg_buffered Scenario.pcm);
              Emit (error_ NoSpeechDetected)])
     /\ isProcessing st' = false
     /\ conversationHistory st' = []
     /\ audioBuffer st' = [MicScenario.hush]
     /\ config st' = Scenario.cfg_buffered)
  /\ (exists st',
        run processBufferedAudio [Transcribed [0x20; 0x20; 0x0A]]
          (set_audioBuffer [MicScenario.hush]
             (new_agent Scenario.cfg_buffered))
        = Some (None, st',
                [Call (first_transcription Scenario.cfg_buffered
                         (float32ToWav
                            (mergeAudioBuffers [MicScenario.hush])))])
        /\ isProcessing st' = false
        /\ conversationHistory st' = []
        /\ audioBuffer st' = []
        /\ config st' = Scenario.cfg_buffered).
Proof.
  destruct (C6_empty_transcript_by_entry_point
              (set_audioBuffer [MicScenario.hush]
                 (new_agent Scenario.cfg_buffered))
              Scenario.pcm [0x20; 0x20; 0x0A] eq_refl eq_refl) as [H1 H2].
  split; [exact H1|]. apply H2. discriminate.
Defined.

(** ** Runs, the busy flag and interrupt *)

Ltac red_agent :=
  cbv beta iota zeta delta
    [fst snd config conversationHistory isProcessing audioBuffer silenceTimer
     detectedLanguage set_config set_conversationHistory set_isProcessing
     set_audioBuffer set_silenceTimer set_detectedLanguage negb orb andb
     or_empty];
  cbn [app].

(** Case analysis on the tests of the methods, those on the text first. *)
Ltac split_tests :=
  repeat (red_agent;
          match goal with
          | |- context [truthy ?x] => destruct (truthy x) eqn:?
          | |- context [has_sentence_break ?x] =>
              destruct (has_sentence_break x) eqn:?
          | |- context [test arabicPattern ?x] =>
              destruct (test arabicPattern x) eqn:?
          | |- context [streamResponse ?c] => destruct (streamResponse c) eqn:?
          | |- context [Nat.ltb ?a ?b] => destruct (Nat.ltb a b) eqn:?
          end).

Ltac unfold_methods :=
  unfold getLLMResponse_return, stream_chunk, stream_end, speechToText_return,
    speechToText_catch, after_speechToText, openaiSTT, groqSTT, catch_,
    streamLLMResponse, getLLMResponse, streamTTS, after_streamTTS, chat,
    finally_, push_turn, bind, get, modify, emit, call, ret.

Section RunFacts.

(** What a suspended run does next depends on the agent only through its
    configuration and its conversation history. *)
Lemma resume_same_inputs (p : pending) (r : reply) (m : M (option pending))
    (a b : agent) :
  resume p r = Some m ->
  same_inputs a b ->
  fst (fst (m a)) = fst (fst (m b))
  /\ snd (m a) = snd (m b)
  /\ same_inputs (snd (fst (m a))) (snd (fst (m b))).
Proof.
  intros Hm [Hc Hh]. destruct a as [ca ha pa ba ta la], b as [cb hb pb bb tb lb].
  cbn in Hc, Hh. subst cb hb. unfold same_inputs.
  destruct p as [c ad|c|c tr| |full buf|text k], r; cbn in Hm;
    try discriminate; injection Hm as <-;
    try destruct c; try destruct k;
    try match goal with o : option jsstring |- _ => destruct o end;
    unfold_methods; split_tests; red_agent; repeat split; reflexivity.
Qed.

Lemma drive_same_inputs (rs : list reply) :
  forall (p : option pending) (a b : agent),
    same_inputs a b ->
    match drive p rs a, drive p rs b with
    | Some (pa, a', ta), Some (pb, b', tb) =>
        pa = pb /\ ta = tb /\ same_inputs a' b'
    | None, None => True
    | _, _ => False
    end.
Proof.
  induction rs as [|r rs IH]; intros p a b Hab; cbn [drive].
  - auto.
  - destruct p as [p|]; [|exact I].
    destruct (resume p r) as [m|] eqn:Hm; [|exact I].
    destruct (resume_same_inputs _ _ _ _ _ Hm Hab) as (Hp & Ht & Hs).
    rewrite Hp, Ht. specialize (IH (fst (fst (m b))) _ _ Hs).
    destruct (drive (fst (fst (m b))) rs (snd (fst (m a)))) as [[[pa a'] ta]|],
             (drive (fst (fst (m b))) rs (snd (fst (m b)))) as [[[pb b'] tb]|];
      try contradiction; auto.
    destruct IH as (-> & -> & Hs'). auto.
Qed.

(** A run that goes on leaves the busy flag alone; a run that ends clears
    it. *)
Lemma resume_flag (p : pending) (r : reply) (m : M (option pending))
    (st : agent) :
  resume p r = Some m ->
  match fst (fst (m st)) with
  | Some _ => isProcessing (snd (fst (m st))) = isProcessing st
  | None => isProcessing (snd (fst (m st))) = false
  end.
Proof.
  intro Hm.
  destruct p as [c ad|c|c tr| |full buf|text k], r; cbn in Hm;
    try discriminate; injection Hm as <-;
    try destruct c; try destruct k;
    try match goal with o : option jsstring |- _ => destruct o end;
    unfold_methods; split_tests; red_agent; reflexivity.
Qed.

Lemma interrupt_busy (st : agent) :
  isProcessing st = true ->
  interrupt st
  = (tt, set_audioBuffer [] (set_isProcessing false st), [Emit interrupted_]).
Proof. intro H. unfold interrupt, bind, get. cbn. rewrite H. reflexivity. Qed.

Lemma interrupt_idle (st : agent) :
  isProcessing st = false -> interrupt st = (tt, st, []).
Proof. intro H. unfold interrupt, bind, get. cbn. rewrite H. reflexivity. Qed.

Lemma processAudioFile_busy (audioData : bytes) (st : agent) :
  isProcessing st = true -> processAudioFile audioData st = (None, st, []).
Proof.
  intro H. unfold processAudioFile, bind, get. cbn. rewrite H. reflexivity.
Qed.

Lemma processBufferedAudio_busy (st : agent) :
  isProcessing st = true -> processBufferedAudio st = (None, st, []).
Proof.
  intro H. unfold processBufferedAudio, bind, get. cbn. rewrite H. reflexivity.
Qed.

Lemma processAudioFile_idle (audioData : bytes) (st : agent) :
  isProcessing st = false ->
  exists p,
    processAudioFile audioData st
    = (Some p, set_isProcessing true st,
       [Call (first_transcription (config st) audioData)]).
Proof.
  intro H. unfold processAudioFile, speechToText, first_transcription, bind, get.
  cbn. rewrite H. cbn. destruct (sttProvider (config st)); eexists; reflexivity.
Qed.

Lemma processBufferedAudio_idle (st : agent) :
  isProcessing st = false ->
  audioBuffer st <> [] ->
  exists p,
    processBufferedAudio st
    = (Some p, set_audioBuffer [] (set_isProcessing true st),
       [Call (first_transcription (config st)
                (float32ToWav (mergeAudioBuffers (audioBuffer st))))]).
Proof.
  intros H Hb. unfold processBufferedAudio, speechToText, first_transcription,
    bind, get. cbn. rewrite H.
  destruct (audioBuffer st) as [|x t] eqn:E; [congruence|]. cbn.
  destruct (sttProvider (config st)); eexists; reflexivity.
Qed.

Lemma processBufferedAudio_empty (st : agent) :
  audioBuffer st = [] -> processBufferedAudio st = (None, st, []).
Proof.
  intro H. unfold processBufferedAudio, bind, get. cbn. rewrite H.
  rewrite orb_true_r. reflexivity.
Qed.

Lemma processContinuousAudio_flag (frame : samples) (st : agent) :
  isProcessing (snd (fst (processContinuousAudio frame st))) = isProcessing st
  /\ snd (processContinuousAudio frame st) = [].
Proof.
  unfold processContinuousAudio, bind, get, modify, ret. cbn.
  destruct (is_speaking frame), (silenceTimer st); cbn; auto.
  destruct (audioBuffer st ++ [frame]); cbn; auto.
Qed.

(** *** Counting the runs under way *)

Lemma active_app (s : system) (l1 l2 : list (option pending)) :
  length (filter is_active (l1 ++ l2))
  = (length (filter is_active l1) + length (filter is_active l2))%nat.
Proof. rewrite filter_app, length_app. reflexivity. Qed.

Lemma active_replace (i : nat) (p : pending) (q : option pending) :
  forall l : list (option pending),
    nth_error l i = Some (Some p) ->
    length (filter is_active (replace_nth i q l))
    = (length (filter is_active l) - 1 + if is_active q then 1 else 0)%nat.
Proof.
  induction i as [|i IH]; intros [|h t] H; cbn in H; try discriminate.
  - injection H as ->. cbn. destruct q; cbn; lia.
  - cbn [replace_nth filter]. specialize (IH t H).
    assert (1 <= length (filter is_active t))%nat.
    { clear IH. revert i H. induction t as [|x t IHt]; intros [|i] H;
        cbn in H; try discriminate.
      - injection H as ->. cbn. lia.
      - cbn. specialize (IHt i H). destruct (is_active x); cbn; lia. }
    destruct (is_active h); cbn [length]; lia.
Qed.

Lemma active_positive (i : nat) (p : pending) :
  forall l : list (option pending),
    nth_error l i = Some (Some p) -> (1 <= length (filter is_active l))%nat.
Proof.
  induction i as [|i IH]; intros [|h t] H; cbn in H; try discriminate.
  - injection H as ->. cbn. lia.
  - cbn. specialize (IH t H). destruct (is_active h); cbn; lia.
Qed.

(** Every step other than a call of interrupt keeps [single_flight]. *)
Lemma step_single_flight (s s' : system) (a : action) :
  is_interrupt a = false ->
  single_flight s ->
  step s a = Some s' ->
  single_flight s'.
Proof.
  unfold single_flight, active. intros Ha Hs Hstep.
  destruct a as [ad|frame|ms| | |merged|i r]; cbn in Ha; try discriminate;
    cbn [step] in Hstep.
  - (* processAudioFile *)
    injection Hstep as <-. unfold start.
    destruct (isProcessing (this s)) eqn:E.
    + rewrite (processAudioFile_busy ad _ E). cbn. rewrite E. exact Hs.
    + destruct (processAudioFile_idle ad _ E) as [p ->]. cbn.
      rewrite active_app by exact s. rewrite Hs. reflexivity.
  - (* processContinuousAudio *)
    injection Hstep as <-. unfold exec. cbn [this runs].
    rewrite (proj1 (processContinuousAudio_flag frame (this s))). exact Hs.
  - (* time passes *)
    destruct (silenceTimer (this s)) as [[remaining|]|] eqn:Et;
      [|injection Hstep as <-; exact Hs|injection Hstep as <-; exact Hs].
    destruct (remaining <=? ms).
    + injection Hstep as <-. unfold start, bind, modify. cbn [fst snd this runs].
      destruct (isProcessing (this s)) eqn:E.
      * rewrite processBufferedAudio_busy by exact E. cbn. rewrite E. exact Hs.
      * destruct (audioBuffer (this s)) as [|x t] eqn:Eb.
        -- rewrite processBufferedAudio_empty by exact Eb. cbn. rewrite E.
           exact Hs.
        -- destruct (processBufferedAudio_idle
                       (set_silenceTimer (Some Fired) (this s))) as [p ->];
             [exact E|cbn; congruence|].
           cbn. rewrite active_app by exact s. rewrite Hs. reflexivity.
    + injection Hstep as <-. exact Hs.
  - (* clearHistory *)
    injection Hstep as <-. exact Hs.
  - (* updateConfig *)
    injection Hstep as <-. exact Hs.
  - (* a call settles *)
    destruct (nth_error (runs s) i) as [[p|]|] eqn:En; try discriminate.
    destruct (resume p r) as [m|] eqn:Hm; try discriminate.
    injection Hstep as <-. cbn [this runs].
    rewrite (active_replace _ _ _ _ En).
    pose proof (active_positive _ _ _ En) as Hpos.
    pose proof (resume_flag _ _ _ (this s) Hm) as Hf.
    destruct (isProcessing (this s)); [|lia].
    destruct (fst (fst (m (this s)))); rewrite Hf, Hs; reflexivity.
Qed.

Lemma steps_single_flight (l : list action) :
  forall s s' : system,
    forallb (fun a => negb (is_interrupt a)) l = true ->
    single_flight s ->
    steps s l = Some s' ->
    single_flight s'.
Proof.
  induction l as [|a l IH]; intros s s' Hl Hs Hsteps; cbn in Hsteps, Hl.
  - injection Hsteps as <-. exact Hs.
  - apply andb_prop in Hl as [Ha Hl]. apply negb_true_iff in Ha.
    destruct (step s a) as [s1|] eqn:E; [|discriminate].
    exact (IH s1 s' Hl (step_single_flight _ _ _ Ha Hs E) Hsteps).
Qed.

End RunFacts.

(** C2, as stated, fails: processAudioFile is interrupted while it waits
    for the chat completion; the interrupted event is emitted, and when the
    completion and then the synthesized audio arrive the run still emits
    response, audio and complete. *)
Lemma C2_audio_and_complete_after_interrupt :
  option_map (fun s => (events (trace s), isProcessing (this s)))
    (steps (boot Scenario.cfg_buffered)
       [CallProcessAudioFile Scenario.pcm;
        Settle 0 (Transcribed Scenario.hi);
        CallInterrupt;
        Settle 0 (Completed (Some Scenario.hello));
        Settle 0 (AudioData Scenario.opus1)])
  = Some ([transcript_ Scenario.hi;
           interrupted_;
           response_ Scenario.hello;
           audio_ Scenario.opus1 Scenario.hello;
           complete_ Scenario.hi Scenario.hello],
          false).
Proof. vm_compute. reflexivity. Qed.

(** C2, amended.  An interrupt issued while a run is in progress
    (isProcessing true) emits exactly one interrupted event, clears the
    buffered audio and sets isProcessing to false, and a second interrupt
    right after it emits nothing.  The run itself is not cancelled: whatever
    replies its outbound calls get afterwards, it makes the same calls and
    emits the same events, audio and complete included, as it would have
    without the interrupt. *)
Theorem C2_interrupt_does_not_cancel
    (s : system) (i : nat) (p : pending) (rs : list reply) :
  isProcessing (this s) = true ->
  nth_error (runs s) i = Some (Some p) ->
  exists s1,
    step s CallInterrupt = Some s1
    /\ trace s1 = trace s ++ [Emit interrupted_]
    /\ audioBuffer (this s1) = []
    /\ isProcessing (this s1) = false
    /\ runs s1 = runs s
    /\ snd (interrupt (this s1)) = []
    /\ match drive (Some p) rs (this s), drive (Some p) rs (this s1) with
       | Some (q, _, t), Some (q1, _, t1) => q1 = q /\ t1 = t
       | None, None => True
       | _, _ => False
       end.
Proof.
  intros Hbusy Hrun. eexists. split; [reflexivity|].
  unfold exec. cbn [this runs trace]. rewrite (interrupt_busy _ Hbusy).
  cbn [fst snd]. repeat split.
  assert (Hsame : same_inputs (this s)
                    (set_audioBuffer [] (set_isProcessing false (this s))))
    by (split; reflexivity).
  pose proof (drive_same_inputs rs (Some p) _ _ Hsame) as H.
  destruct (drive (Some p) rs (this s)) as [[[q a] t]|],
           (drive (Some p) rs
              (set_audioBuffer [] (set_isProcessing false (this s))))
             as [[[q1 a1] t1]|]; try exact H.
  destruct H as (-> & -> & _). split; reflexivity.
Qed.

(** C2 on the run of [Scenario.generating], interrupted while the chat
    completion is awaited. *)
Lemma C2_interrupt_does_not_cancel_witness :
  exists s1,
    step Scenario.generating CallInterrupt = Some s1
    /\ trace s1 = trace Scenario.generating ++ [Emit interrupted_]
    /\ audioBuffer (this s1) = []
    /\ isProcessing (this s1) = false
    /\ runs s1 = runs Scenario.generating
    /\ snd (interrupt (this s1)) = []
    /\ match drive (Some (AwaitCompletion fromAudioFile Scenario.hi))
               [Completed (Some Scenario.hello); AudioData Scenario.opus1]
               (this Scenario.generating),
             drive (Some (AwaitCompletion fromAudioFile Scenario.hi))
               [Completed (Some Scenario.hello); AudioData Scenario.opus1]
               (this s1)
       with
       | Some (q, _, t), Some (q1, _, t1) => q1 = q /\ t1 = t
       | None, None => True
       | _, _ => False
       end.
Proof.
  apply (C2_interrupt_does_not_cancel Scenario.generating 0
           (AwaitCompletion fromAudioFile Scenario.hi)
           [Completed (Some Scenario.hello); AudioData Scenario.opus1]);
    reflexivity.
Defined.

(** C9, as stated, fails: a run is started, interrupt clears isProcessing
    while that run still waits for its transcription, and the next call of
    processAudioFile starts a second run; both are under way and both have
    sent their audio to the transcription service. *)
Lemma C9_second_run_after_interrupt :
  option_map (fun s => (active s, runs s, requests (trace s)))
    (steps (boot Scenario.cfg_buffered)
       [CallProcessAudioFile Scenario.pcm;
        CallInterrupt;
        CallProcessAudioFile Scenario.opus1])
  = Some (2%nat,
          [Some (AwaitOpenAISTT fromAudioFile);
           Some (AwaitOpenAISTT fromAudioFile)],
          [OpenAITranscription (transcription_file Scenario.pcm);
           OpenAITranscription (transcription_file Scenario.opus1)]).
Proof. vm_compute. reflexivity. Qed.

(** C9, amended.  As long as interrupt is not called, at most one run is
    under way at any time, and isProcessing is true exactly while one is.
    A call of processAudioFile, or the silence timer calling
    processBufferedAudio, while isProcessing is true starts no run, makes no
    outbound call, emits nothing and leaves the agent as it is. *)
Theorem C9_single_flight_without_interrupt
    (c : StreamingVoiceConfig) (l : list action) (s : system) :
  forallb (fun a => negb (is_interrupt a)) l = true ->
  steps (boot c) l = Some s ->
  (active s <= 1)%nat
  /\ single_flight s
  /\ (isProcessing (this s) = true ->
      (forall audioData,
          processAudioFile audioData (this s) = (None, this s, [])
          /\ runs (start (processAudioFile audioData) s) = runs s
          /\ trace (start (processAudioFile audioData) s) = trace s)
      /\ processBufferedAudio (this s) = (None, this s, [])
      /\ runs (start processBufferedAudio s) = runs s
      /\ trace (start processBufferedAudio s) = trace s).
Proof.
  intros Hl Hsteps.
  assert (Hsf : single_flight s).
  { apply (steps_single_flight l (boot c) s Hl); [reflexivity|exact Hsteps]. }
  split; [|split; [exact Hsf|]].
  - unfold single_flight in Hsf. rewrite Hsf.
    destruct (isProcessing (this s)); lia.
  - intro Hbusy. split; [intro ad|]; unfold start.
    + rewrite (processAudioFile_busy ad _ Hbusy). cbn.
      rewrite app_nil_r. auto.
    + rewrite (processBufferedAudio_busy _ Hbusy). cbn.
      rewrite app_nil_r. auto.
Qed.

(** C9 on a run that has reached the generation stage. *)
Lemma C9_single_flight_witness :
  (active Scenario.generating <= 1)%nat
  /\ single_flight Scenario.generating
  /\ (isProcessing (this Scenario.generating) = true ->
      (forall audioData,
          processAudioFile audioData (this Scenario.generating)
          = (None, this Scenario.generating, [])
          /\ runs (start (processAudioFile audioData) Scenario.generating)
             = runs Scenario.generating
          /\ trace (start (processAudioFile audioData) Scenario.generating)
             = trace Scenario.generating)
      /\ processBufferedAudio (this Scenario.generating)
         = (None, this Scenario.generating, [])
      /\ runs (start processBufferedAudio Scenario.generating)
         = runs Scenario.generating
      /\ trace (start processBufferedAudio Scenario.generating)
         = trace Scenario.generating).
Proof.
  apply (C9_single_flight_without_interrupt Scenario.cfg_buffered
           [CallProcessAudioFile Scenario.pcm;
            Settle 0 (Transcribed Scenario.hi)]
           Scenario.generating); reflexivity.
Defined.

(** ** The conversation history *)

Section History.

Lemma slice_last_length (A : Type) (n : nat) (l : list A) :
  length (slice_last n l) = Nat.min n (length l).
Proof. unfold slice_last. rewrite length_skipn. lia. Qed.

(** [slice(-n)] drops from the front. *)
Lemma slice_last_suffix (A : Type) (n : nat) (l : list A) :
  firstn (length l - n) l ++ slice_last n l = l.
Proof. unfold slice_last. apply firstn_skipn. Qed.

(** getLLMResponse pushes the assistant turn and then keeps the last 20. *)
Lemma getLLMResponse_return_history
    (c : caller) (transcript : jsstring) (content : option jsstring)
    (st : agent) :
  let h := conversationHistory st
           ++ [{| turn_role := assistant; content := or_empty content |}] in
  conversationHistory
    (snd (fst (getLLMResponse_return c transcript content st)))
  = if (20 <? length h)%nat then slice_last 20 h else h.
Proof.
  destruct c; unfold_methods; split_tests; red_agent; reflexivity.
Qed.

Lemma getLLMResponse_return_bounded
    (c : caller) (transcript : jsstring) (content : option jsstring)
    (st : agent) :
  (length (conversationHistory
             (snd (fst (getLLMResponse_return c transcript content st))))
   <= 20)%nat.
Proof.
  rewrite getLLMResponse_return_history. cbv zeta.
  destruct (Nat.ltb_spec 20
              (length (conversationHistory st
                       ++ [{| turn_role := assistant;
                              content := or_empty content |}]))).
  - rewrite slice_last_length. lia.
  - lia.
Qed.

(** The streaming path pushes the assistant turn and keeps everything. *)
Lemma after_streamTTS_FinishStream_history (fullResponse : jsstring) (st : agent) :
  conversationHistory (snd (fst (after_streamTTS (FinishStream fullResponse) st)))
  = conversationHistory st
    ++ [{| turn_role := assistant; content := fullResponse |}].
Proof. reflexivity. Qed.

End History.

(** C1 (the code departs from the claim).  Eleven utterances in a row, each
    answered through the streaming path (streamResponse is true, the
    default): every run pushes the user turn and the assistant turn and
    nothing ever trims the history, which holds 22 turns when the last run
    is over, the first two still in it. *)
Theorem C1_streaming_history_exceeds_20 :
  streamResponse Scenario.cfg_streaming = true
  /\ option_map
       (fun s => (length (conversationHistory (this s)),
                  firstn 2 (conversationHistory (this s)),
                  active s))
       (steps (boot Scenario.cfg_streaming)
          (flat_map Scenario.utterance (seq 0 11)))
     = Some (22%nat,
             [{| turn_role := user; content := Scenario.hi |};
              {| turn_role := assistant; content := Scenario.hello |}],
             0%nat).
Proof. split; vm_compute; reflexivity. Qed.

(** ** Order of the events of a run *)

Section StreamOrder.

Lemma events_app (t1 t2 : list effect) :
  events (t1 ++ t2) = events t1 ++ events t2.
Proof. unfold events. apply flat_map_app. Qed.

Lemma audio_texts_app (e1 e2 : list event) :
  audio_texts (e1 ++ e2) = audio_texts e1 ++ audio_texts e2.
Proof. unfold audio_texts. apply flat_map_app. Qed.

Lemma subsequence_refl (A : Type) (l : list A) : subsequence l l.
Proof. induction l; constructor; assumption. Qed.

(** The texts handed to streamTTS are consecutive pieces of the response. *)
Lemma flushes_concat (deltas : list (option jsstring)) :
  forall buffer, concat (flushes buffer deltas) = buffer ++ streamed_text deltas.
Proof.
  unfold streamed_text.
  induction deltas as [|d rest IH]; intro buffer; cbn [flushes map concat].
  - destruct buffer; reflexivity.
  - destruct (has_sentence_break (buffer ++ or_empty d)); cbn [concat].
    + rewrite IH. cbn [app]. rewrite app_assoc. reflexivity.
    + rewrite IH, app_assoc. reflexivity.
Qed.

Lemma drive_cons (p : pending) (r : reply) (rs : list reply) (st : agent)
    (q : option pending) (st' : agent) (t : list effect) :
  drive (Some p) (r :: rs) st = Some (q, st', t) ->
  exists m t2,
    resume p r = Some m
    /\ drive (fst (fst (m st))) rs (snd (fst (m st))) = Some (q, st', t2)
    /\ t = snd (m st) ++ t2.
Proof.
  cbn [drive]. destruct (resume p r) as [m|]; [|discriminate].
  destruct (drive (fst (fst (m st))) rs (snd (fst (m st))))
    as [[[q2 st2] t2]|] eqn:E; [|discriminate].
  intro H. injection H as <- <- <-. exists m, t2. auto.
Qed.

Lemma drive_over (rs : list reply) (st : agent)
    (q : option pending) (st' : agent) (t : list effect) :
  drive None rs st = Some (q, st', t) -> rs = [] /\ t = [].
Proof.
  destruct rs; cbn [drive]; [|discriminate].
  intro H. injection H as <- <- <-. auto.
Qed.

(** The end of a streamed response: the remaining buffer is spoken, then
    the response event is emitted. *)
Lemma drive_final_speech (text fullResponse : jsstring) (rs : list reply)
    (st st' : agent) (t : list effect) :
  drive (Some (AwaitSpeech text (FinishStream fullResponse))) rs st
  = Some (None, st', t) ->
  chunk_contents rs = []
  /\ exists es,
       events t = es ++ [response_ fullResponse]
       /\ forallb is_partial_or_audio es = true
       /\ subsequence (audio_texts (events t)) [text].
Proof.
  destruct rs as [|r rs]; [discriminate|].
  intro H. apply drive_cons in H as (m & t2 & Hm & Hd & ->).
  destruct r; try discriminate; cbn in Hm; injection Hm as <-;
    cbn in Hd; apply drive_over in Hd as [-> ->]; cbn.
  - split; [reflexivity|]. eexists [_]. repeat split. repeat constructor.
  - split; [reflexivity|]. exists []. repeat split. repeat constructor.
Qed.

(** What one turn of the loop does, case by case. *)
Lemma stream_chunk_cases (fullResponse buffer : jsstring)
    (delta : option jsstring) (st : agent) :
  let buffer' := buffer ++ or_empty delta in
  let full' := fullResponse ++ or_empty delta in
  exists t,
    events t = [partial_ (or_empty delta)]
    /\ ((has_sentence_break buffer' = false
         /\ stream_chunk fullResponse buffer delta st
            = (Some (AwaitChunk full' buffer'), st, t))
        \/ (has_sentence_break buffer' = true
            /\ stream_chunk fullResponse buffer delta st
               = (Some (AwaitChunk full' []), st, t))
        \/ (has_sentence_break buffer' = true
            /\ stream_chunk fullResponse buffer delta st
               = (Some (AwaitSpeech buffer' (NextChunk full')), st, t))).
Proof.
  cbv zeta. unfold stream_chunk, streamTTS, after_streamTTS, bind, get, emit,
    call, ret. cbv zeta.
  destruct (has_sentence_break (buffer ++ or_empty delta)) eqn:Hb.
  - destruct (truthy (trim (buffer ++ or_empty delta))); cbn.
    + eexists. split; [|right; right; split; reflexivity]. reflexivity.
    + eexists. split; [|right; left; split; reflexivity]. reflexivity.
  - eexists. split; [|left; split; reflexivity]. reflexivity.
Qed.

Lemma stream_end_cases (fullResponse buffer : jsstring) (st : agent) :
  (exists st1,
      stream_end fullResponse buffer st
      = (None, st1, [Emit (response_ fullResponse)]))
  \/ (truthy buffer = true
      /\ exists t,
           events t = []
           /\ stream_end fullResponse buffer st
              = (Some (AwaitSpeech buffer (FinishStream fullResponse)), st, t)).
Proof.
  unfold stream_end, streamTTS, bind, get, call, ret.
  destruct (truthy buffer); [destruct (truthy (trim buffer))|]; cbn.
  - right. split; [reflexivity|]. eexists. split; [|reflexivity]. reflexivity.
  - left. eexists. reflexivity.
  - left. eexists. reflexivity.
Qed.

(** The loop, from the start of an iteration and from inside a call of
    streamTTS: the audio events come in the order of the flushes, and when
    the stream ends normally the response event comes last. *)
Lemma stream_loop (rs : list reply) :
  forall (fullResponse : jsstring) (st st' : agent) (t : list effect),
    (forall buffer,
        drive (Some (AwaitChunk fullResponse buffer)) rs st
        = Some (None, st', t) ->
        subsequence (audio_texts (events t))
          (flushes buffer (chunk_contents rs))
        /\ (In StreamEnd rs ->
            exists es,
              events t
              = es ++ [response_ (fullResponse
                                  ++ streamed_text (chunk_contents rs))]
              /\ forallb is_partial_or_audio es = true))
    /\ (forall text,
           drive (Some (AwaitSpeech text (NextChunk fullResponse))) rs st
           = Some (None, st', t) ->
           subsequence (audio_texts (events t))
             (text :: flushes [] (chunk_contents rs))
           /\ (In StreamEnd rs ->
               exists es,
                 events t
                 = es ++ [response_ (fullResponse
                                     ++ streamed_text (chunk_contents rs))]
                 /\ forallb is_partial_or_audio es = true)).
Proof.
  induction rs as [|r rs IH]; intros full st st' t.
  - split; intros ? H; discriminate.
  - split.
    + (* at the start of an iteration *)
      intros buffer H. apply drive_cons in H as (m & t2 & Hm & Hd & ->).
      destruct r as [x|x| |delta| |a|e]; try discriminate;
        cbn [resume] in Hm; injection Hm as <-.
      * (* a chunk *)
        destruct (stream_chunk_cases full buffer delta st)
          as (t1 & Ht1 & [[Hb E]|[[Hb E]|[Hb E]]]);
          cbv zeta in E, Hb; rewrite E in Hd |- *; cbn [fst snd] in Hd |- *;
          rewrite events_app, Ht1;
          cbn [chunk_contents flat_map app flushes audio_texts];
          fold (chunk_contents rs); fold (audio_texts (events t2));
          rewrite Hb; unfold streamed_text; cbn [map concat];
          fold (streamed_text (chunk_contents rs)); rewrite app_assoc.
        -- destruct (proj1 (IH _ _ _ _) _ Hd) as [Hs Hr]. split; [exact Hs|].
           intros [Hin|Hin]; [discriminate|].
           destruct (Hr Hin) as (es & -> & Hes).
           exists (partial_ (or_empty delta) :: es). split; [reflexivity|].
           exact Hes.
        -- destruct (proj1 (IH _ _ _ _) _ Hd) as [Hs Hr].
           split; [apply sub_skip, Hs|].
           intros [Hin|Hin]; [discriminate|].
           destruct (Hr Hin) as (es & -> & Hes).
           exists (partial_ (or_empty delta) :: es). split; [reflexivity|].
           exact Hes.
        -- destruct (proj2 (IH _ _ _ _) _ Hd) as [Hs Hr]. split; [exact Hs|].
           intros [Hin|Hin]; [discriminate|].
           destruct (Hr Hin) as (es & -> & Hes).
           exists (partial_ (or_empty delta) :: es). split; [reflexivity|].
           exact Hes.
      * (* the stream ends *)
        destruct (stream_end_cases full buffer st)
          as [[st1 E]|[Hb (t1 & Ht1 & E)]]; rewrite E in Hd |- *;
          cbn [fst snd] in Hd |- *.
        -- apply drive_over in Hd as [-> ->].
           cbn. rewrite app_nil_r. split; [constructor|].
           intros _. exists []. split; reflexivity.
        -- apply drive_final_speech in Hd as (Hc & es & Hev & Hes & Hs).
           rewrite events_app, Ht1. cbn [app chunk_contents flat_map].
           fold (chunk_contents rs). rewrite Hc. cbn [flushes].
           rewrite Hb. unfold streamed_text. cbn [map concat].
           rewrite app_nil_r. split; [exact Hs|].
           intros _. exists es. split; assumption.
      * (* the stream fails *)
        cbn in Hd. apply drive_over in Hd as [-> ->]. cbn.
        split; [constructor|]. intros [Hin|[]]. discriminate.
    + (* inside streamTTS *)
      intros text H. apply drive_cons in H as (m & t2 & Hm & Hd & ->).
      destruct r as [x|x| |delta| |a|e]; try discriminate;
        cbn [resume] in Hm; injection Hm as <-;
        cbn in Hd |- *; fold (chunk_contents rs);
        destruct (proj1 (IH _ _ _ _) _ Hd) as [Hs Hr].
      * fold (events t2). fold (audio_texts (events t2)).
        split; [apply sub_take, Hs|].
        intros [Hin|Hin]; [discriminate|].
        destruct (Hr Hin) as (es & -> & Hes).
        exists (audio_ a text :: es). split; [reflexivity|exact Hes].
      * split; [apply sub_skip, Hs|].
        intros [Hin|Hin]; [discriminate|]. exact (Hr Hin).
Qed.

End StreamOrder.

(** C3, as stated, fails: in a streamed run the audio event of a sentence
    is emitted before the response event, which comes last and carries the
    whole text. *)
Lemma C3_audio_before_response_when_streaming :
  option_map (fun s => events (trace s))
    (steps (boot Scenario.cfg_streaming) (Scenario.utterance 0))
  = Some [transcript_ Scenario.hi;
          partial_ Scenario.hello;
          audio_ Scenario.opus1 Scenario.hello;
          response_ Scenario.hello]
  /\ audio_after_response
       [transcript_ Scenario.hi;
        partial_ Scenario.hello;
        audio_ Scenario.opus1 Scenario.hello;
        response_ Scenario.hello]
     = false.
Proof. split; vm_compute; reflexivity. Qed.

(** C3, amended.  In every streamed run that comes to its end, the audio
    events are emitted in the order in which the loop handed their texts to
    synthesis (the texts of the audio events are, in order, among the
    successive flushed buffers, and these are consecutive pieces of the
    response text); when the stream ends normally the response event is
    emitted once, last, after every partial and audio event of the run, and
    carries the whole text.  Only in a run that is not streamed does the
    response event come before the audio event. *)
Theorem C3_audio_in_sentence_order
    (st st' : agent) (input : jsstring) (rs : list reply) (t : list effect) :
  run (streamLLMResponse input) rs st = Some (None, st', t) ->
  let deltas := chunk_contents rs in
  subsequence (audio_texts (events t)) (flushes [] deltas)
  /\ concat (flushes [] deltas) = streamed_text deltas
  /\ (In StreamEnd rs ->
      exists es,
        events t = es ++ [response_ (streamed_text deltas)]
        /\ forallb is_partial_or_audio es = true)
  /\ (forall (c : caller) (response : jsstring) (audioData : bytes),
         truthy (trim response) = true ->
         exists st2 t2,
           run (getLLMResponse c input)
             [Completed (Some response); AudioData audioData] st
           = Some (None, st2, t2)
           /\ events t2
              = response_ response :: audio_ audioData response
                :: match c with
                   | fromAudioFile => [complete_ input response]
                   | fromBufferedAudio => []
                   end).
Proof.
  intro H. cbv zeta. split; [|split; [|split]].
  - unfold run in H. cbn [streamLLMResponse] in H.
    destruct (drive (fst (fst (streamLLMResponse input st))) rs
                (snd (fst (streamLLMResponse input st))))
      as [[[q a] t2]|] eqn:Hd; [|discriminate].
    injection H as -> -> <-. cbn [events flat_map app]. fold (events t2).
    change (fst (fst (streamLLMResponse input st))) with (Some AwaitStream) in Hd.
    destruct rs as [|r rs]; [discriminate|].
    apply drive_cons in Hd as (m & t3 & Hm & Hd & ->).
    destruct r as [x|x| |delta| |a|e]; try discriminate;
      cbn [resume] in Hm; injection Hm as <-; cbn in Hd |- *.
    + fold (chunk_contents rs). fold (events t3). fold (audio_texts (events t3)).
      exact (proj1 (proj1 (stream_loop rs _ _ _ _) _ Hd)).
    + apply drive_over in Hd as [-> ->]. constructor.
  - apply (flushes_concat (chunk_contents rs) []).
  - intro Hin. unfold run in H.
    destruct (drive (fst (fst (streamLLMResponse input st))) rs
                (snd (fst (streamLLMResponse input st))))
      as [[[q a] t2]|] eqn:Hd; [|discriminate].
    injection H as -> -> <-. cbn [events flat_map app]. fold (events t2).
    change (fst (fst (streamLLMResponse input st))) with (Some AwaitStream) in Hd.
    destruct rs as [|r rs]; [discriminate|].
    apply drive_cons in Hd as (m & t3 & Hm & Hd & ->).
    destruct r as [x|x| |delta| |a|e]; try discriminate;
      cbn [resume] in Hm; injection Hm as <-; cbn in Hd |- *.
    + fold (chunk_contents rs). fold (events t3).
      destruct Hin as [Hin|Hin]; [discriminate|].
      exact (proj2 (proj1 (stream_loop rs _ _ _ _) _ Hd) Hin).
    + apply drive_over in Hd as [-> ->]. destruct Hin as [Hin|[]]. discriminate.
  - intros c response audioData Hr.
    unfold run.
    destruct c; unfold_methods; red_agent; cbn [drive resume];
      unfold_methods; red_agent; rewrite Hr; split_tests;
      cbn [drive resume]; unfold_methods; red_agent;
      do 2 eexists; split; reflexivity.
Qed.

(** C3 on "Hello there. How can I help?" streamed in three chunks. *)
Lemma C3_audio_in_sentence_order_witness :
  exists st' t,
    run (streamLLMResponse Scenario.hi) Scenario.two_sentences
      (new_agent Scenario.cfg_streaming)
    = Some (None, st', t)
    /\ audio_texts (events t)
       = flushes [] (chunk_contents Scenario.two_sentences)
    /\ subsequence (audio_texts (events t))
         (flushes [] (chunk_contents Scenario.two_sentences))
    /\ exists es,
         events t
         = es ++ [response_
                    (streamed_text (chunk_contents Scenario.two_sentences))]
         /\ forallb is_partial_or_audio es = true.
Proof.
  eexists. eexists. split; [vm_compute; reflexivity|].
  split; [vm_compute; reflexivity|].
  match goal with
  | |- subsequence (audio_texts (events ?t)) _ /\ _ =>
      pose proof (C3_audio_in_sentence_order
                    (new_agent Scenario.cfg_streaming) _ Scenario.hi
                    Scenario.two_sentences t eq_refl) as H
  end.
  cbv zeta in H. destruct H as (Hs & _ & Hr & _).
  split; [exact Hs|]. apply Hr. vm_compute. tauto.
Defined.

(** ** Silence on the microphone *)

Section Silence.









End Silence.




(* ================================================================== *)
(** * Further properties of the code *)

(** ** WAV encoding *)

Section WavFacts.

Import Wav.

Lemma le_decode_u32le (n : N) : le_decode (u32le n) = n mod 4294967296.
Proof.
  unfold le_decode, u32le. cbn [fold_right].
  replace (n / 65536) with (n / 256 / 256) by (rewrite N.Div0.div_div; reflexivity).
  replace (n / 16777216) with (n / 256 / 256 / 256)
    by (rewrite !N.Div0.div_div; reflexivity).
  pose proof (N.div_mod n 256 ltac:(lia)) as H0.
  pose proof (N.mod_lt n 256 ltac:(lia)) as L0.
  set (q1 := n / 256) in *.
  pose proof (N.div_mod q1 256 ltac:(lia)) as H1.
  pose proof (N.mod_lt q1 256 ltac:(lia)) as L1.
  set (q2 := q1 / 256) in *.
  pose proof (N.div_mod q2 256 ltac:(lia)) as H2.
  pose proof (N.mod_lt q2 256 ltac:(lia)) as L2.
  set (q3 := q2 / 256) in *.
  pose proof (N.div_mod q3 256 ltac:(lia)) as H3.
  pose proof (N.mod_lt q3 256 ltac:(lia)) as L3.
  apply (N.mod_unique n 4294967296 (q3 / 256)); lia.
Qed.

Lemma le_decode_u16le (n : N) : le_decode (u16le n) = n mod 65536.
Proof.
  unfold le_decode, u16le. cbn [fold_right].
  pose proof (N.div_mod n 256 ltac:(lia)) as H0.
  pose proof (N.mod_lt n 256 ltac:(lia)) as L0.
  set (q1 := n / 256) in *.
  pose proof (N.div_mod q1 256 ltac:(lia)) as H1.
  pose proof (N.mod_lt q1 256 ltac:(lia)) as L1.
  apply (N.mod_unique n 65536 (q1 / 256)); lia.
Qed.

Lemma u32le_bytes (n : N) : Forall is_byte (u32le n).
Proof.
  unfold u32le, is_byte.
  repeat constructor; apply N.mod_lt; discriminate.
Qed.

Lemma u16le_bytes (n : N) : Forall is_byte (u16le n).
Proof.
  unfold u16le, is_byte.
  repeat constructor; apply N.mod_lt; discriminate.
Qed.

Lemma wav_header_length (riffLength dataLength : N) :
  length (wav_header riffLength dataLength) = 44%nat.
Proof. reflexivity. Qed.

Lemma wav_header_bytes (riffLength dataLength : N) :
  Forall is_byte (wav_header riffLength dataLength).
Proof.
  unfold wav_header.
  repeat (apply Forall_app; split);
    try apply u32le_bytes; try apply u16le_bytes;
    unfold is_byte; repeat constructor.
Qed.

Lemma flat_map_length_const (A B : Type) (f : A -> list B) (k : nat)
    (l : list A) :
  (forall a, length (f a) = k) -> length (flat_map f l) = (k * length l)%nat.
Proof.
  intro H. induction l as [|a l IH]; cbn [flat_map length]; [lia|].
  rewrite length_app, H, IH. lia.
Qed.

Lemma int16le_length (x : Q) : length (int16le x) = 2%nat.
Proof. reflexivity. Qed.

Lemma int16le_bytes (x : Q) : Forall is_byte (int16le x).
Proof. apply u16le_bytes. Qed.

Lemma Qmax2_ge_l (a b : Q) : (a <= Qmax2 a b)%Q.
Proof.
  unfold Qmax2. destruct (Qle_bool a b) eqn:E.
  - apply Qle_bool_iff, E.
  - apply Qle_refl.
Qed.

Lemma Qmin2_le_l (a b : Q) : (Qmin2 a b <= a)%Q.
Proof.
  unfold Qmin2. destruct (Qle_bool a b) eqn:E.
  - apply Qle_refl.
  - apply Qle_bool_false, E.
Qed.

Lemma clamp_range (s : Q) : (-1 <= clamp s)%Q /\ (clamp s <= 1)%Q.
Proof.
  unfold clamp. split; [apply Qmax2_ge_l|].
  unfold Qmax2. destruct (Qle_bool (-1) (Qmin2 1 s)).
  - apply Qmin2_le_l.
  - discriminate.
Qed.

Lemma clamp_saturates (s : Q) :
  ((1 <= s)%Q -> (clamp s == 1)%Q) /\ ((s <= -1)%Q -> (clamp s == -1)%Q)
  /\ ((-1 <= s)%Q -> (s <= 1)%Q -> (clamp s == s)%Q).
Proof.
  unfold clamp, Qmax2, Qmin2.
  destruct (Qle_bool 1 s) eqn:E1.
  - apply Qle_bool_iff in E1. change (Qle_bool (-1) 1) with true.
    cbv iota. split; [|split].
    + intros _. reflexivity.
    + intro H. exfalso. apply (Qle_not_lt _ _ (Qle_trans _ _ _ E1 H)).
      reflexivity.
    + intros _ H. apply Qle_antisym; assumption.
  - apply Qle_bool_false in E1.
    destruct (Qle_bool (-1) s) eqn:E2.
    + apply Qle_bool_iff in E2. split; [|split].
      * intro H. apply Qle_antisym; assumption.
      * intro H. apply Qle_antisym; assumption.
      * intros _ _. reflexivity.
    + apply Qle_bool_false in E2. split; [|split].
      * intro H. exfalso. apply (Qle_not_lt _ _ (Qle_trans _ _ _ H E2)).
        reflexivity.
      * intros _. reflexivity.
      * intros H _. apply Qle_antisym; assumption.
Qed.

(** [Math.trunc] does not depend on how the fraction is written. *)
Lemma trunc_Qeq (x y : Q) : (x == y)%Q -> trunc x = trunc y.
Proof.
  unfold Qeq, trunc. destruct x as [a b], y as [c d]. cbn [Qnum Qden].
  intro H.
  rewrite <- (Z.quot_mul_cancel_r a (Zpos b) (Zpos d)) by discriminate.
  rewrite H.
  rewrite (Z.mul_comm (Zpos b) (Zpos d)).
  apply Z.quot_mul_cancel_r; discriminate.
Qed.

Lemma trunc_range (x : Q) (k : Z) :
  (0 <= k)%Z -> (inject_Z (- k) <= x)%Q -> (x <= inject_Z k)%Q ->
  (- k <= trunc x <= k)%Z.
Proof.
  unfold Qle, trunc. destruct x as [n d]. cbn [Qnum Qden inject_Z].
  intros Hk Hl Hu. rewrite Z.mul_1_r in Hl, Hu.
  pose proof (Z.quot_rem' n (Zpos d)) as E.
  assert (HD : (0 < Zpos d)%Z) by lia.
  set (D := Zpos d) in *. set (q := Z.quot n D) in *.
  assert (Hr : (- D < Z.rem n D < D)%Z).
  { destruct (Z_le_gt_dec 0 n) as [Hn|Hn].
    - pose proof (Z.rem_bound_pos n D Hn HD). lia.
    - pose proof (Z.rem_bound_pos_neg n D HD ltac:(lia)). lia. }
  assert (Hs : (0 <= n -> 0 <= Z.rem n D)%Z /\ (n <= 0 -> Z.rem n D <= 0)%Z).
  { split; intro Hn.
    - apply Z.rem_nonneg; lia.
    - destruct (Z.eq_dec n 0) as [->|Hne]; [rewrite Z.rem_0_l; lia|].
      pose proof (Z.rem_bound_pos_neg n D HD ltac:(lia)). lia. }
  destruct Hs as [Hs1 Hs2].
  split.
  - apply Z.lt_pred_le. apply (Z.mul_lt_mono_pos_l D); [exact HD|].
    destruct (Z_le_gt_dec 0 n); lia.
  - apply Z.lt_succ_r. apply (Z.mul_lt_mono_pos_l D); [exact HD|].
    destruct (Z_le_gt_dec 0 n); lia.
Qed.

Lemma int16_decode_int16le (x : Q) :
  (-32768 <= trunc x <= 32767)%Z -> int16_decode (int16le x) = trunc x.
Proof.
  intro H. unfold int16_decode, int16le. fold (trunc x).
  rewrite le_decode_u16le.
  pose proof (Z.mod_pos_bound (trunc x) 65536 ltac:(lia)) as Hm.
  rewrite N.mod_small by lia.
  rewrite Z2N.id by lia. cbv zeta.
  destruct (Z_le_gt_dec 0 (trunc x)) as [Hp|Hn].
  - rewrite Z.mod_small by lia.
    destruct (Z.ltb_spec (trunc x) 32768); lia.
  - replace (trunc x mod 65536)%Z with (trunc x + 65536)%Z.
    + destruct (Z.ltb_spec (trunc x + 65536) 32768); lia.
    + apply (Z.mod_unique_pos _ _ (-1)); lia.
Qed.

End WavFacts.

(** X1.  float32ToWav yields 44 + 2 n bytes for n samples, all of them byte
    values: the buffer starts with RIFF, holds WAVE at offset 8, and its two
    length fields (offsets 4 and 40, little endian) read 36 + 2 n and 2 n,
    reduced modulo 2^32; the format fields announce PCM, one channel,
    16000 Hz, 32000 bytes per second, 2 bytes per block, 16 bits. *)
Theorem float32ToWav_layout (buffer : samples) :
  let n := N.of_nat (length buffer) in
  let w := float32ToWav buffer in
  length w = (44 + 2 * length buffer)%nat
  /\ Forall Wav.is_byte w
  /\ Wav.field 0 4 w = RIFF
  /\ Wav.le_decode (Wav.field 4 4 w) = (36 + n * 2) mod 4294967296
  /\ Wav.field 8 4 w = WAVE
  /\ Wav.le_decode (Wav.field 16 4 w) = 16
  /\ Wav.le_decode (Wav.field 20 2 w) = 1
  /\ Wav.le_decode (Wav.field 22 2 w) = 1
  /\ Wav.le_decode (Wav.field 24 4 w) = 16000
  /\ Wav.le_decode (Wav.field 28 4 w) = 32000
  /\ Wav.le_decode (Wav.field 32 2 w) = 2
  /\ Wav.le_decode (Wav.field 34 2 w) = 16
  /\ Wav.le_decode (Wav.field 40 4 w) = (n * 2) mod 4294967296.
Proof.
  cbv zeta. unfold float32ToWav.
  set (n := N.of_nat (length buffer)).
  split; [|split].
  - rewrite length_app, wav_header_length.
    rewrite (flat_map_length_const _ _ _ 2%nat buffer) by (intro; reflexivity). lia.
  - apply Forall_app. split; [apply wav_header_bytes|].
    apply Forall_flat_map, Forall_forall. intros s _. apply int16le_bytes.
  - unfold Wav.field, wav_header. cbn [RIFF WAVE fmt_ data_ u32le u16le app skipn firstn].
    repeat split; try reflexivity.
    + apply (le_decode_u32le (36 + n * 2)).
    + apply (le_decode_u32le (n * 2)).
Qed.

(** X2.  Every sample is written by float32ToWav as the 16-bit integer
    trunc(clamp(s) * 32767), which lies between -32767 and 32767: samples at
    or above 1 give 32767, samples at or below -1 give -32767, and a sample
    in between gives trunc(s * 32767).  The payload after the 44 header
    bytes is the sequence of these integers, two bytes each, in the order of
    the samples. *)
Theorem float32ToWav_samples (buffer : samples) (s : Q) :
  let written := int16le (Qmax2 (-1) (Qmin2 1 s) * 32767) in
  skipn 44 (float32ToWav buffer)
  = flat_map (fun s => int16le (Qmax2 (-1) (Qmin2 1 s) * 32767)) buffer
  /\ Wav.int16_decode written = Wav.trunc (Wav.clamp s * 32767)
  /\ (-32767 <= Wav.int16_decode written <= 32767)%Z
  /\ ((1 <= s)%Q -> Wav.int16_decode written = 32767%Z)
  /\ ((s <= -1)%Q -> Wav.int16_decode written = (-32767)%Z)
  /\ ((-1 <= s)%Q -> (s <= 1)%Q ->
      Wav.int16_decode written = Wav.trunc (s * 32767)).
Proof.
  cbv zeta. fold (Wav.clamp s).
  assert (Hr : (-32767 <= Wav.trunc (Wav.clamp s * 32767) <= 32767)%Z).
  { destruct (clamp_range s) as [Hl Hu].
    apply (trunc_range _ 32767); [lia| |].
    - apply (Qle_trans _ (-1 * 32767)%Q); [discriminate|].
      apply Qmult_le_compat_r; [exact Hl|discriminate].
    - apply (Qle_trans _ (1 * 32767)%Q); [|discriminate].
      apply Qmult_le_compat_r; [exact Hu|discriminate]. }
  assert (Hd : Wav.int16_decode (int16le (Wav.clamp s * 32767))
               = Wav.trunc (Wav.clamp s * 32767)).
  { apply int16_decode_int16le. lia. }
  destruct (clamp_saturates s) as (H1 & H2 & H3).
  split; [reflexivity|]. split; [exact Hd|]. rewrite Hd.
  split; [exact Hr|]. repeat split.
  - intro H. rewrite (trunc_Qeq _ (1 * 32767)); [reflexivity|].
    rewrite (H1 H). reflexivity.
  - intro H. rewrite (trunc_Qeq _ (-1 * 32767)); [reflexivity|].
    rewrite (H2 H). reflexivity.
  - intros Hl Hu. apply trunc_Qeq. rewrite (H3 Hl Hu). reflexivity.
Qed.

(** X3.  convertToWav puts a 44-byte header in front of the audio data and
    leaves the data itself untouched; the header announces data length + 36
    as RIFF length and the data length as payload length (modulo 2^32). *)
Theorem convertToWav_layout (audioData : bytes) :
  let n := N.of_nat (length audioData) in
  let w := convertToWav audioData in
  length w = (44 + length audioData)%nat
  /\ skipn 44 w = audioData
  /\ firstn 44 w = wav_header (n + 36) n
  /\ Wav.field 0 4 w = RIFF
  /\ Wav.le_decode (Wav.field 4 4 w) = (n + 36) mod 4294967296
  /\ Wav.le_decode (Wav.field 40 4 w) = n mod 4294967296
  /\ isWebM w = false.
Proof.
  cbv zeta. unfold convertToWav. cbv zeta.
  set (n := N.of_nat (length audioData)).
  replace (n + 44 - 8) with (n + 36) by lia.
  split; [rewrite length_app, wav_header_length; reflexivity|].
  unfold Wav.field, wav_header.
  cbn [RIFF WAVE fmt_ data_ u32le u16le app skipn firstn].
  repeat split; try reflexivity.
  - apply (le_decode_u32le (n + 36)).
  - apply (le_decode_u32le n).
  - unfold isWebM. cbn [N.eqb]. rewrite andb_false_r. reflexivity.
Qed.

(** X4.  The WebM test accepts exactly the buffers that start with the four
    signature bytes 1A 45 DF A3 and hold at least one more byte. *)
Theorem isWebM_iff (uint8Array : bytes) :
  isWebM uint8Array = true
  <-> exists b rest, uint8Array = [0x1A; 0x45; 0xDF; 0xA3] ++ b :: rest.
Proof.
  unfold isWebM. split.
  - intro H. apply andb_prop in H as [Hlen Hsig].
    destruct uint8Array as [|b0 [|b1 [|b2 [|b3 [|b rest]]]]];
      try discriminate.
    apply andb_prop in Hsig as [Hsig H3]. apply andb_prop in Hsig as [Hsig H2].
    apply andb_prop in Hsig as [H0 H1].
    apply N.eqb_eq in H0, H1, H2, H3. subst. exists b, rest. reflexivity.
  - intros (b & rest & ->). cbn [app length].
    replace (4 <? N.of_nat (S (S (S (S (S (length rest))))))) with true
      by (symmetry; apply N.ltb_lt; lia).
    reflexivity.
Qed.

(** X5.  Audio that comes from the microphone path is wrapped twice:
    float32ToWav already gives a WAV buffer, which is not WebM, so both
    transcription adapters put a second 44-byte header in front of it; the
    file sent has 88 + 2 n bytes and its payload is a whole WAV file. *)
Theorem buffered_audio_is_wrapped_twice (buffer : samples) :
  transcription_file (float32ToWav buffer)
  = WavFile (convertToWav (float32ToWav buffer))
  /\ length (convertToWav (float32ToWav buffer))
     = (88 + 2 * length buffer)%nat
  /\ Wav.field 0 4 (convertToWav (float32ToWav buffer)) = RIFF
  /\ Wav.field 44 4 (convertToWav (float32ToWav buffer)) = RIFF
  /\ skipn 88 (convertToWav (float32ToWav buffer))
     = flat_map (fun s => int16le (Qmax2 (-1) (Qmin2 1 s) * 32767)) buffer.
Proof.
  split; [|split; [|split; [|split]]].
  - unfold transcription_file, isWebM, float32ToWav, wav_header.
    cbn [RIFF app N.eqb]. rewrite andb_false_r. reflexivity.
  - destruct (convertToWav_layout (float32ToWav buffer)) as (H & _).
    destruct (float32ToWav_layout buffer) as (H' & _).
    cbv zeta in H, H'. rewrite H, H'. lia.
  - reflexivity.
  - reflexivity.
  - reflexivity.
Qed.

(** ** Energy of a frame *)

Section EnergyFacts.

Local Open Scope Q_scope.

Lemma sum_squares_le (c : Q) (buffer : samples) :
  forall acc : Q,
    Forall (fun x => x * x <= c) buffer ->
    fold_left (fun sum x => sum + x * x) buffer acc
    <= acc + inject_Z (Z.of_nat (length buffer)) * c.
Proof.
  induction buffer as [|x t IH]; intros acc H; cbn [fold_left length].
  - cbn. rewrite Qmult_0_l, Qplus_0_r. apply Qle_refl.
  - inversion H as [|y l Hx Ht]; subst.
    eapply Qle_trans; [apply IH, Ht|].
    rewrite Nat2Z.inj_succ, <- Z.add_1_r, inject_Z_plus.
    setoid_replace ((inject_Z (Z.of_nat (length t)) + inject_Z 1) * c)
      with (c + inject_Z (Z.of_nat (length t)) * c) by ring.
    rewrite Qplus_assoc.
    apply Qplus_le_compat; [|apply Qle_refl].
    apply Qplus_le_compat; [apply Qle_refl|exact Hx].
Qed.

Lemma sum_squares_gt (c : Q) (buffer : samples) :
  forall acc : Q,
    buffer <> [] ->
    Forall (fun x => c < x * x) buffer ->
    acc + inject_Z (Z.of_nat (length buffer)) * c
    < fold_left (fun sum x => sum + x * x) buffer acc.
Proof.
  induction buffer as [|x t IH]; intros acc Hne H; [congruence|].
  inversion H as [|y l Hx Ht]; subst. cbn [fold_left length].
  rewrite Nat2Z.inj_succ, <- Z.add_1_r, inject_Z_plus.
  setoid_replace (acc + (inject_Z (Z.of_nat (length t)) + inject_Z 1) * c)
    with ((acc + c) + inject_Z (Z.of_nat (length t)) * c) by ring.
  destruct t as [|x' t'].
  - cbn [fold_left length]. cbn. rewrite Qmult_0_l, Qplus_0_r.
    apply Qplus_lt_r. exact Hx.
  - eapply Qlt_trans; [|apply IH; [discriminate|exact Ht]].
    apply Qplus_lt_l. apply Qplus_lt_r. exact Hx.
Qed.

Lemma square_small (x : Q) :
  - (1 # 100) <= x -> x <= 1 # 100 -> x * x <= 1 # 10000.
Proof.
  intros Hl Hu. destruct (Qlt_le_dec x 0) as [Hn|Hp].
  - setoid_replace (x * x) with ((- x) * (- x)) by ring.
    setoid_replace (1 # 10000) with ((1 # 100) * (1 # 100)) by reflexivity.
    assert (0 <= - x) by (apply (Qopp_le_compat x 0), Qlt_le_weak, Hn).
    assert (- x <= 1 # 100).
    { setoid_replace (1 # 100) with (- - (1 # 100)) by ring.
      apply Qopp_le_compat, Hl. }
    apply Qmult_le_compat_nonneg; split; assumption.
  - setoid_replace (1 # 10000) with ((1 # 100) * (1 # 100)) by reflexivity.
    apply Qmult_le_compat_nonneg; split; assumption.
Qed.

Lemma square_large (x : Q) :
  x < - (1 # 100) \/ 1 # 100 < x -> 1 # 10000 < x * x.
Proof.
  assert (Hsq : forall y, 1 # 100 < y -> 1 # 10000 < y * y).
  { intros y Hy.
    setoid_replace (1 # 10000) with ((1 # 100) * (1 # 100)) by reflexivity.
    apply Qlt_trans with ((1 # 100) * y).
    - apply Qmult_lt_l; [reflexivity|exact Hy].
    - apply Qmult_lt_r; [|exact Hy].
      apply Qlt_trans with (1 # 100); [reflexivity|exact Hy]. }
  intros [Hn|Hp].
  - setoid_replace (x * x) with ((- x) * (- x)) by ring.
    apply Hsq. setoid_replace (1 # 100) with (- - (1 # 100)) by ring.
    apply Qopp_lt_compat, Hn.
  - apply Hsq, Hp.
Qed.

End EnergyFacts.

(** X6.  The energy test of processContinuousAudio: a frame whose samples
    all lie within -0.01 .. 0.01 counts as silence, as does the empty
    frame, and a non-empty frame whose samples all lie outside that band
    counts as speech. *)
Theorem is_speaking_by_amplitude (audioChunk : samples) :
  (Forall (fun x => - (1 # 100) <= x /\ x <= 1 # 100)%Q audioChunk ->
   is_speaking audioChunk = false)
  /\ (audioChunk <> [] ->
      Forall (fun x => x < - (1 # 100) \/ 1 # 100 < x)%Q audioChunk ->
      is_speaking audioChunk = true).
Proof.
  assert (Hpos : forall b : samples,
             b <> [] -> (0 < inject_Z (Z.of_nat (length b)))%Q).
  { intros [|x t] Hb; [congruence|]. cbn [length].
    rewrite Nat2Z.inj_succ. unfold Qlt. cbn. lia. }
  unfold is_speaking, energy_squared. split.
  - intro H. destruct audioChunk as [|x t]; [reflexivity|].
    assert (Hn := Hpos (x :: t) ltac:(discriminate)).
    set (b := x :: t) in *.
    apply negb_false_iff, Qle_bool_iff.
    apply Qle_shift_div_r; [exact Hn|].
    eapply Qle_trans.
    + apply (sum_squares_le (1 # 10000)).
      eapply Forall_impl; [|exact H]. intros a [Hl Hu].
      apply square_small; assumption.
    + rewrite Qplus_0_l, Qmult_comm. apply Qle_refl.
  - intros Hne H. destruct audioChunk as [|x t]; [congruence|].
    assert (Hn := Hpos (x :: t) ltac:(discriminate)).
    set (b := x :: t) in *.
    apply negb_true_iff. apply not_true_is_false. intro Hle.
    apply Qle_bool_iff in Hle.
    apply (Qmult_le_r _ _ _ Hn) in Hle.
    assert (Hd : (fold_left (fun sum x => sum + x * x) b 0
                  / inject_Z (Z.of_nat (length b))
                  * inject_Z (Z.of_nat (length b))
                  == fold_left (fun sum x => sum + x * x) b 0)%Q).
    { field. intro H0. rewrite H0 in Hn. discriminate. }
    rewrite Hd in Hle.
    pose proof (sum_squares_gt (1 # 10000) b 0 Hne
                  (Forall_impl _ square_large H)) as Hgt.
    rewrite Qplus_0_l, Qmult_comm in Hgt.
    apply (Qlt_irrefl _ (Qle_lt_trans _ _ _ Hle Hgt)).
Qed.

(** ** Normalisation of a text *)

Section NormalizeFacts.

Lemma filter_trimStart (p : N -> bool) (s : jsstring) :
  (forall c, is_space c = true -> p c = false) ->
  filter p (trimStart s) = filter p s.
Proof.
  intro Hp. induction s as [|c r IH]; [reflexivity|].
  cbn [trimStart]. destruct (is_space c) eqn:E; [|reflexivity].
  cbn [filter]. rewrite (Hp c E). exact IH.
Qed.

Lemma filter_rev (A : Type) (p : A -> bool) (l : list A) :
  filter p (rev l) = rev (filter p l).
Proof.
  induction l as [|a l IH]; [reflexivity|].
  cbn [rev filter]. rewrite filter_app, IH. cbn [filter].
  destruct (p a); cbn [rev]; [reflexivity|apply app_nil_r].
Qed.

Lemma filter_trim (p : N -> bool) (s : jsstring) :
  (forall c, is_space c = true -> p c = false) ->
  filter p (trim s) = filter p s.
Proof.
  intro Hp. unfold trim, trimEnd.
  rewrite filter_rev, (filter_trimStart p _ Hp), filter_rev, rev_involutive.
  apply (filter_trimStart p _ Hp).
Qed.

Lemma filter_filter (A : Type) (p q : A -> bool) (l : list A) :
  filter p (filter q l) = filter (fun a => p a && q a) l.
Proof.
  induction l as [|a l IH]; [reflexivity|].
  cbn [filter]. destruct (q a); cbn [filter].
  - rewrite andb_true_r. destruct (p a); rewrite IH; reflexivity.
  - rewrite andb_false_r. exact IH.
Qed.

Lemma filter_collapse (s : jsstring) :
  forall b, filter (fun c => negb (is_space c)) (collapse b s)
            = filter (fun c => negb (is_space c)) s.
Proof.
  induction s as [|c r IH]; intro b; [reflexivity|].
  cbn [collapse]. destruct (is_space c) eqn:E.
  - cbn [filter]. rewrite E. cbn [negb].
    destruct b; [apply IH|]. cbn [filter]. apply IH.
  - cbn [filter]. rewrite E. cbn [negb]. rewrite IH. reflexivity.
Qed.

Lemma collapse_Forall (P : N -> Prop) (s : jsstring) :
  P SPACE ->
  (forall c, In c s -> is_space c = false -> P c) ->
  forall b, Forall P (collapse b s).
Proof.
  intros Hs. induction s as [|c r IH]; intros H b; [constructor|].
  cbn [collapse]. destruct (is_space c) eqn:E.
  - destruct b; [|constructor; [exact Hs|]];
      apply IH; intros; apply H; auto using in_cons.
  - constructor; [apply H; auto using in_eq|].
    apply IH; intros; apply H; auto using in_cons.
Qed.

(** After white space, the collapsed text goes on with something else. *)
Lemma collapse_true_head (s : jsstring) (c : N) (rest : jsstring) :
  collapse true s = c :: rest -> is_space c = false.
Proof.
  induction s as [|d r IH]; [discriminate|].
  cbn [collapse]. destruct (is_space d) eqn:E; [exact IH|].
  intro H. injection H as <- _. exact E.
Qed.

Lemma collapse_no_double_space (s : jsstring) :
  forall b i,
    nth_error (collapse b s) i = Some SPACE ->
    nth_error (collapse b s) (S i) <> Some SPACE.
Proof.
  induction s as [|c r IH]; intros b i; [destruct i; discriminate|].
  cbn [collapse]. destruct (is_space c) eqn:E.
  - destruct b; [apply IH|].
    destruct i as [|i]; cbn [nth_error]; [|apply IH].
    intros _. destruct (collapse true r) as [|d rest] eqn:Ec; [discriminate|].
    cbn [nth_error]. intro H. injection H as ->.
    apply collapse_true_head in Ec. discriminate.
  - destruct i as [|i]; cbn [nth_error]; [|apply IH].
    intro H. injection H as ->. discriminate.
Qed.

End NormalizeFacts.

(** X7.  The normalisation shared by processArabicText and streamTTS
    (trim, drop U+202A..U+202E, collapse white space): the result holds no
    directional mark, its only white space is U+0020 and never twice in a
    row, and its other code units are those of the text, in the same
    order. *)
Theorem normalize_output (text : jsstring) :
  Forall (fun c => is_directional_mark c = false) (normalize text)
  /\ Forall (fun c => is_space c = true -> c = SPACE) (normalize text)
  /\ (forall i,
        nth_error (normalize text) i = Some SPACE ->
        nth_error (normalize text) (S i) <> Some SPACE)
  /\ filter (fun c => negb (is_space c)) (normalize text)
     = filter (fun c => negb (is_space c) && negb (is_directional_mark c))
         text.
Proof.
  unfold normalize, normalize_whitespace. split; [|split; [|split]].
  - apply collapse_Forall; [reflexivity|].
    intros c Hc _. unfold remove_directional_marks in Hc.
    apply filter_In in Hc as [_ Hc]. apply negb_true_iff, Hc.
  - apply collapse_Forall; [reflexivity|]. intros c _ E1 E2. congruence.
  - apply collapse_no_double_space.
  - rewrite filter_collapse. unfold remove_directional_marks.
    rewrite filter_filter. apply filter_trim.
    intros c Hc. rewrite Hc. reflexivity.
Qed.

(** ** Dialects and voice settings *)

Section DialectFacts.

Import ArabicText.

Lemma starts_with_app (pat s : jsstring) :
  starts_with pat s = true -> exists rest, s = pat ++ rest.
Proof.
  revert s. induction pat as [|p pat IH]; intros s H.
  - exists s. reflexivity.
  - destruct s as [|c s]; [discriminate|]. cbn [starts_with] in H.
    apply andb_prop in H as [Hc Hs]. apply N.eqb_eq in Hc. subst c.
    destruct (IH s Hs) as [rest ->]. exists rest. reflexivity.
Qed.

Lemma includes_In (pat s : jsstring) (c : N) :
  includes pat s = true -> In c pat -> In c s.
Proof.
  induction s as [|d s IH]; cbn [includes]; intros H Hc.
  - destruct pat; [contradiction|discriminate].
  - apply orb_prop in H as [H|H].
    + apply starts_with_app in H as [rest ->]. apply in_or_app. auto.
    + right. apply IH; assumption.
Qed.

Lemma replace_all_absent (pat rep s : jsstring) :
  includes pat s = false -> replace_all pat rep 0 s = s.
Proof.
  induction s as [|c s IH]; [reflexivity|].
  cbn [includes replace_all]. intro H.
  apply orb_false_iff in H as [H1 H2]. rewrite H1, (IH H2). reflexivity.
Qed.

Lemma egyptian_is_arabic (text : jsstring) :
  egyptianPattern text = true -> test arabicLetter text = true.
Proof.
  unfold egyptianPattern, test. intro H. apply existsb_exists.
  repeat (apply orb_prop in H as [H|H]).
  - exists 0x0643. split; [|reflexivity]. apply (includes_In _ _ _ H). cbn. auto.
  - exists 0x0647. split; [|reflexivity]. apply (includes_In _ _ _ H). cbn. tauto.
  - exists 0x062A. split; [|reflexivity]. apply (includes_In _ _ _ H). cbn. auto.
  - exists 0x062E. split; [|reflexivity]. apply (includes_In _ _ _ H). cbn. auto.
  - exists 0x064A. split; [|reflexivity]. apply (includes_In _ _ _ H). cbn. auto.
Qed.

End DialectFacts.

(** X8.  getVoiceSettings answers nova and tts-1-hd for every text.  The
    speed is 1.2 when the text contains one of the five Egyptian phrases,
    0.85 when it contains an Arabic letter (U+0600..U+06FF or
    U+0750..U+077F) but none of the phrases, and 1.0 exactly when it
    contains no such letter: a text with an Egyptian phrase always contains
    one, so the Egyptian test only takes effect because it comes first. *)
Theorem getVoiceSettings_cases (text : jsstring) :
  let r := ArabicText.getVoiceSettings text in
  ArabicText.vs_voice r = nova
  /\ ArabicText.vs_model r = ArabicText.tts_1_hd
  /\ (ArabicText.egyptianPattern text = true ->
      test ArabicText.arabicLetter text = true)
  /\ ArabicText.vs_speed r
     = (if ArabicText.egyptianPattern text then 12 # 10
        else if test ArabicText.arabicLetter text then 85 # 100
        else 1)%Q
  /\ (ArabicText.vs_speed r = 1%Q
      <-> test ArabicText.arabicLetter text = false).
Proof.
  cbv zeta. unfold ArabicText.getVoiceSettings.
  pose proof (egyptian_is_arabic text) as Hea.
  destruct (ArabicText.egyptianPattern text) eqn:E1;
    [rewrite (Hea eq_refl)|destruct (test ArabicText.arabicLetter text) eqn:E2];
    cbn; repeat split; try reflexivity; try assumption;
    try discriminate; intro H; try discriminate; try reflexivity.
Qed.

(** X9.  The Egyptian dialect of processArabicText differs from the default
    one only through the three formal phrases: when none of them occurs in
    the processed text, both dialects give the same string. *)
Theorem egyptian_dialect_without_formal_phrases (text : jsstring) :
  ArabicText.includes ArabicText.kayfa_haluk (processArabicText text) = false ->
  ArabicText.includes ArabicText.madha_tafal (processArabicText text) = false ->
  ArabicText.includes ArabicText.shukran (processArabicText text) = false ->
  ArabicText.processArabicText_dialect text ArabicText.egyptian
  = ArabicText.processArabicText_dialect text ArabicText.arabic.
Proof.
  intros H1 H2 H3. unfold ArabicText.processArabicText_dialect. cbv zeta.
  rewrite (replace_all_absent _ _ _ H1), (replace_all_absent _ _ _ H2).
  apply (replace_all_absent _ _ _ H3).
Qed.

(** X9 on the word of [Scenario.marhaban_stop]. *)
Lemma egyptian_dialect_without_formal_phrases_witness :
  ArabicText.processArabicText_dialect Scenario.marhaban_stop
    ArabicText.egyptian
  = ArabicText.processArabicText_dialect Scenario.marhaban_stop
      ArabicText.arabic.
Proof.
  apply (egyptian_dialect_without_formal_phrases Scenario.marhaban_stop);
    reflexivity.
Defined.

(** The replacement at work: "shukran" alone, in the Egyptian dialect. *)
Example egyptian_dialect_example :
  ArabicText.processArabicText_dialect ArabicText.shukran ArabicText.egyptian
  = [RLE] ++ ArabicText.mutashakkir ++ [PDF; FULL_STOP]
  /\ ArabicText.egyptianPattern
       (ArabicText.processArabicText_dialect ArabicText.kayfa_haluk
          ArabicText.egyptian) = true.
Proof. split; reflexivity. Qed.

(** ** trim *)

Section TrimFacts.

Lemma trimStart_head (s : jsstring) (c : N) (r : jsstring) :
  trimStart s = c :: r -> is_space c = false.
Proof.
  induction s as [|d s IH]; [discriminate|].
  cbn [trimStart]. destruct (is_space d) eqn:E; [exact IH|].
  intro H. injection H as <- _. exact E.
Qed.

Lemma trimStart_fixed (c : N) (r : jsstring) :
  is_space c = false -> trimStart (c :: r) = c :: r.
Proof. intro H. cbn [trimStart]. rewrite H. reflexivity. Qed.

Lemma trimStart_snoc (s : jsstring) (c : N) :
  is_space c = false -> exists w, trimStart (s ++ [c]) = w ++ [c].
Proof.
  intro H. induction s as [|d s IH].
  - exists []. cbn. rewrite H. reflexivity.
  - cbn [app trimStart]. destruct (is_space d).
    + exact IH.
    + exists (d :: s). reflexivity.
Qed.

Lemma trimStart_idempotent (s : jsstring) :
  trimStart (trimStart s) = trimStart s.
Proof.
  destruct (trimStart s) as [|x y] eqn:Ex; [reflexivity|].
  apply trimStart_fixed. exact (trimStart_head _ _ _ Ex).
Qed.

Lemma trim_idempotent (s : jsstring) : trim (trim s) = trim s.
Proof.
  unfold trim, trimEnd.
  destruct (trimStart s) as [|c r] eqn:E; [reflexivity|].
  pose proof (trimStart_head _ _ _ E) as Hc.
  cbn [rev]. destruct (trimStart_snoc (rev r) c Hc) as [w Hw].
  assert (Hfix : trimStart (w ++ [c]) = w ++ [c]).
  { rewrite <- Hw. apply trimStart_idempotent. }
  rewrite Hw.
  assert (Hrev : rev (w ++ [c]) = c :: rev w)
    by (rewrite rev_app_distr; reflexivity).
  rewrite Hrev, (trimStart_fixed _ _ Hc).
  cbn [rev]. rewrite rev_involutive, Hfix. exact Hrev.
Qed.

End TrimFacts.

(** ** Complete runs of processAudioFile *)

Section FileRuns.

Variables (st : agent) (audioData : bytes) (text : jsstring).

Hypothesis Hidle : isProcessing st = false.
Hypothesis Htext : truthy (trim text) = true.

Let transcript := trim text.

Let heard : list turn :=
  conversationHistory st ++ [{| turn_role := user; content := transcript |}].

Let asked : effect :=
  Call (ChatCompletion (llmProvider (config st)) (llmModel (config st))
          (systemPrompt (config st)) heard (temperature (config st)) false).

(** processAudioFile up to the chat call. *)
Lemma processAudioFile_to_chat :
  run (processAudioFile audioData) [Transcribed text] st
  = Some (Some (AwaitCompletion fromAudioFile transcript),
          set_conversationHistory heard
            (set_detectedLanguage (detectLanguage transcript)
               (set_isProcessing true st)),
          [Call (first_transcription (config st) audioData);
           Emit (transcript_ transcript);
           asked]).
Proof.
  subst asked heard transcript.
  unfold run, processAudioFile, speechToText, first_transcription, bind, get.
  cbn [fst snd]. rewrite Hidle. cbn [fst snd modify set_isProcessing config].
  destruct (sttProvider (config st));
    cbn [groqSTT openaiSTT bind call ret fst snd drive resume app];
    unfold speechToText_return, after_speechToText, bind;
    rewrite trim_idempotent, Htext; cbn [fst snd modify negb orb];
    reflexivity.
Qed.

End FileRuns.

Section RunComposition.

Lemma drive_app (rs1 rs2 : list reply) :
  forall (p : option pending) (st : agent),
    drive p (rs1 ++ rs2) st
    = match drive p rs1 st with
      | Some (q, st1, t1) =>
          match drive q rs2 st1 with
          | Some (q2, st2, t2) => Some (q2, st2, t1 ++ t2)
          | None => None
          end
      | None => None
      end.
Proof.
  induction rs1 as [|r rs1 IH]; intros p st.
  - cbn [app drive]. destruct (drive p rs2 st) as [[[q2 st2] t2]|]; reflexivity.
  - cbn [app drive]. destruct p as [p|]; [|reflexivity].
    destruct (resume p r) as [m|]; [|reflexivity].
    rewrite IH.
    destruct (drive (fst (fst (m st))) rs1 (snd (fst (m st))))
      as [[[q st1] t1]|]; [|reflexivity].
    destruct (drive q rs2 st1) as [[[q2 st2] t2]|]; [|reflexivity].
    rewrite app_assoc. reflexivity.
Qed.

Lemma run_app (m : M (option pending)) (rs1 rs2 : list reply) (st : agent) :
  run m (rs1 ++ rs2) st
  = match run m rs1 st with
    | Some (q, st1, t1) =>
        match drive q rs2 st1 with
        | Some (q2, st2, t2) => Some (q2, st2, t1 ++ t2)
        | None => None
        end
    | None => None
    end.
Proof.
  unfold run. rewrite drive_app.
  destruct (drive (fst (fst (m st))) rs1 (snd (fst (m st))))
    as [[[q st1] t1]|]; [|reflexivity].
  destruct (drive q rs2 st1) as [[[q2 st2] t2]|]; [|reflexivity].
  rewrite app_assoc. reflexivity.
Qed.

End RunComposition.

Section FileOutcomes.

Import Outcome.

(** What follows the chat call, by the replies that arrive. *)
Lemma after_chat_success (st1 : agent) (transcript response : jsstring)
    (audio : bytes) :
  truthy (trim response) = true ->
  exists st2,
    drive (Some (AwaitCompletion fromAudioFile transcript))
      [Completed (Some response); AudioData audio] st1
    = Some (None, st2,
            [Emit (response_ response); spoken (config st1) response;
             Emit (audio_ audio response);
             Emit (complete_ transcript response)])
    /\ conversationHistory st2
       = limited (conversationHistory st1 ++ [said assistant response])
    /\ isProcessing st2 = false.
Proof.
  intro Hr. unfold limited, said, spoken.
  cbn [drive resume]. unfold_methods. red_agent. rewrite Hr.
  destruct (Nat.ltb 20 _) eqn:E; red_agent; cbn [drive resume];
    unfold_methods; red_agent; eexists; (split; [reflexivity|]);
    split; reflexivity.
Qed.

Lemma after_chat_speech_failure (st1 : agent) (transcript response : jsstring)
    (e : failure) :
  truthy (trim response) = true ->
  exists st2,
    drive (Some (AwaitCompletion fromAudioFile transcript))
      [Completed (Some response); Rejected e] st1
    = Some (None, st2,
            [Emit (response_ response); spoken (config st1) response;
             Emit (complete_ transcript response)])
    /\ conversationHistory st2
       = limited (conversationHistory st1 ++ [said assistant response])
    /\ isProcessing st2 = false.
Proof.
  intro Hr. unfold limited, said, spoken.
  cbn [drive resume]. unfold_methods. red_agent. rewrite Hr.
  destruct (Nat.ltb 20 _) eqn:E; red_agent; cbn [drive resume];
    unfold_methods; red_agent; eexists; (split; [reflexivity|]);
    split; reflexivity.
Qed.

End FileOutcomes.

(** X10.  A complete run of processAudioFile on an idle agent, when the
    transcription gives a text that is not blank, the chat a response that
    is not blank, and the synthesis succeeds: the run sends the audio to the
    configured transcription backend, emits transcript, asks the chat with
    the history extended by the user turn, emits response, requests the
    speech, emits audio and then complete, in this order and nothing else;
    the history ends as the last 20 turns of the old history followed by the
    user turn and the assistant turn, and the agent is idle again. *)
Theorem processAudioFile_success
    (st : agent) (audioData : bytes) (text response : jsstring)
    (audio : bytes) :
  isProcessing st = false ->
  truthy (trim text) = true ->
  truthy (trim response) = true ->
  let heard := conversationHistory st ++ [Outcome.said user (trim text)] in
  exists st',
    run (processAudioFile audioData)
      [Transcribed text; Completed (Some response); AudioData audio] st
    = Some (None, st',
            [Call (first_transcription (config st) audioData);
             Emit (transcript_ (trim text));
             Outcome.asked (config st) heard false;
             Emit (response_ response);
             Outcome.spoken (config st) response;
             Emit (audio_ audio response);
             Emit (complete_ (trim text) response)])
    /\ conversationHistory st'
       = Outcome.limited (heard ++ [Outcome.said assistant response])
    /\ isProcessing st' = false.
Proof.
  intros Hidle Htext Hr heard.
  change [Transcribed text; Completed (Some response); AudioData audio]
    with ([Transcribed text] ++ [Completed (Some response); AudioData audio]).
  rewrite run_app, (processAudioFile_to_chat st audioData text Hidle Htext).
  match goal with
  | |- context [drive _ _ ?st1] =>
      destruct (after_chat_success st1 (trim text) response audio Hr)
        as (st2 & -> & Hh & Hp)
  end.
  exists st2. split; [reflexivity|]. split; [exact Hh|exact Hp].
Qed.

Lemma processAudioFile_success_witness :
  exists st',
    run (processAudioFile Scenario.pcm)
      [Transcribed Scenario.hi; Completed (Some Scenario.hello);
       AudioData Scenario.opus1]
      (new_agent Scenario.cfg_buffered)
    = Some (None, st',
            [Call (first_transcription Scenario.cfg_buffered Scenario.pcm);
             Emit (transcript_ Scenario.hi);
             Outcome.asked Scenario.cfg_buffered
               [Outcome.said user Scenario.hi] false;
             Emit (response_ Scenario.hello);
             Outcome.spoken Scenario.cfg_buffered Scenario.hello;
             Emit (audio_ Scenario.opus1 Scenario.hello);
             Emit (complete_ Scenario.hi Scenario.hello)])
    /\ conversationHistory st'
       = [Outcome.said user Scenario.hi;
          Outcome.said assistant Scenario.hello]
    /\ isProcessing st' = false.
Proof.
  apply (processAudioFile_success (new_agent Scenario.cfg_buffered)
           Scenario.pcm Scenario.hi Scenario.hello Scenario.opus1);
    reflexivity.
Defined.

(** X11.  When the chat call of processAudioFile fails, the run emits
    transcript and then the error it caught, requests no speech and emits
    neither response, audio nor complete; the agent is idle again, and the
    user turn pushed before the call stays in the history, which is not
    trimmed on this path. *)
Theorem processAudioFile_chat_failure
    (st : agent) (audioData : bytes) (text : jsstring) (e : failure) :
  isProcessing st = false ->
  truthy (trim text) = true ->
  let heard := conversationHistory st ++ [Outcome.said user (trim text)] in
  exists st',
    run (processAudioFile audioData) [Transcribed text; Rejected e] st
    = Some (None, st',
            [Call (first_transcription (config st) audioData);
             Emit (transcript_ (trim text));
             Outcome.asked (config st) heard false;
             Emit (error_ (Thrown e))])
    /\ conversationHistory st' = heard
    /\ isProcessing st' = false.
Proof.
  intros Hidle Htext heard.
  change [Transcribed text; Rejected e]
    with ([Transcribed text] ++ [Rejected e]).
  rewrite run_app, (processAudioFile_to_chat st audioData text Hidle Htext).
  cbn [drive resume]. unfold_methods. red_agent.
  eexists. split; [reflexivity|]. split; reflexivity.
Qed.

Lemma processAudioFile_chat_failure_witness :
  exists st',
    run (processAudioFile Scenario.pcm) [Transcribed Scenario.hi; Rejected 500]
      (new_agent Scenario.cfg_buffered)
    = Some (None, st',
            [Call (first_transcription Scenario.cfg_buffered Scenario.pcm);
             Emit (transcript_ Scenario.hi);
             Outcome.asked Scenario.cfg_buffered
               [Outcome.said user Scenario.hi] false;
             Emit (error_ (Thrown 500))])
    /\ conversationHistory st' = [Outcome.said user Scenario.hi]
    /\ isProcessing st' = false.
Proof.
  apply (processAudioFile_chat_failure (new_agent Scenario.cfg_buffered)
           Scenario.pcm Scenario.hi 500); reflexivity.
Defined.

(** X12.  When the synthesis fails in processAudioFile, streamTTS swallows
    the failure: no audio event and no error event is emitted, but complete
    still is, after transcript and response, and the history holds both
    turns. *)
Theorem processAudioFile_speech_failure
    (st : agent) (audioData : bytes) (text response : jsstring) (e : failure) :
  isProcessing st = false ->
  truthy (trim text) = true ->
  truthy (trim response) = true ->
  let heard := conversationHistory st ++ [Outcome.said user (trim text)] in
  exists st',
    run (processAudioFile audioData)
      [Transcribed text; Completed (Some response); Rejected e] st
    = Some (None, st',
            [Call (first_transcription (config st) audioData);
             Emit (transcript_ (trim text));
             Outcome.asked (config st) heard false;
             Emit (response_ response);
             Outcome.spoken (config st) response;
             Emit (complete_ (trim text) response)])
    /\ conversationHistory st'
       = Outcome.limited (heard ++ [Outcome.said assistant response])
    /\ isProcessing st' = false.
Proof.
  intros Hidle Htext Hr heard.
  change [Transcribed text; Completed (Some response); Rejected e]
    with ([Transcribed text] ++ [Completed (Some response); Rejected e]).
  rewrite run_app, (processAudioFile_to_chat st audioData text Hidle Htext).
  match goal with
  | |- context [drive _ _ ?st1] =>
      destruct (after_chat_speech_failure st1 (trim text) response e Hr)
        as (st2 & -> & Hh & Hp)
  end.
  exists st2. split; [reflexivity|]. split; [exact Hh|exact Hp].
Qed.

Lemma processAudioFile_speech_failure_witness :
  exists st',
    run (processAudioFile Scenario.pcm)
      [Transcribed Scenario.hi; Completed (Some Scenario.hello); Rejected 500]
      (new_agent Scenario.cfg_buffered)
    = Some (None, st',
            [Call (first_transcription Scenario.cfg_buffered Scenario.pcm);
             Emit (transcript_ Scenario.hi);
             Outcome.asked Scenario.cfg_buffered
               [Outcome.said user Scenario.hi] false;
             Emit (response_ Scenario.hello);
             Outcome.spoken Scenario.cfg_buffered Scenario.hello;
             Emit (complete_ Scenario.hi Scenario.hello)])
    /\ conversationHistory st'
       = [Outcome.said user Scenario.hi;
          Outcome.said assistant Scenario.hello]
    /\ isProcessing st' = false.
Proof.
  apply (processAudioFile_speech_failure (new_agent Scenario.cfg_buffered)
           Scenario.pcm Scenario.hi Scenario.hello 500); reflexivity.
Defined.

(** ** What a run leaves behind *)

Section RunInvariants.

Import Outcome.

(** A suspended run never writes the configuration, the audio buffer or
    the silence timer. *)
Lemma resume_untouched (p : pending) (r : reply) (m : M (option pending))
    (st : agent) :
  resume p r = Some m ->
  config (snd (fst (m st))) = config st
  /\ audioBuffer (snd (fst (m st))) = audioBuffer st
  /\ silenceTimer (snd (fst (m st))) = silenceTimer st.
Proof.
  intro Hm. destruct st as [c h b a tm l].
  destruct p as [cl ad|cl|cl tr| |full buf|text k], r; cbn in Hm;
    try discriminate; injection Hm as <-;
    try destruct cl; try destruct k;
    try match goal with o : option jsstring |- _ => destruct o end;
    unfold_methods; split_tests; red_agent; repeat split; reflexivity.
Qed.

Lemma drive_end (rs : list reply) (st : agent)
    (q : option pending) (st' : agent) (t : list effect) :
  drive None rs st = Some (q, st', t) -> rs = [] /\ st' = st /\ t = [].
Proof.
  destruct rs; cbn [drive]; [|discriminate].
  intro H. injection H as <- <- <-. auto.
Qed.

End RunInvariants.

(** X13.  However a run ends (success, empty transcript, failed
    transcription, chat or stream), once its last step is done isProcessing
    is false: no path leaves the agent busy for ever. *)
Theorem finished_run_clears_isProcessing
    (rs : list reply) (p : pending) (st st' : agent) (t : list effect) :
  drive (Some p) rs st = Some (None, st', t) ->
  isProcessing st' = false.
Proof.
  revert p st t. induction rs as [|r rs IH]; intros p st t H; [discriminate|].
  apply drive_cons in H as (m & t2 & Hm & Hd & ->).
  pose proof (resume_flag p r m st Hm) as Hf.
  destruct (fst (fst (m st))) as [p1|].
  - exact (IH p1 _ _ Hd).
  - apply drive_end in Hd as (_ & -> & _). exact Hf.
Qed.

Lemma finished_run_clears_isProcessing_witness :
  exists st' t,
    drive (Some (AwaitCompletion fromAudioFile Scenario.hi))
      [Completed (Some Scenario.hello); AudioData Scenario.opus1]
      (this Scenario.generating)
    = Some (None, st', t)
    /\ isProcessing st' = false.
Proof.
  eexists. eexists. split; [vm_compute; reflexivity|].
  eapply (finished_run_clears_isProcessing
            [Completed (Some Scenario.hello); AudioData Scenario.opus1]
            (AwaitCompletion fromAudioFile Scenario.hi)
            (this Scenario.generating)).
  vm_compute. reflexivity.
Defined.

(** X14.  A run, from any point where it is suspended to any later point,
    leaves the configuration, the buffered audio frames and the silence
    timer of the agent as they are: frames that arrive while a run is under
    way are neither consumed nor dropped by it. *)
Theorem run_leaves_buffer_and_timer
    (rs : list reply) (p : option pending) (st : agent)
    (q : option pending) (st' : agent) (t : list effect) :
  drive p rs st = Some (q, st', t) ->
  config st' = config st
  /\ audioBuffer st' = audioBuffer st
  /\ silenceTimer st' = silenceTimer st.
Proof.
  revert p st t. induction rs as [|r rs IH]; intros p st t H.
  - cbn in H. injection H as _ <- _. auto.
  - destruct p as [p|]; [|discriminate].
    apply drive_cons in H as (m & t2 & Hm & Hd & ->).
    destruct (resume_untouched p r m st Hm) as (H1 & H2 & H3).
    destruct (IH _ _ _ Hd) as (H4 & H5 & H6).
    rewrite H4, H5, H6. auto.
Qed.

Lemma run_leaves_buffer_and_timer_witness :
  exists q st' t,
    drive (Some (AwaitCompletion fromAudioFile Scenario.hi))
      [Completed (Some Scenario.hello)]
      (this Scenario.generating)
    = Some (q, st', t)
    /\ config st' = config (this Scenario.generating)
    /\ audioBuffer st' = audioBuffer (this Scenario.generating)
    /\ silenceTimer st' = silenceTimer (this Scenario.generating).
Proof.
  eexists. eexists. eexists. split; [vm_compute; reflexivity|].
  eapply (run_leaves_buffer_and_timer
            [Completed (Some Scenario.hello)]
            (Some (AwaitCompletion fromAudioFile Scenario.hi))
            (this Scenario.generating)).
  vm_compute. reflexivity.
Defined.

(** X15.  getLLMResponse keeps the history limited whatever it held
    before: after the call and its answer the history is the old one
    followed by the user turn and the assistant turn, cut down to its last
    20 turns, so it never has more than 20, the turns dropped are the oldest,
    and nothing is dropped while there are at most 20. *)
Theorem getLLMResponse_keeps_last_20
    (c : caller) (input : jsstring) (content : option jsstring) (st : agent) :
  let st1 := snd (fst (getLLMResponse c input st)) in
  let st2 := snd (fst (getLLMResponse_return c input content st1)) in
  let h := conversationHistory st
           ++ [Outcome.said user input;
               Outcome.said assistant (or_empty content)] in
  conversationHistory st2 = Outcome.limited h
  /\ (length (conversationHistory st2) <= 20)%nat
  /\ firstn (length h - length (conversationHistory st2)) h
     ++ conversationHistory st2 = h
  /\ ((length h <= 20)%nat -> conversationHistory st2 = h).
Proof.
  cbv zeta. rewrite getLLMResponse_return_history. cbv zeta.
  change (conversationHistory (snd (fst (getLLMResponse c input st))))
    with (conversationHistory st ++ [Outcome.said user input]).
  unfold Outcome.limited, Outcome.said. rewrite <- app_assoc. cbn [app].
  set (h := conversationHistory st ++ _).
  destruct (Nat.ltb_spec 20 (length h)) as [Hl|Hl].
  - split; [reflexivity|]. rewrite slice_last_length.
    split; [lia|]. split; [|lia].
    replace (Nat.min 20 (length h)) with 20%nat by lia.
    apply slice_last_suffix.
  - split; [reflexivity|]. split; [exact Hl|].
    split; [|reflexivity]. rewrite Nat.sub_diag. reflexivity.
Qed.

(** ** The history after a streamed run *)

Section StreamHistory.

Import Outcome.

Lemma final_speech_history (text fullResponse : jsstring) (rs : list reply)
    (st st' : agent) (t : list effect) :
  drive (Some (AwaitSpeech text (FinishStream fullResponse))) rs st
  = Some (None, st', t) ->
  conversationHistory st'
  = conversationHistory st ++ [said assistant fullResponse].
Proof.
  destruct rs as [|r rs]; [discriminate|].
  intro H. apply drive_cons in H as (m & t2 & Hm & Hd & ->).
  destruct r; try discriminate; cbn in Hm; injection Hm as <-;
    cbn in Hd; apply drive_end in Hd as (_ & -> & _); reflexivity.
Qed.

Lemma stream_end_history (fullResponse buffer : jsstring) (st : agent) :
  (fst (fst (stream_end fullResponse buffer st)) = None
   /\ conversationHistory (snd (fst (stream_end fullResponse buffer st)))
      = conversationHistory st ++ [said assistant fullResponse])
  \/ (fst (fst (stream_end fullResponse buffer st))
      = Some (AwaitSpeech buffer (FinishStream fullResponse))
      /\ snd (fst (stream_end fullResponse buffer st)) = st).
Proof.
  unfold stream_end, streamTTS, bind, get, call, ret.
  destruct (truthy buffer); [destruct (truthy (trim buffer))|]; cbn;
    [right|left|left]; split; reflexivity.
Qed.

Lemma stream_loop_history (rs : list reply) :
  forall (fullResponse : jsstring) (st st' : agent) (t : list effect),
    (forall buffer,
        drive (Some (AwaitChunk fullResponse buffer)) rs st
        = Some (None, st', t) ->
        (In StreamEnd rs ->
         conversationHistory st'
         = conversationHistory st
           ++ [said assistant
                 (fullResponse ++ streamed_text (chunk_contents rs))])
        /\ (~ In StreamEnd rs ->
            conversationHistory st' = conversationHistory st))
    /\ (forall text,
           drive (Some (AwaitSpeech text (NextChunk fullResponse))) rs st
           = Some (None, st', t) ->
           (In StreamEnd rs ->
            conversationHistory st'
            = conversationHistory st
              ++ [said assistant
                    (fullResponse ++ streamed_text (chunk_contents rs))])
           /\ (~ In StreamEnd rs ->
               conversationHistory st' = conversationHistory st)).
Proof.
  induction rs as [|r rs IH]; intros full st st' t.
  - split; intros ? H; discriminate.
  - split.
    + intros buffer H. apply drive_cons in H as (m & t2 & Hm & Hd & _).
      destruct r as [x|x| |delta| |a|e]; try discriminate;
        cbn [resume] in Hm; injection Hm as <-.
      * destruct (stream_chunk_cases full buffer delta st)
          as (t1 & _ & [[_ E]|[[_ E]|[_ E]]]);
          cbv zeta in E; rewrite E in Hd; cbn [fst snd] in Hd;
          cbn [chunk_contents flat_map app]; fold (chunk_contents rs);
          unfold streamed_text; cbn [map concat];
          fold (streamed_text (chunk_contents rs)); rewrite app_assoc;
          [destruct (proj1 (IH _ _ _ _) _ Hd) as [H1 H2]
          |destruct (proj1 (IH _ _ _ _) _ Hd) as [H1 H2]
          |destruct (proj2 (IH _ _ _ _) _ Hd) as [H1 H2]];
          (split; [intros [Hin|Hin]; [discriminate|exact (H1 Hin)]
                  |intro Hn; apply H2; intro Hin; apply Hn; right; exact Hin]).
      * split; [intros _|intro Hn; exfalso; apply Hn; left; reflexivity].
        destruct (stream_end_history full buffer st) as [[Eq Eh]|[Eq Es]];
          rewrite Eq in Hd.
        -- apply drive_end in Hd as (-> & -> & _).
           cbn. rewrite app_nil_r. exact Eh.
        -- rewrite Es in Hd.
           pose proof (drive_final_speech _ _ _ _ _ _ Hd) as (Hc & _).
           apply final_speech_history in Hd.
           cbn [chunk_contents flat_map app]. fold (chunk_contents rs).
           rewrite Hc. unfold streamed_text. cbn. rewrite app_nil_r.
           exact Hd.
      * cbn in Hd. apply drive_end in Hd as (-> & -> & _).
        split; [intros [Hin|[]]; discriminate|intros _; reflexivity].
    + intros text H. apply drive_cons in H as (m & t2 & Hm & Hd & _).
      destruct r as [x|x| |delta| |a|e]; try discriminate;
        cbn [resume] in Hm; injection Hm as <-;
        cbn in Hd |- *; fold (chunk_contents rs);
        destruct (proj1 (IH _ _ _ _) _ Hd) as [H1 H2];
        (split; [intros [Hin|Hin]; [discriminate|exact (H1 Hin)]
                |intro Hn; apply H2; intro Hin; apply Hn; right; exact Hin]).
Qed.

End StreamHistory.

(** X16.  A streamed run that reaches the end of its stream adds exactly
    two turns to the history, the user turn and one assistant turn holding
    the whole streamed text, whether or not the syntheses succeeded, and
    drops none; when the stream cannot be opened or breaks, only the user
    turn is added. *)
Theorem streamed_run_history
    (st st' : agent) (input : jsstring) (rs : list reply) (t : list effect) :
  run (streamLLMResponse input) rs st = Some (None, st', t) ->
  (In StreamEnd rs ->
   conversationHistory st'
   = conversationHistory st
     ++ [Outcome.said user input;
         Outcome.said assistant (streamed_text (chunk_contents rs))])
  /\ (~ In StreamEnd rs ->
      conversationHistory st'
      = conversationHistory st ++ [Outcome.said user input]).
Proof.
  intro H. unfold run in H.
  destruct (drive (fst (fst (streamLLMResponse input st))) rs
              (snd (fst (streamLLMResponse input st))))
    as [[[q a] t2]|] eqn:Hd; [|discriminate].
  injection H as -> -> _.
  change (fst (fst (streamLLMResponse input st))) with (Some AwaitStream) in Hd.
  change (snd (fst (streamLLMResponse input st)))
    with (set_conversationHistory
            (conversationHistory st ++ [Outcome.said user input]) st) in Hd.
  destruct rs as [|r rs]; [discriminate|].
  apply drive_cons in Hd as (m & t3 & Hm & Hd & _).
  destruct r as [x|x| |delta| |a|e]; try discriminate;
    cbn [resume] in Hm; injection Hm as <-; cbn in Hd.
  - destruct (proj1 (stream_loop_history rs _ _ _ _) _ Hd) as [H1 H2].
    cbn [chunk_contents flat_map app]. fold (chunk_contents rs). split.
    + intros [Hin|Hin]; [discriminate|]. rewrite (H1 Hin).
      cbn [conversationHistory set_conversationHistory app].
      rewrite <- app_assoc. reflexivity.
    + intro Hn. rewrite H2; [reflexivity|].
      intro Hin. apply Hn. right. exact Hin.
  - apply drive_end in Hd as (-> & -> & _).
    split; [intros [Hin|[]]; discriminate|intros _; reflexivity].
Qed.

Lemma streamed_run_history_witness :
  exists st' t,
    run (streamLLMResponse Scenario.hi) Scenario.two_sentences
      (new_agent Scenario.cfg_streaming)
    = Some (None, st', t)
    /\ conversationHistory st'
       = [Outcome.said user Scenario.hi;
          Outcome.said assistant
            (streamed_text (chunk_contents Scenario.two_sentences))].
Proof.
  eexists. eexists. split; [vm_compute; reflexivity|].
  apply (proj1 (streamed_run_history (new_agent Scenario.cfg_streaming) _
                  Scenario.hi Scenario.two_sentences _ eq_refl)).
  vm_compute. tauto.
Defined.

(** ** The microphone path and its timer *)

Section Microphone.





End Microphone.





(** X19.  A silence timer that fires while a run is under way starts
    nothing and is not re-armed: the frames buffered so far stay in the
    buffer, nothing is sent or emitted, and the handle is left fired. *)
Theorem timer_firing_while_busy_is_lost
    (s : system) (remaining ms : N) :
  isProcessing (this s) = true ->
  silenceTimer (this s) = Some (Armed remaining) ->
  remaining <= ms ->
  exists s1,
    step s (Elapse ms) = Some s1
    /\ silenceTimer (this s1) = Some Fired
    /\ audioBuffer (this s1) = audioBuffer (this s)
    /\ runs s1 = runs s
    /\ trace s1 = trace s
    /\ isProcessing (this s1) = true.
Proof.
  intros Hbusy Ht Hle. cbn [step]. rewrite Ht.
  apply N.leb_le in Hle. rewrite Hle.
  eexists. split; [reflexivity|].
  unfold start, bind, modify. cbn [fst snd this runs trace].
  rewrite processBufferedAudio_busy by exact Hbusy.
  cbn. rewrite app_nil_r. auto.
Qed.

Lemma timer_firing_while_busy_is_lost_witness :
  exists s1,
    step MicScenario.busy_and_armed (Elapse 1000) = Some s1
    /\ silenceTimer (this s1) = Some Fired
    /\ audioBuffer (this s1) = audioBuffer (this MicScenario.busy_and_armed)
    /\ runs s1 = runs MicScenario.busy_and_armed
    /\ trace s1 = trace MicScenario.busy_and_armed
    /\ isProcessing (this s1) = true.
Proof.
  apply (timer_firing_while_busy_is_lost MicScenario.busy_and_armed 1000 1000);
    [reflexivity|reflexivity|discriminate].
Defined.

(** ** Calls made while a run is under way *)

(** X20.  clearHistory does not stop a run: when it is called while the
    chat completion is awaited, the answer that arrives is pushed onto the
    emptied history, which is left holding that assistant turn alone,
    without the user turn it answers. *)
Theorem clearHistory_during_generation
    (s : system) (i : nat) (c : caller) (transcript : jsstring)
    (content : option jsstring) :
  nth_error (runs s) i = Some (Some (AwaitCompletion c transcript)) ->
  exists s',
    steps s [CallClearHistory; Settle i (Completed content)] = Some s'
    /\ conversationHistory (this s')
       = [Outcome.said assistant (or_empty content)]
    /\ In (Emit (response_ (or_empty content))) (trace s').
Proof.
  intro Hrun. cbn [steps step]. unfold exec at 1. cbn [runs this trace fst snd].
  rewrite Hrun. cbn [resume].
  eexists. split; [reflexivity|]. cbn [this trace].
  unfold clearHistory, bind, modify. cbn [fst snd].
  rewrite getLLMResponse_return_history. cbv zeta.
  split; [reflexivity|].
  apply in_or_app. right.
  destruct c; unfold_methods; split_tests; red_agent; cbn; auto.
Qed.

Lemma clearHistory_during_generation_witness :
  exists s',
    steps Scenario.generating
      [CallClearHistory; Settle 0 (Completed (Some Scenario.hello))]
    = Some s'
    /\ conversationHistory (this s')
       = [Outcome.said assistant Scenario.hello]
    /\ In (Emit (response_ Scenario.hello)) (trace s').
Proof.
  apply (clearHistory_during_generation Scenario.generating 0 fromAudioFile
           Scenario.hi (Some Scenario.hello)).
  reflexivity.
Defined.

(** X21.  A run does not keep the configuration it started with: when
    updateConfig is called while the chat completion is awaited, the speech
    request made for the answer uses the voice and the speed of the new
    configuration. *)
Theorem updateConfig_during_generation
    (s : system) (i : nat) (c : caller) (transcript response : jsstring)
    (merged : StreamingVoiceConfig) :
  nth_error (runs s) i = Some (Some (AwaitCompletion c transcript)) ->
  truthy (trim response) = true ->
  test arabicPattern response = false ->
  exists s',
    steps s [CallUpdateConfig merged; Settle i (Completed (Some response))]
    = Some s'
    /\ trace s'
       = trace s
         ++ [Emit (response_ response);
             Call (Speech (ttsVoice merged) response (ttsSpeed merged))].
Proof.
  intros Hrun Hr Ha. cbn [steps step]. unfold exec at 1.
  cbn [runs this trace fst snd]. rewrite Hrun. cbn [resume].
  eexists. split; [reflexivity|]. cbn [trace].
  unfold updateConfig, modify, exec. cbn [this trace fst snd].
  rewrite app_nil_r. f_equal.
  destruct c; unfold_methods; red_agent; rewrite Hr; red_agent;
    rewrite Ha; rewrite (tts_input_latin _ Ha); split_tests; reflexivity.
Qed.

Lemma updateConfig_during_generation_witness :
  exists s',
    steps Scenario.generating
      [CallUpdateConfig Scenario.cfg_streaming;
       Settle 0 (Completed (Some Scenario.hello))]
    = Some s'
    /\ trace s'
       = trace Scenario.generating
         ++ [Emit (response_ Scenario.hello);
             Call (Speech (ttsVoice Scenario.cfg_streaming) Scenario.hello
                     (ttsSpeed Scenario.cfg_streaming))].
Proof.
  apply (updateConfig_during_generation Scenario.generating 0 fromAudioFile
           Scenario.hi Scenario.hello Scenario.cfg_streaming); reflexivity.
Defined.

(** ** Speech detection *)

Section DetectorFacts.

Import Detector.

Lemma detectSpeech_thresholds (e : Q) (v : VoiceActivityDetector) :
  energyThreshold (detectSpeech e v) = energyThreshold v
  /\ silenceThreshold (detectSpeech e v) = silenceThreshold v
  /\ silenceTimeout (detectSpeech e v) = silenceTimeout v
  /\ speechTimeout (detectSpeech e v) = speechTimeout v
  /\ isSpeaking (detectSpeech e v) = isSpeaking v
  /\ previousEnergy (detectSpeech e v) = previousEnergy v
  /\ smoothingFactor (detectSpeech e v) = smoothingFactor v
  /\ isCalibrating (detectSpeech e v) = isCalibrating v.
Proof.
  unfold detectSpeech.
  destruct (Qgt_bool e (energyThreshold v)), (Qgt_bool (silenceThreshold v) e),
    (isSpeaking v) eqn:Es, (speechTimer v), (silenceTimer v); cbn;
    rewrite ?Es; repeat split.
Qed.

Lemma detectSpeech_isSpeaking (e : Q) (v : VoiceActivityDetector) :
  isSpeaking (detectSpeech e v) = isSpeaking v.
Proof. apply detectSpeech_thresholds. Qed.

Lemma detectSpeech_one_timer (e : Q) (v : VoiceActivityDetector) :
  one_timer v -> one_timer (detectSpeech e v).
Proof.
  unfold one_timer, detectSpeech. intros [H1 H2].
  destruct (Qgt_bool e (energyThreshold v)), (Qgt_bool (silenceThreshold v) e),
    (isSpeaking v) eqn:Es, (speechTimer v) eqn:Ep, (silenceTimer v) eqn:Ei;
    cbn; rewrite ?Es, ?Ep, ?Ei; split; intro H; try congruence; auto;
    try (destruct H1; congruence); try (destruct H2; congruence).
Qed.

Lemma elapse_one_timer (ms : N) (v : VoiceActivityDetector) :
  one_timer v ->
  one_timer (fst (elapse ms v))
  /\ alternates (isSpeaking v) (snd (elapse ms v)) = true
  /\ isSpeaking (fst (elapse ms v))
     = speaking_after (isSpeaking v) (snd (elapse ms v)).
Proof.
  unfold one_timer, elapse, due. intros [H1 H2].
  destruct (speechTimer v) as [sp|] eqn:Ep, (silenceTimer v) as [si|] eqn:Ei.
  - destruct H1; congruence.
  - destruct H1 as [Hs _]; [congruence|].
    destruct (remaining sp <=? ms)%N; cbn; rewrite ?Ep, ?Ei, ?Hs; cbn;
      repeat split; try congruence; intro H; congruence.
  - destruct H2 as [Hs _]; [congruence|].
    destruct (remaining si <=? ms)%N; cbn; rewrite ?Ep, ?Ei, ?Hs; cbn;
      repeat split; try congruence; intro H; congruence.
  - cbn. rewrite ?Ep, ?Ei. cbn. repeat split; congruence.
Qed.

Lemma monitor_one_timer (e : Q) (v : VoiceActivityDetector) :
  one_timer v ->
  one_timer (fst (monitor e v))
  /\ alternates (isSpeaking v) (snd (monitor e v)) = true
  /\ isSpeaking (fst (monitor e v))
     = speaking_after (isSpeaking v) (snd (monitor e v)).
Proof.
  intro H. unfold monitor. destruct (isCalibrating v); cbn [fst snd].
  - split; [exact H|]. split; [|reflexivity]. destruct (isSpeaking v); reflexivity.
  - split; [apply detectSpeech_one_timer; exact H|].
    cbn [alternates speaking_after].
    split; [destruct (isSpeaking v); reflexivity|].
    apply (detectSpeech_isSpeaking _ (set_previousEnergy _ v)).
Qed.

Lemma alternates_app (es1 es2 : list event) :
  forall b,
    alternates b (es1 ++ es2)
    = alternates b es1 && alternates (speaking_after b es1) es2.
Proof.
  induction es1 as [|e es1 IH]; intro b; [reflexivity|].
  destruct e; cbn [app alternates speaking_after]; rewrite IH;
    try reflexivity; rewrite andb_assoc; reflexivity.
Qed.

Lemma speaking_after_app (es1 es2 : list event) :
  forall b,
    speaking_after b (es1 ++ es2)
    = speaking_after (speaking_after b es1) es2.
Proof.
  induction es1 as [|e es1 IH]; intro b; [reflexivity|].
  destruct e; cbn [app speaking_after]; apply IH.
Qed.

Lemma react_one_timer (i : input) (v : VoiceActivityDetector) :
  one_timer v ->
  one_timer (fst (react v i))
  /\ alternates (isSpeaking v) (snd (react v i)) = true
  /\ isSpeaking (fst (react v i))
     = speaking_after (isSpeaking v) (snd (react v i)).
Proof.
  intro H. destruct i as [e|e|ms]; cbn [react].
  - cbn [fst snd alternates speaking_after].
    split; [apply detectSpeech_one_timer; exact H|].
    split; [reflexivity|]. apply detectSpeech_isSpeaking.
  - apply monitor_one_timer, H.
  - apply elapse_one_timer, H.
Qed.

Lemma reacts_one_timer (l : list input) :
  forall v,
    one_timer v ->
    one_timer (fst (reacts v l))
    /\ alternates (isSpeaking v) (snd (reacts v l)) = true
    /\ isSpeaking (fst (reacts v l))
       = speaking_after (isSpeaking v) (snd (reacts v l)).
Proof.
  induction l as [|i l IH]; intros v H; cbn [reacts fst snd].
  - split; [exact H|]. split; reflexivity.
  - destruct (react_one_timer i v H) as (H1 & H2 & H3).
    destruct (IH _ H1) as (H4 & H5 & H6).
    split; [exact H4|].
    rewrite alternates_app, speaking_after_app, H2, <- H3, H5, H6.
    split; reflexivity.
Qed.

Lemma total_wait_Frame (e : Q) (l : list input) :
  total_wait (Frame e :: l) = total_wait l.
Proof. reflexivity. Qed.

Lemma total_wait_Monitor (e : Q) (l : list input) :
  total_wait (Monitor e :: l) = total_wait l.
Proof. reflexivity. Qed.

Lemma total_wait_Wait (ms : N) (l : list input) :
  total_wait (Wait ms :: l) = (ms + total_wait l)%N.
Proof. reflexivity. Qed.

End DetectorFacts.

(** X22.  Without the manual overrides and reset, the detector keeps at
    most one of its two timers pending, the speech timer only while not
    speaking and the silence timer only while speaking; whatever energies it
    is given and however time passes, speechStart and speechEnd are emitted
    in turn, beginning with speechStart, and isSpeaking always agrees with
    the last of them. *)
Theorem speech_events_alternate
    (config : Detector.VadConfig) (l : list Detector.input) :
  let r := Detector.reacts (Detector.new_detector config) l in
  Detector.one_timer (fst r)
  /\ Detector.alternates false (snd r) = true
  /\ Detector.isSpeaking (fst r) = Detector.speaking_after false (snd r).
Proof.
  apply (reacts_one_timer l (Detector.new_detector config)).
  split; intro H; exfalso; apply H; reflexivity.
Qed.

Section Hysteresis.

Import Detector.

Local Open Scope Q_scope.

Lemma Qgt_bool_true (a b : Q) : Qgt_bool a b = true <-> b < a.
Proof.
  unfold Qgt_bool. rewrite negb_true_iff. split.
  - intro H. apply Qnot_le_lt. intro Hle. apply Qle_bool_iff in Hle. congruence.
  - intro H. apply not_true_is_false. intro Hle. apply Qle_bool_iff in Hle.
    exact (Qlt_not_le _ _ H Hle).
Qed.

Lemma Qgt_bool_false (a b : Q) : Qgt_bool a b = false <-> a <= b.
Proof.
  unfold Qgt_bool. rewrite negb_false_iff. apply Qle_bool_iff.
Qed.

(** While speaking with the silence timer running, detectSpeech changes
    nothing that matters, whatever the energy. *)
Lemma detectSpeech_silence_pending (e : Q) (v : VoiceActivityDetector)
    (t : timeout) :
  isSpeaking v = true -> silenceTimer v = Some t -> speechTimer v = None ->
  isSpeaking (detectSpeech e v) = true
  /\ silenceTimer (detectSpeech e v) = Some t
  /\ speechTimer (detectSpeech e v) = None.
Proof.
  intros Hs Hi Hp. unfold detectSpeech. rewrite Hs, Hi.
  destruct (Qgt_bool e (energyThreshold v)),
    (Qgt_bool (silenceThreshold v) e); cbn; auto.
Qed.

Lemma monitor_fields (e : Q) (v : VoiceActivityDetector) :
  exists e' es,
    monitor e v = (if isCalibrating v then v
                   else detectSpeech e' (set_previousEnergy e' v), es)
    /\ filter is_speech_event es = [].
Proof.
  unfold monitor. destruct (isCalibrating v).
  - exists 0, []. split; reflexivity.
  - eexists. eexists. split; reflexivity.
Qed.

Lemma silence_timer_runs_out (l : list input) :
  forall (v : VoiceActivityDetector) (t : timeout),
    isSpeaking v = true -> silenceTimer v = Some t -> speechTimer v = None ->
    (0 < remaining t)%N ->
    (remaining t <= total_wait l)%N ->
    exists before after,
      snd (reacts v l) = before ++ speechEnd :: after
      /\ filter is_speech_event before = [].
Proof.
  induction l as [|i l IH]; intros v t Hs Hi Hp H0 Hw.
  - cbn in Hw. lia.
  - cbn [reacts snd].
    destruct i as [e|e|ms]; cbn [react];
      rewrite ?total_wait_Frame, ?total_wait_Monitor, ?total_wait_Wait in Hw.
    + destruct (detectSpeech_silence_pending e v t Hs Hi Hp) as (H1 & H2 & H3).
      cbn [fst snd app]. exact (IH _ t H1 H2 H3 H0 Hw).
    + destruct (monitor_fields e v) as (e' & es & -> & Hes). cbn [fst snd].
      assert (Hv : isSpeaking (if isCalibrating v then v
                               else detectSpeech e' (set_previousEnergy e' v))
                   = true
                   /\ silenceTimer (if isCalibrating v then v
                                    else detectSpeech e'
                                           (set_previousEnergy e' v))
                      = Some t
                   /\ speechTimer (if isCalibrating v then v
                                   else detectSpeech e'
                                          (set_previousEnergy e' v))
                      = None).
      { destruct (isCalibrating v); [auto|].
        apply detectSpeech_silence_pending; assumption. }
      destruct Hv as (H1 & H2 & H3).
      destruct (IH _ t H1 H2 H3 H0 Hw) as (before & after & -> & Hb).
      exists (es ++ before), after. rewrite <- app_assoc.
      split; [reflexivity|]. rewrite filter_app, Hes, Hb. reflexivity.
    + unfold elapse, due. rewrite Hp, Hi.
      destruct (N.leb_spec (remaining t) ms) as [Hdue|Hlater].
      * cbn [silence_fires fst snd app]. exists []. eexists.
        split; reflexivity.
      * cbn [fst snd app option_map].
        apply (IH _ (tick ms t)); cbn; try assumption; try reflexivity; lia.
Qed.

End Hysteresis.

(** X23.  Once the detector is speaking and its silence timer runs, no
    energy value cancels that timer: the branch for energy above the
    threshold does nothing while speaking.  Whatever energies follow, the
    next speech event is speechEnd, emitted as soon as the time that has
    passed reaches what was left on the timer. *)
Theorem silence_timer_is_never_cancelled
    (l : list Detector.input) (v : Detector.VoiceActivityDetector)
    (t : Detector.timeout) :
  Detector.isSpeaking v = true ->
  Detector.silenceTimer v = Some t ->
  Detector.speechTimer v = None ->
  (0 < Detector.remaining t)%N ->
  (Detector.remaining t <= Detector.total_wait l)%N ->
  exists before after,
    snd (Detector.reacts v l) = before ++ Detector.speechEnd :: after
    /\ filter Detector.is_speech_event before = [].
Proof. intros. eapply silence_timer_runs_out; eassumption. Qed.

Lemma silence_timer_is_never_cancelled_witness :
  exists before after,
    snd (Detector.reacts DetectorScenario.dipped
           DetectorScenario.speech_goes_on)
    = before ++ Detector.speechEnd :: after
    /\ filter Detector.is_speech_event before = [].
Proof.
  apply (silence_timer_is_never_cancelled DetectorScenario.speech_goes_on
           DetectorScenario.dipped
           {| Detector.remaining := 1500; Detector.rank := 1 |});
    vm_compute; (reflexivity || discriminate).
Defined.

Section Confirmation.

Import Detector.

Local Open Scope Q_scope.

Lemma speech_timer_runs_out (l : list input) :
  forall (v : VoiceActivityDetector) (t : timeout),
    isSpeaking v = false -> speechTimer v = Some t -> silenceTimer v = None ->
    Forall (not_quiet (silenceThreshold v)) l ->
    (0 < remaining t)%N ->
    (remaining t <= total_wait l)%N ->
    exists after, snd (reacts v l) = speechStart :: after.
Proof.
  induction l as [|i l IH]; intros v t Hs Hp Hn Hq H0 Hw.
  - cbn in Hw. lia.
  - inversion Hq as [|x y Hi Hl]; subst.
    cbn [reacts snd].
    destruct i as [e|e|ms]; cbn [react not_quiet] in *;
      rewrite ?total_wait_Frame, ?total_wait_Wait in Hw; [|contradiction|].
    + cbn [fst snd app].
      destruct (detectSpeech_thresholds e v) as (_ & Hsil & _ & _ & Hspk & _).
      apply Qgt_bool_false in Hi.
      apply (IH _ t); try assumption.
      * rewrite Hspk. exact Hs.
      * unfold detectSpeech. rewrite Hs, Hp, Hi.
        destruct (Qgt_bool e (energyThreshold v)); cbn; [reflexivity|exact Hp].
      * unfold detectSpeech. rewrite Hs, Hp, Hi.
        destruct (Qgt_bool e (energyThreshold v)); cbn; [reflexivity|exact Hn].
      * rewrite Hsil. exact Hl.
    + unfold elapse, due. rewrite Hp, Hn.
      destruct (N.leb_spec (remaining t) ms) as [Hdue|Hlater].
      * cbn [speech_fires fst snd app]. eexists. reflexivity.
      * cbn [fst snd app option_map].
        apply (IH _ (tick ms t)); cbn; try assumption; try reflexivity; lia.
Qed.

Lemma reacts_app (l1 l2 : list input) :
  forall v,
    reacts v (l1 ++ l2)
    = (fst (reacts (fst (reacts v l1)) l2),
       snd (reacts v l1) ++ snd (reacts (fst (reacts v l1)) l2)).
Proof.
  induction l1 as [|i l1 IH]; intro v; cbn [app reacts fst snd].
  - destruct (reacts v l2); reflexivity.
  - rewrite IH. cbn [fst snd]. rewrite app_assoc. reflexivity.
Qed.

Lemma short_burst (l : list input) :
  forall v : VoiceActivityDetector,
    isSpeaking v = false -> silenceTimer v = None ->
    Forall direct l ->
    (speechTimer v = None
     \/ exists t, speechTimer v = Some t /\ (total_wait l < remaining t)%N) ->
    (total_wait l < speechTimeout v)%N ->
    snd (reacts v l) = []
    /\ isSpeaking (fst (reacts v l)) = false
    /\ silenceTimer (fst (reacts v l)) = None
    /\ energyThreshold (fst (reacts v l)) = energyThreshold v
    /\ silenceThreshold (fst (reacts v l)) = silenceThreshold v.
Proof.
  induction l as [|i l IH]; intros v Hs Hn Hd Ht Hw.
  - cbn. auto.
  - inversion Hd as [|x y Hi Hl]; subst.
    cbn [reacts].
    destruct i as [e|e|ms]; cbn [react direct fst snd app] in *;
      rewrite ?total_wait_Frame, ?total_wait_Wait in Hw, Ht;
      [|contradiction|].
    + destruct (detectSpeech_thresholds e v)
        as (Hen & Hsil & _ & Hto & Hspk & _).
      destruct (IH (detectSpeech e v)) as (H1 & H2 & H3 & H4 & H5);
        try assumption.
      * rewrite Hspk. exact Hs.
      * unfold detectSpeech. rewrite Hs.
        destruct (Qgt_bool e (energyThreshold v)); cbn;
          [destruct (speechTimer v); cbn; reflexivity|].
        destruct (Qgt_bool (silenceThreshold v) e); cbn; exact Hn.
      * unfold detectSpeech. rewrite Hs.
        destruct (Qgt_bool e (energyThreshold v)); cbn.
        -- destruct Ht as [Ht|(t & Ht & Hr)]; rewrite Ht; cbn.
           ++ right. eexists. split; [reflexivity|]. cbn. exact Hw.
           ++ right. exists t. auto.
        -- destruct (Qgt_bool (silenceThreshold v) e); cbn; [left; reflexivity|].
           exact Ht.
      * rewrite Hto. exact Hw.
      * rewrite H4, H5, Hen, Hsil. auto.
    + unfold elapse, due. rewrite Hn.
      destruct Ht as [Ht|(t & Ht & Hr)]; rewrite Ht.
      * cbn [fst snd app option_map].
        destruct (IH (set_timers None None (timers_set v) v))
          as (H1 & H2 & H3 & H4 & H5); cbn; auto; lia.
      * destruct (N.leb_spec (remaining t) ms) as [Hdue|Hlater]; [lia|].
        cbn [fst snd app option_map].
        destruct (IH (set_timers None (Some (tick ms t)) (timers_set v) v))
          as (H1 & H2 & H3 & H4 & H5); cbn; auto; try lia.
        right. eexists. split; [reflexivity|]. cbn. lia.
Qed.

End Confirmation.

(** X24.  Speech is confirmed after the speech timeout: when a detector
    that is not speaking and has no timer pending gets an energy above the
    energy threshold, and none of the energies that follow is below the
    silence threshold, speechStart is the first event emitted, once the
    speech timeout has passed.  Energies in the band between the two
    thresholds do not cancel the timer. *)
Theorem speech_is_confirmed_after_timeout
    (v : Detector.VoiceActivityDetector) (e : Q) (l : list Detector.input) :
  Detector.isSpeaking v = false ->
  Detector.speechTimer v = None ->
  Detector.silenceTimer v = None ->
  (Detector.energyThreshold v < e)%Q ->
  Forall (Detector.not_quiet (Detector.silenceThreshold v)) l ->
  (0 < Detector.speechTimeout v)%N ->
  (Detector.speechTimeout v <= Detector.total_wait l)%N ->
  exists after,
    snd (Detector.reacts v (Detector.Frame e :: l))
    = Detector.speechStart :: after.
Proof.
  intros Hs Hp Hn He Hq H0 Hw.
  cbn [Detector.reacts Detector.react fst snd app].
  destruct (detectSpeech_thresholds e v) as (_ & Hsil & _ & _ & Hspk & _).
  apply Qgt_bool_true in He.
  apply (speech_timer_runs_out l _
           {| Detector.remaining := Detector.speechTimeout v;
              Detector.rank := Detector.timers_set v |});
    try assumption.
  - rewrite Hspk. exact Hs.
  - unfold Detector.detectSpeech. rewrite He, Hs, Hp. reflexivity.
  - unfold Detector.detectSpeech. rewrite He, Hs, Hp. reflexivity.
  - rewrite Hsil. exact Hq.
Qed.

Lemma speech_is_confirmed_after_timeout_witness :
  exists after,
    snd (Detector.reacts (Detector.new_detector Detector.no_config)
           (Detector.Frame (1 # 2) :: DetectorScenario.held))
    = Detector.speechStart :: after.
Proof.
  apply (speech_is_confirmed_after_timeout
           (Detector.new_detector Detector.no_config) (1 # 2)
           DetectorScenario.held); try reflexivity; try discriminate.
  repeat constructor; cbn; discriminate.
Defined.

(** X25.  A burst shorter than the speech timeout is debounced: when a
    detector that is not speaking hears what it will for less than the
    speech timeout and then an energy below the silence threshold, the
    speech timer is cancelled and no event is ever emitted for the burst,
    however long one waits.  (The silence threshold must not exceed the
    energy threshold, as in every preset and after calibration.) *)
Theorem short_burst_is_debounced
    (v : Detector.VoiceActivityDetector) (l : list Detector.input)
    (q : Q) (ms : N) :
  Detector.isSpeaking v = false ->
  Detector.speechTimer v = None ->
  Detector.silenceTimer v = None ->
  (Detector.silenceThreshold v <= Detector.energyThreshold v)%Q ->
  Forall Detector.direct l ->
  (Detector.total_wait l < Detector.speechTimeout v)%N ->
  (q < Detector.silenceThreshold v)%Q ->
  let r := Detector.reacts v
             (l ++ [Detector.Frame q; Detector.Wait ms]) in
  snd r = []
  /\ Detector.isSpeaking (fst r) = false
  /\ Detector.speechTimer (fst r) = None
  /\ Detector.silenceTimer (fst r) = None.
Proof.
  intros Hs Hp Hn Hth Hd Hw Hq. cbv zeta. rewrite reacts_app.
  destruct (short_burst l v Hs Hn Hd (or_introl Hp) Hw)
    as (H1 & H2 & H3 & H4 & H5).
  cbn [fst snd]. rewrite H1. cbn [app].
  set (v1 := fst (Detector.reacts v l)) in *.
  cbn [Detector.reacts Detector.react fst snd app].
  assert (Hq1 : Detector.Qgt_bool (Detector.silenceThreshold v1) q = true)
    by (apply Qgt_bool_true; rewrite H5; exact Hq).
  assert (Hq2 : Detector.Qgt_bool q (Detector.energyThreshold v1) = false).
  { apply Qgt_bool_false. rewrite H4.
    apply Qlt_le_weak. eapply Qlt_le_trans; eassumption. }
  unfold Detector.detectSpeech. rewrite Hq1, Hq2, H2, H3.
  unfold Detector.elapse, Detector.due. cbn. rewrite H2. auto.
Qed.

Lemma short_burst_is_debounced_witness :
  let r := Detector.reacts (Detector.new_detector Detector.no_config)
             (DetectorScenario.burst
              ++ [Detector.Frame 0; Detector.Wait 5000]) in
  snd r = []
  /\ Detector.isSpeaking (fst r) = false
  /\ Detector.speechTimer (fst r) = None
  /\ Detector.silenceTimer (fst r) = None.
Proof.
  apply (short_burst_is_debounced (Detector.new_detector Detector.no_config)
           DetectorScenario.burst 0 5000); try reflexivity.
  - discriminate.
  - repeat constructor.
Defined.

(** ** The band between the calibrated thresholds *)

Section CalibratedBand.

Import Vad.

Local Open Scope Q_scope.

Lemma Qle_bool_true_le (x y : Q) : Qle_bool x y = true -> x <= y.
Proof. apply Qle_bool_iff. Qed.

Lemma Qle_bool_false_lt (x y : Q) : Qle_bool x y = false -> y < x.
Proof.
  intro H. apply Qnot_le_lt. intro L. apply Qle_bool_iff in L. congruence.
Qed.

(** Math.max(x * 1.5, 0.01) < Math.max(x * 2, 0.02) in double
    arithmetic, whatever [x] is. *)
Lemma thresholds_band (x : Q) :
  Qmax2 (Double.mul x (15 # 10)) (Double.round (1 # 100))
  < Qmax2 (Double.mul x 2) (Double.round (2 # 100)).
Proof.
  unfold Qmax2, Double.mul.
  assert (D1 : Double.round (1 # 100)
               == 5764607523034235 # 576460752303423488)
    by (vm_compute; reflexivity).
  assert (D2 : Double.round (2 # 100)
               == 5764607523034235 # 288230376151711744)
    by (vm_compute; reflexivity).
  destruct (Qle_bool (Double.round (x * (15 # 10))) (Double.round (1 # 100)))
    eqn:E1,
    (Qle_bool (Double.round (x * 2)) (Double.round (2 # 100))) eqn:E2.
  - rewrite D1, D2. reflexivity.
  - apply Qle_bool_false_lt in E2. lra.
  - apply Qle_bool_true_le in E2. apply Qle_bool_false_lt in E1.
    destruct (round_cases (x * (15 # 10)))
      as [[A1 A2]|[(A1 & A2 & A3)|[A1 A2]]];
      destruct (round_cases (x * 2)) as [[C1 C2]|[(C1 & C2 & C3)|[C1 C2]]];
      numerals; lra.
  - apply Qle_bool_false_lt in E1.
    destruct (round_cases (x * (15 # 10)))
      as [[A1 A2]|[(A1 & A2 & A3)|[A1 A2]]];
      destruct (round_cases (x * 2)) as [[C1 C2]|[(C1 & C2 & C3)|[C1 C2]]];
      numerals; lra.
Qed.

Lemma Qmax2_ge_r (a b : Q) : b <= Qmax2 a b.
Proof.
  unfold Qmax2. destruct (Qle_bool a b) eqn:E.
  - apply Qle_refl.
  - apply Qlt_le_weak, Qle_bool_false_lt, E.
Qed.

Lemma calibrate_fields (e : Q) (es : list Q) (v : VoiceActivityDetector) :
  let nf := nth (percentile_index (length (sort (e :: es))))
              (sort (e :: es)) 0 in
  energyThreshold (fst (calibrate (e :: es) v))
  = Qmax2 (Double.mul nf 2) (Double.round (2 # 100))
  /\ silenceThreshold (fst (calibrate (e :: es) v))
     = Qmax2 (Double.mul nf (15 # 10)) (Double.round (1 # 100))
  /\ noiseFloor (fst (calibrate (e :: es) v)) = nf.
Proof.
  cbv zeta. unfold calibrate, calibrate_end, calculateNoiseFloor.
  destruct (calibrate_samples (e :: es) (calibrate_begin v)) as (H & _).
  cbv zeta in H. rewrite H. cbn [calibrate_begin calibrationSamples app].
  cbn [fst energyThreshold silenceThreshold noiseFloor].
  repeat split; reflexivity.
Qed.

End CalibratedBand.

(** X26.  Calibration with at least one sample always leaves a band between
    the two thresholds: whatever was measured, the silence threshold ends
    strictly below the energy threshold, neither is below its floor (0.01
    and 0.02), and the thresholds the detector was constructed with play no
    part in the result. *)
Theorem calibrated_thresholds_keep_a_band
    (energies : list Q) (v v' : Vad.VoiceActivityDetector) :
  energies <> [] ->
  let w := fst (Vad.calibrate energies v) in
  (Vad.silenceThreshold w < Vad.energyThreshold w)%Q
  /\ (2 # 100 <= Vad.energyThreshold w)%Q
  /\ (1 # 100 <= Vad.silenceThreshold w)%Q
  /\ Vad.energyThreshold w
     = Vad.energyThreshold (fst (Vad.calibrate energies v'))
  /\ Vad.silenceThreshold w
     = Vad.silenceThreshold (fst (Vad.calibrate energies v')).
Proof.
  intro Hne. destruct energies as [|e es]; [congruence|]. cbv zeta.
  destruct (calibrate_fields e es v) as (H1 & H2 & _).
  destruct (calibrate_fields e es v') as (H3 & H4 & _).
  cbv zeta in *. rewrite H1, H2, H3, H4.
  split; [apply thresholds_band|].
  split; [eapply Qle_trans; [|apply Qmax2_ge_r]; vm_compute; discriminate|].
  split; [eapply Qle_trans; [|apply Qmax2_ge_r]; vm_compute; discriminate|].
  split; reflexivity.
Qed.

Lemma calibrated_thresholds_keep_a_band_witness :
  let w := fst (Vad.calibrate [5 # 100; 1 # 100; 3 # 100; 2 # 100]
                  Vad.new_detector) in
  (Vad.silenceThreshold w < Vad.energyThreshold w)%Q
  /\ (2 # 100 <= Vad.energyThreshold w)%Q
  /\ (1 # 100 <= Vad.silenceThreshold w)%Q
  /\ Vad.energyThreshold w
     = Vad.energyThreshold
         (fst (Vad.calibrate [5 # 100; 1 # 100; 3 # 100; 2 # 100]
                 Vad.new_detector))
  /\ Vad.silenceThreshold w
     = Vad.silenceThreshold
         (fst (Vad.calibrate [5 # 100; 1 # 100; 3 # 100; 2 # 100]
                 Vad.new_detector)).
Proof.
  apply (calibrated_thresholds_keep_a_band
           [5 # 100; 1 # 100; 3 # 100; 2 # 100]
           Vad.new_detector Vad.new_detector).
  discriminate.
Defined.

(** ** Manual overrides and reset of the detector *)

Section Overrides.

Import Detector.

Lemma reset_one_timer (v : VoiceActivityDetector) :
  one_timer (fst (reset v)).
Proof. split; intro H; exfalso; apply H; reflexivity. Qed.

End Overrides.

(** X27.  forceStart does not cancel a pending speech timer: when it is
    called while the timer runs, speechStart is emitted at once and a second
    time when the timer comes due, with no speechEnd in between. *)
Theorem forceStart_repeats_speechStart
    (v : Detector.VoiceActivityDetector) (t : Detector.timeout) (ms : N) :
  Detector.speechTimer v = Some t ->
  Detector.silenceTimer v = None ->
  (Detector.remaining t <= ms)%N ->
  let r1 := Detector.forceStart v in
  let r2 := Detector.elapse ms (fst r1) in
  snd r1 ++ snd r2 = [Detector.speechStart; Detector.speechStart]
  /\ Detector.isSpeaking (fst r2) = true
  /\ Detector.speechTimer (fst r2) = None.
Proof.
  intros Hp Hn Hdue. cbv zeta.
  unfold Detector.forceStart, Detector.elapse, Detector.due.
  cbn [fst snd Detector.set_isSpeaking Detector.speechTimer
       Detector.silenceTimer].
  rewrite Hp, Hn.
  apply N.leb_le in Hdue. rewrite Hdue.
  cbn. repeat split; reflexivity.
Qed.

Lemma forceStart_repeats_speechStart_witness :
  let v := fst (Detector.reacts (Detector.new_detector Detector.no_config)
                  [Detector.Frame (1 # 2)]) in
  let r1 := Detector.forceStart v in
  let r2 := Detector.elapse 300 (fst r1) in
  snd r1 ++ snd r2 = [Detector.speechStart; Detector.speechStart]
  /\ Detector.isSpeaking (fst r2) = true
  /\ Detector.speechTimer (fst r2) = None.
Proof.
  apply (forceStart_repeats_speechStart
           (fst (Detector.reacts (Detector.new_detector Detector.no_config)
                   [Detector.Frame (1 # 2)]))
           {| Detector.remaining := 300; Detector.rank := 0 |} 300).
  - reflexivity.
  - reflexivity.
  - discriminate.
Defined.

(** X28.  reset ends speech without saying so and starts detection afresh:
    from any state it emits reset alone, no speechEnd even while speaking,
    cancels both timers, clears isSpeaking and the smoothed energy and
    keeps the thresholds and timeouts; in whatever follows speechStart and
    speechEnd alternate again, beginning with speechStart. *)
Theorem reset_restarts_detection
    (v : Detector.VoiceActivityDetector) (l : list Detector.input) :
  let r := Detector.reset v in
  snd r = [Detector.reset_]
  /\ Detector.isSpeaking (fst r) = false
  /\ Detector.speechTimer (fst r) = None
  /\ Detector.silenceTimer (fst r) = None
  /\ Detector.previousEnergy (fst r) = 0%Q
  /\ Detector.getConfig (fst r) = Detector.getConfig v
  /\ Detector.alternates false (snd (Detector.reacts (fst r) l)) = true
  /\ Detector.one_timer (fst (Detector.reacts (fst r) l)).
Proof.
  cbv zeta.
  destruct (reacts_one_timer l (fst (Detector.reset v)) (reset_one_timer v))
    as (H1 & H2 & _).
  split; [reflexivity|]. split; [reflexivity|]. split; [reflexivity|].
  split; [reflexivity|]. split; [reflexivity|]. split; [reflexivity|].
  split; [exact H2|exact H1].
Qed.

(** ** The chat model of RealtimeVoiceAgent *)

Section Models.

Import ModelName VoiceAgent.

Lemma same_eq (a : jsstring) : forall b, same a b = true <-> a = b.
Proof.
  induction a as [|x a IH]; intros [|y b]; cbn [same];
    try (split; [discriminate|congruence]); [tauto|].
  rewrite andb_true_iff, N.eqb_eq, IH.
  split; [intros [-> ->]; reflexivity|intro H; inversion H; auto].
Qed.

Lemma models_include_In (l : list jsstring) (x : jsstring) :
  includes l x = true <-> In x l.
Proof.
  unfold includes. rewrite existsb_exists. split.
  - intros (y & Hy & E). apply same_eq in E. subst. exact Hy.
  - intro H. exists x. split; [exact H|]. apply same_eq. reflexivity.
Qed.

Lemma empty_not_working (p : client) : ~ In [] (WORKING_MODELS p).
Proof.
  intro H. apply models_include_In in H. destruct p; vm_compute in H; discriminate.
Qed.

Lemma openaiModel_working (c : VoiceAgentConfig) :
  exists name,
    openaiModel c = Some name /\ In name (WORKING_MODELS OpenAI)
    /\ (In (model_or_empty c) (WORKING_MODELS OpenAI) ->
        model c = Some name)
    /\ (~ In (model_or_empty c) (WORKING_MODELS OpenAI) ->
        name = gpt_3_5_turbo).
Proof.
  unfold openaiModel.
  destruct (includes (WORKING_MODELS OpenAI) (model_or_empty c)) eqn:E.
  - apply models_include_In in E. unfold model_or_empty in *.
    destruct (model c) as [m|].
    + exists m. split; [reflexivity|]. split; [exact E|].
      split; [reflexivity|]. intro H. contradiction.
    + exfalso. exact (empty_not_working OpenAI E).
  - exists gpt_3_5_turbo. split; [reflexivity|].
    split; [apply models_include_In; reflexivity|].
    split; [|reflexivity].
    intro H. apply models_include_In in H. congruence.
Qed.

Lemma groqModel_working (c : VoiceAgentConfig) :
  exists name,
    groqModel c = Some name /\ In name (WORKING_MODELS Groq)
    /\ (In (model_or_empty c) (WORKING_MODELS Groq) ->
        model c = Some name)
    /\ (~ In (model_or_empty c) (WORKING_MODELS Groq) ->
        name = llama3_70b_8192).
Proof.
  unfold groqModel.
  destruct (includes (WORKING_MODELS Groq) (model_or_empty c)) eqn:E.
  - apply models_include_In in E. unfold model_or_empty in *.
    destruct (model c) as [m|].
    + exists m. split; [reflexivity|]. split; [exact E|].
      split; [reflexivity|]. intro H. contradiction.
    + exfalso. exact (empty_not_working Groq E).
  - exists llama3_70b_8192. split; [reflexivity|].
    split; [apply models_include_In; reflexivity|].
    split; [|reflexivity].
    intro H. apply models_include_In in H. congruence.
Qed.

(** Without a model in the configuration, the constructor's default and the
    request-time fallback give: OpenAI with gpt-3.5-turbo, Groq with
    llama3-70b-8192, and under [mixed] one or the other by the length of
    the input. *)
Lemma default_model_requests (p : llmProvider) (input : jsstring) :
  generateResponse (new_agent {| config_llmProvider := p; model := None |})
    input
  = match p with
    | openai => (OpenAI, Some gpt_3_5_turbo)
    | groq => (Groq, Some llama3_70b_8192)
    | mixed =>
        if (length input <? 50)%nat then (Groq, Some llama3_70b_8192)
        else (OpenAI, Some gpt_3_5_turbo)
    end.
Proof.
  destruct p; unfold generateResponse; cbn [new_agent model_or_empty model
    truthy set_model config_llmProvider is_groq is_mixed orb andb];
    reflexivity.
Qed.

End Models.

(** X29.  Whatever the configuration holds, a chat request of
    generateResponse names a model of the list of the client it goes to:
    Groq when llmProvider is groq, or is mixed and the input has fewer than
    50 code units, and OpenAI otherwise; a configured model that is on that
    client's list is used as it is, any other (or none) is replaced by
    that client's fallback, gpt-3.5-turbo or llama3-70b-8192. *)
Theorem chat_model_is_working
    (c : VoiceAgent.VoiceAgentConfig) (input : jsstring) :
  let r := VoiceAgent.generateResponse c input in
  (exists name,
     snd r = Some name /\ In name (VoiceAgent.WORKING_MODELS (fst r))
     /\ (In (VoiceAgent.model_or_empty c) (VoiceAgent.WORKING_MODELS (fst r)) ->
         VoiceAgent.model c = Some name)
     /\ (~ In (VoiceAgent.model_or_empty c)
             (VoiceAgent.WORKING_MODELS (fst r)) ->
         name = match fst r with
                | VoiceAgent.OpenAI => ModelName.gpt_3_5_turbo
                | VoiceAgent.Groq => ModelName.llama3_70b_8192
                end))
  /\ (fst r = VoiceAgent.Groq
      <-> VoiceAgent.config_llmProvider c = VoiceAgent.groq
          \/ (VoiceAgent.config_llmProvider c = VoiceAgent.mixed
              /\ (length input < 50)%nat)).
Proof.
  cbv zeta. unfold VoiceAgent.generateResponse.
  destruct (VoiceAgent.config_llmProvider c);
    cbn [VoiceAgent.is_groq VoiceAgent.is_mixed orb andb].
  - split; [apply openaiModel_working|].
    cbn [fst]. split; [discriminate|]. intros [H|[H _]]; discriminate.
  - split; [apply groqModel_working|].
    cbn [fst]. split; auto.
  - destruct (Nat.ltb_spec (length input) 50) as [H|H]; cbn [fst snd].
    + split; [apply groqModel_working|]. split; auto.
    + split; [apply openaiModel_working|].
      split; [discriminate|]. intros [E|[_ E]]; [discriminate|lia].
Qed.

(** X30.  updateConfig leaves a model of the list it validates against
    (Groq's when the merged llmProvider is groq, OpenAI's when it is openai
    or mixed) whenever the update names a model: a model on that list is
    kept, any other is replaced by the first of the list, gpt-4o or
    llama3-8b-8192. *)
Theorem updateConfig_validates_model
    (u : VoiceAgent.updates) (c : VoiceAgent.VoiceAgentConfig) (m : jsstring) :
  VoiceAgent.updates_model u = Some m ->
  truthy m = true ->
  let c' := VoiceAgent.updateConfig u c in
  let l := VoiceAgent.WORKING_MODELS (VoiceAgent.provider c') in
  VoiceAgent.config_llmProvider c'
  = VoiceAgent.config_llmProvider (VoiceAgent.merge u c)
  /\ (exists name, VoiceAgent.model c' = Some name /\ In name l)
  /\ (In m l -> VoiceAgent.model c' = Some m)
  /\ (~ In m l ->
      VoiceAgent.model c'
      = Some (match VoiceAgent.provider c' with
              | VoiceAgent.OpenAI => ModelName.gpt_4o
              | VoiceAgent.Groq => ModelName.llama3_8b_8192
              end)).
Proof.
  intros Hm Ht. cbv zeta. unfold VoiceAgent.updateConfig. rewrite Hm, Ht.
  assert (Hmerged : VoiceAgent.model (VoiceAgent.merge u c) = Some m)
    by (unfold VoiceAgent.merge; rewrite Hm; reflexivity).
  destruct (VoiceAgent.includes
              (VoiceAgent.WORKING_MODELS
                 (VoiceAgent.provider (VoiceAgent.merge u c))) m) eqn:E.
  - apply models_include_In in E.
    split; [reflexivity|]. split; [exists m; auto|].
    split; [auto|]. intro H. contradiction.
  - assert (Hn : ~ In m (VoiceAgent.WORKING_MODELS
                           (VoiceAgent.provider (VoiceAgent.merge u c)))).
    { intro H. apply models_include_In in H. congruence. }
    unfold VoiceAgent.provider in *.
    cbn [VoiceAgent.set_model VoiceAgent.config_llmProvider VoiceAgent.model].
    split; [reflexivity|].
    destruct (VoiceAgent.config_llmProvider (VoiceAgent.merge u c));
      (split; [eexists; split; [reflexivity|left; reflexivity]|]);
      (split; [intro H; contradiction|intros _; reflexivity]).
Qed.

Lemma updateConfig_validates_model_witness :
  let c' := VoiceAgent.updateConfig ModelScenario.unknown
              ModelScenario.multilingual in
  let l := VoiceAgent.WORKING_MODELS (VoiceAgent.provider c') in
  VoiceAgent.config_llmProvider c'
  = VoiceAgent.config_llmProvider
      (VoiceAgent.merge ModelScenario.unknown ModelScenario.multilingual)
  /\ (exists name, VoiceAgent.model c' = Some name /\ In name l)
  /\ (In ModelName.mixtral_8x7b_32768 l ->
      VoiceAgent.model c' = Some ModelName.mixtral_8x7b_32768)
  /\ (~ In ModelName.mixtral_8x7b_32768 l ->
      VoiceAgent.model c'
      = Some (match VoiceAgent.provider c' with
              | VoiceAgent.OpenAI => ModelName.gpt_4o
              | VoiceAgent.Groq => ModelName.llama3_8b_8192
              end)).
Proof.
  apply (updateConfig_validates_model ModelScenario.unknown
           ModelScenario.multilingual ModelName.mixtral_8x7b_32768);
    reflexivity.
Defined.
